(** * Sia: job queue, dispatch and agent liveness

    A shallow embedding of the queue handling of [apps/api/src/routes/jobs.ts],
    of [preprocessActivity], [pingAgentViaStream] and [registerAgent], with the
    database tables as lists of rows and every drizzle statement as a function
    on those lists. *)

From Stdlib Require Import String Ascii ZArith List Bool Lia Permutation.
From Stdlib Require Import DecimalString.
From Stdlib Require Import Sorted.
Import ListNotations.
Local Open Scope string_scope.
Local Open Scope Z_scope.

Set Implicit Arguments.

(** ** Enumerations of [db/schema.ts] *)

Inductive JobStatus := Queued | InProgress | InReview | Completed | Failed | Archived.
Inductive JobPriority := Low | Medium | High.
Inductive QueueType := Rework | Backlog.
Inductive AgentStatus := Active | Idle | Offline.
Inductive UserAcceptanceStatus :=
  NotReviewed | ReviewedAndAccepted | ReviewedAndAskedRework | Rejected.

Scheme Equality for JobStatus.
Scheme Equality for JobPriority.
Scheme Equality for QueueType.
Scheme Equality for AgentStatus.
Scheme Equality for UserAcceptanceStatus.

Definition option_beq {A} (eqb : A -> A -> bool) (x y : option A) : bool :=
  match x, y with
  | Some a, Some b => eqb a b
  | None, None => true
  | _, _ => false
  end.

(** JavaScript [a || b] and [a ?? b] on a nullable string. *)
Definition str_or (a : option string) (b : string) : string :=
  match a with
  | Some s => if String.eqb s EmptyString then b else s
  | None => b
  end.

Definition nullish {A} (a : option A) (b : option A) : option A :=
  match a with Some _ => a | None => b end.

Definition orElse {A} (a : option A) (b : A) : A :=
  match a with Some v => v | None => b end.

(** ** Rows *)

Record UserComment := {
  file_name : string;
  line_no : Z;
  prompt : string
}.

Record LogEntry := {
  level : string;
  timestamp : string;
  message : string
}.

Module UserInput.
(** The stored [user_input] column; [sourceMetadata] is [null] or a value. *)
Record t := mk {
  source : string;
  prompt : string;
  sourceMetadata : option string
}.
End UserInput.

Module Job.
(** A row of [gpr_jobs], primary key [(id, version)].  The column
    [code_generation_detail_logs] is written by none of the modelled
    statements and is left out. *)
Record t := mk {
  id : string;
  version : Z;
  orgId : string;
  generatedName : option string;
  generatedDescription : option string;
  status : JobStatus;
  priority : JobPriority;
  orderInQueue : Z;
  queueType : option QueueType;
  agentId : option string;
  createdAt : Z;
  updatedAt : Z;
  createdBy : string;
  updatedBy : string;
  codeGenerationLogs : option (list LogEntry);
  codeVerificationLogs : option (list LogEntry);
  userInput : option UserInput.t;
  repoId : option string;
  userAcceptanceStatus : UserAcceptanceStatus;
  userComments : option (list UserComment);
  confidenceScore : option string;
  prLink : option string;
  updates : option string
}.

(** One entry of a drizzle [.set({...})] object. *)
Inductive assign :=
| SetGeneratedName (v : option string)
| SetGeneratedDescription (v : option string)
| SetStatus (v : JobStatus)
| SetPriority (v : JobPriority)
| SetOrderInQueue (v : Z)
| DecrOrderInQueue
| SetQueueType (v : option QueueType)
| SetAgentId (v : option string)
| SetUpdatedAt (v : Z)
| SetUpdatedBy (v : string)
| SetUserComments (v : option (list UserComment))
| SetUserAcceptanceStatus (v : UserAcceptanceStatus)
| SetUpdates (v : option string).

Definition apply1 (a : assign) (j : t) : t :=
  match j with
  | mk i ve o gn gd st pr oq qt ag ca ua cb ub gl vl ui rp us uc cs pl up =>
    match a with
    | SetGeneratedName v => mk i ve o v gd st pr oq qt ag ca ua cb ub gl vl ui rp us uc cs pl up
    | SetGeneratedDescription v => mk i ve o gn v st pr oq qt ag ca ua cb ub gl vl ui rp us uc cs pl up
    | SetStatus v => mk i ve o gn gd v pr oq qt ag ca ua cb ub gl vl ui rp us uc cs pl up
    | SetPriority v => mk i ve o gn gd st v oq qt ag ca ua cb ub gl vl ui rp us uc cs pl up
    | SetOrderInQueue v => mk i ve o gn gd st pr v qt ag ca ua cb ub gl vl ui rp us uc cs pl up
    | DecrOrderInQueue => mk i ve o gn gd st pr (oq - 1) qt ag ca ua cb ub gl vl ui rp us uc cs pl up
    | SetQueueType v => mk i ve o gn gd st pr oq v ag ca ua cb ub gl vl ui rp us uc cs pl up
    | SetAgentId v => mk i ve o gn gd st pr oq qt v ca ua cb ub gl vl ui rp us uc cs pl up
    | SetUpdatedAt v => mk i ve o gn gd st pr oq qt ag ca v cb ub gl vl ui rp us uc cs pl up
    | SetUpdatedBy v => mk i ve o gn gd st pr oq qt ag ca ua cb v gl vl ui rp us uc cs pl up
    | SetUserComments v => mk i ve o gn gd st pr oq qt ag ca ua cb ub gl vl ui rp us v cs pl up
    | SetUserAcceptanceStatus v => mk i ve o gn gd st pr oq qt ag ca ua cb ub gl vl ui rp v uc cs pl up
    | SetUpdates v => mk i ve o gn gd st pr oq qt ag ca ua cb ub gl vl ui rp us uc cs pl v
    end
  end.

(** A whole [.set({...})]: the entries in the order the object was built,
    a later write of a property replacing an earlier one. *)
Definition set (l : list assign) (j : t) : t :=
  fold_left (fun acc a => apply1 a acc) l j.

(** The primary key. *)
Definition key (j : t) : string * Z := (id j, version j).

Definition key_eqb (a b : t) : bool :=
  (id a =? id b)%string && (version a =? version b).
End Job.

Module Agent.
(** A row of [gpr_agents]. *)
Record t := mk {
  id : string;
  name : string;
  orgId : string;
  status : AgentStatus;
  ip : option string;
  host : option string;
  port : Z;
  lastActive : option Z;
  consecutiveFailures : Z;
  registeredAt : option Z;
  lastStreamConnectedAt : option Z;
  updatedAt : Z
}.
End Agent.

Module QueueStatus.
(** A row of the queue-pause table ([queueStates] of [db/schema.ts]), one per
    organisation and queue. *)
Record t := mk {
  orgId : string;
  queueType : QueueType;
  isPaused : bool
}.
End QueueStatus.

Module Activity.
Record t := mk {
  id : string;
  orgId : string;
  name : string;
  jobId : string;
  summary : string;
  createdBy : string;
  updatedBy : string;
  codeGenerationLogs : option string;
  verificationLogs : option string
}.
End Activity.

Module ApiKey.
Record t := mk {
  keyHash : string;
  orgId : string
}.
End ApiKey.

(** ** The database and the world around one call *)

Record Db := mkDb {
  jobs : list Job.t;
  agents : list Agent.t;
  queueStatus : list QueueStatus.t;
  activities : list Activity.t;
  apiKeys : list ApiKey.t;
  (** schedules the workflow engine was asked to start, and frames written on
      agent streams: the two effects outside the database *)
  schedules : list string;
  streamWrites : list (string * string)
}.

Definition with_jobs (f : list Job.t -> list Job.t) (d : Db) : Db :=
  mkDb (f (jobs d)) (agents d) (queueStatus d) (activities d) (apiKeys d)
       (schedules d) (streamWrites d).

Definition with_agents (f : list Agent.t -> list Agent.t) (d : Db) : Db :=
  mkDb (jobs d) (f (agents d)) (queueStatus d) (activities d) (apiKeys d)
       (schedules d) (streamWrites d).

Definition with_activities (f : list Activity.t -> list Activity.t) (d : Db) : Db :=
  mkDb (jobs d) (agents d) (queueStatus d) (f (activities d)) (apiKeys d)
       (schedules d) (streamWrites d).


Definition with_streamWrites
    (f : list (string * string) -> list (string * string)) (d : Db) : Db :=
  mkDb (jobs d) (agents d) (queueStatus d) (activities d) (apiKeys d)
       (schedules d) (f (streamWrites d)).

(** What one call sees of the outside: the clock, the uuid generator, the
    external services, and which of the fallible calls throw. *)
Inductive PingOutcome := PingSuccess | PingUnsuccessful | PingThrows.

Record Env := mkEnv {
  now : Z;                       (* new Date() / Date.now(), in ms *)
  localeString : string;         (* new Date().toLocaleString() *)
  uuid : string;                 (* uuidv4() *)
  generateJobTitleAndDescription : string -> string * string;
  activityInsertThrows : bool;   (* db.insert(activities) rejects *)
  startAgentSchedulesThrows : bool;
  isExecuting : string -> bool;  (* jobExecutionService.isExecuting *)
  scheduleJob : string -> string -> option string; (* None: it throws *)
  healthCheck : PingOutcome;     (* agentClient.healthCheck raced with the timer *)
  repoName : string -> string -> option string; (* name of repo (id, orgId), if any *)
  sha256hex : string -> string;  (* crypto.createHash('sha256')...digest('hex') *)
  (* JSON.stringify(request value) !== JSON.stringify(stored value) *)
  userInputJsonDiffers : string * string * option string -> option UserInput.t -> bool;
  userCommentsJsonDiffers : list UserComment -> option (list UserComment) -> bool;
  streamOpen : string -> bool    (* agentStreamManager.getStream(agentId) *)
}.

Record User := mkUser {
  userId : string;
  userOrgId : string
}.

(** ** Calls that may throw

    A computation runs on the database and either returns or throws; the
    writes made before a throw stay (no statement here runs in a
    transaction). *)

Inductive outcome (A : Type) :=
| Return (a : A)
| Throw (msg : string).
Arguments Return {A} a.
Arguments Throw {A} msg.

Definition M (A : Type) : Type := Db -> Db * outcome A.

Definition ret {A} (a : A) : M A := fun d => (d, Return a).

Definition bind {A B} (m : M A) (k : A -> M B) : M B :=
  fun d => match m d with
           | (d', Return a) => k a d'
           | (d', Throw e) => (d', Throw e)
           end.

Definition throw {A} (msg : string) : M A := fun d => (d, Throw msg).

Definition tryCatch {A} (body : M A) (handler : string -> M A) : M A :=
  fun d => match body d with
           | (d', Return a) => (d', Return a)
           | (d', Throw e) => handler e d'
           end.

Definition getDb : M Db := fun d => (d, Return d).
Definition modifyDb (f : Db -> Db) : M unit := fun d => (f d, Return tt).

Notation "x <- m ;; k" := (bind m (fun x => k))
  (at level 61, m at next level, right associativity).
Notation "m ;;; k" := (bind m (fun _ => k))
  (at level 61, right associativity).

(** ** Rendering *)

(** The double-quote character of the template strings. *)
Definition dq : string := String (ascii_of_nat 34) EmptyString.

Definition showZ (z : Z) : string := NilZero.string_of_int (Z.to_int z).

Definition showStatus (s : JobStatus) : string :=
  match s with
  | Queued => "queued" | InProgress => "in-progress" | InReview => "in-review"
  | Completed => "completed" | Failed => "failed" | Archived => "archived"
  end.

Definition showPriority (p : JobPriority) : string :=
  match p with Low => "low" | Medium => "medium" | High => "high" end.

Definition showQueue (q : QueueType) : string :=
  match q with Rework => "rework" | Backlog => "backlog" end.

Definition showAcceptance (s : UserAcceptanceStatus) : string :=
  match s with
  | NotReviewed => "not_reviewed"
  | ReviewedAndAccepted => "reviewed_and_accepted"
  | ReviewedAndAskedRework => "reviewed_and_asked_rework"
  | Rejected => "rejected"
  end.

(** [parts.join(', ')] *)
Fixpoint join (sep : string) (parts : list string) : string :=
  match parts with
  | [] => EmptyString
  | [p] => p
  | p :: rest => p ++ sep ++ join sep rest
  end.

(** ** Statements on [gpr_jobs] *)

Definition selectWhere (p : Job.t -> bool) (tbl : list Job.t) : list Job.t :=
  filter p tbl.

Definition updateWhere (p : Job.t -> bool) (s : list Job.assign)
    (tbl : list Job.t) : list Job.t :=
  map (fun r => if p r then Job.set s r else r) tbl.

(** [.orderBy(asc(jobs.orderInQueue))]: rows of equal position keep the order
    the table returned them in. *)
Fixpoint insertByOrder (r : Job.t) (l : list Job.t) : list Job.t :=
  match l with
  | [] => [r]
  | x :: l' =>
      if Job.orderInQueue r <=? Job.orderInQueue x then r :: l
      else x :: insertByOrder r l'
  end.

Fixpoint orderByOrderInQueue (l : list Job.t) : list Job.t :=
  match l with
  | [] => []
  | r :: l' => insertByOrder r (orderByOrderInQueue l')
  end.

(** [.orderBy(desc(jobs.version)).limit(1)] *)
Fixpoint maxVersion (l : list Job.t) : option Job.t :=
  match l with
  | [] => None
  | r :: l' =>
      match maxVersion l' with
      | Some m => if Job.version r <? Job.version m then Some m else Some r
      | None => Some r
      end
  end.

Definition idOrgIs (id org : string) (r : Job.t) : bool :=
  (Job.id r =? id)%string && (Job.orgId r =? org)%string.

Definition keyOrgIs (id : string) (ver : Z) (org : string) (r : Job.t) : bool :=
  (Job.id r =? id)%string && (Job.version r =? ver) && (Job.orgId r =? org)%string.

Definition inQueue (org : string) (q : option QueueType) (r : Job.t) : bool :=
  (Job.orgId r =? org)%string && JobStatus_beq (Job.status r) Queued
  && option_beq QueueType_beq (Job.queueType r) q.

(** [db.select().from(jobs).where(p)] *)
Definition selectJobs (p : Job.t -> bool) : M (list Job.t) :=
  fun d => (d, Return (selectWhere p (jobs d))).

Definition selectLatest (id org : string) : M (option Job.t) :=
  rows <- selectJobs (idOrgIs id org) ;;
  ret (maxVersion rows).

Definition updateJobs (p : Job.t -> bool) (s : list Job.assign) : M unit :=
  modifyDb (with_jobs (updateWhere p s)).

(** [db.insert(jobs).values(j).returning()]; the primary key rejects a second
    row with the same [(id, version)]. *)
Definition insertJob (j : Job.t) : M Job.t :=
  fun d =>
    if existsb (Job.key_eqb j) (jobs d)
    then (d, Throw "duplicate key value violates unique constraint")
    else (with_jobs (fun t => (t ++ [j])%list) d, Return j).

(** A number sent for an [integer] column must be a 32-bit integer, or
    Postgres rejects the statement.  What the handlers compute themselves (a
    row count, a stored position, an index) fits the column in every table;
    a number taken from a request, an integer here, is checked. *)
Definition int4 (z : Z) : bool := (-2147483648 <=? z) && (z <=? 2147483647).

Definition bindInt4 (z : option Z) : M unit :=
  match z with
  | Some v => if int4 v then ret tt
              else throw "value out of range for type integer"
  | None => ret tt
  end.

(** *** Helpers of [routes/jobs.ts] *)

Definition getQueueJobs (orgId : string) (queueType : QueueType) : M (list Job.t) :=
  rows <- selectJobs (inQueue orgId (Some queueType)) ;;
  ret (orderByOrderInQueue rows).

Definition getNextQueuePosition (orgId : string) (queueType : QueueType) : M Z :=
  queueJobs <- getQueueJobs orgId queueType ;;
  ret (Z.of_nat (length queueJobs)).

Definition reprioritizeQueueAfterRemoval (env : Env) (orgId : string)
    (queueType : QueueType) (removedPosition : Z) : M unit :=
  updateJobs
    (fun r => inQueue orgId (Some queueType) r && (removedPosition <? Job.orderInQueue r))
    [Job.DecrOrderInQueue; Job.SetUpdatedAt (now env)].

Definition removeJobFromQueue (env : Env) (jobId orgId : string) (version : Z)
    (userId : string) : M unit :=
  updateJobs (keyOrgIs jobId version orgId)
    [Job.SetQueueType None; Job.SetOrderInQueue (-1);
     Job.SetUpdatedAt (now env); Job.SetUpdatedBy userId].

Definition insertActivity (env : Env) (a : Activity.t) : M unit :=
  fun d =>
    if activityInsertThrows env
    then (d, Throw "insert into gpr_activities failed")
    else (with_activities (fun t => (t ++ [a])%list) d, Return tt).

(** [createActivity]: the insert sits in a [try] whose [catch] only logs. *)
Definition createActivity (env : Env) (jobId name summary userId orgId : string)
    : M unit :=
  tryCatch
    (insertActivity env
       (Activity.mk (uuid env) orgId name jobId summary userId userId None None))
    (fun _ => ret tt).

(** *** Replies

    A reply carries the status code, the error or message text and the job
    sent back.  The lookup of the job's repository, which only fills
    [repo_url] and [repo_name] of the reply, is left out; the activity
    summaries read the repository name through [repoName]. *)

Record Reply := mkReply {
  code : Z;
  error : option string;
  replyMessage : option string;
  replyJob : option Job.t
}.

Definition sendError (c : Z) (e : string) : Reply := mkReply c (Some e) None None.
Definition sendJob (c : Z) (j : Job.t) : Reply := mkReply c None None (Some j).
Definition sendMessage (c : Z) (m : string) (j : option Job.t) : Reply :=
  mkReply c None (Some m) j.

(** Every handler body is [try { ... } catch { reply.code(500) }]. *)
Definition handler (body : M Reply) (failure : string) : Db -> Db * Reply :=
  fun d => match body d with
           | (d', Return r) => (d', r)
           | (d', Throw _) => (d', sendError 500 failure)
           end.

(** ** The routes of [routes/jobs.ts] *)

Record RequestUserInput := {
  ri_source : string;
  ri_prompt : string;
  ri_sourceMetadata : option string
}.

Definition storeUserInput (u : RequestUserInput) : UserInput.t :=
  UserInput.mk (ri_source u) (ri_prompt u) (ri_sourceMetadata u).

Record CreateJobRequest := {
  cj_user_input : option RequestUserInput;
  cj_repo : option string;
  cj_created_by : string
}.

(** [repo || null] *)
Definition truthyString (s : option string) : option string :=
  match s with
  | Some v => if String.eqb v EmptyString then None else Some v
  | None => None
  end.

Definition repoInfoOf (env : Env) (repoId : option string) (orgId : string) : string :=
  match truthyString repoId with
  | Some r => match repoName env r orgId with
              | Some n => " in repository " ++ n
              | None => EmptyString
              end
  | None => EmptyString
  end.

(** [POST /jobs] *)
Definition postJob (env : Env) (user : User) (body : CreateJobRequest)
    : Db -> Db * Reply :=
  handler
    (match cj_user_input body with
     | None => ret (sendError 400 "user_input with source and prompt is required")
     | Some user_input =>
       if String.eqb (ri_source user_input) EmptyString
          || String.eqb (ri_prompt user_input) EmptyString
       then ret (sendError 400 "user_input with source and prompt is required")
       else
         let '(title, description) :=
           generateJobTitleAndDescription env (ri_prompt user_input) in
         nextBacklogPosition <- getNextQueuePosition (userOrgId user) Backlog ;;
         let jobId := "job-" ++ uuid env in
         let newJob :=
           Job.mk jobId 1 (userOrgId user) (Some title) (Some description)
                  Queued Medium nextBacklogPosition (Some Backlog) None
                  (now env) (now env) (cj_created_by body) (cj_created_by body)
                  None None (Some (storeUserInput user_input))
                  (truthyString (cj_repo body)) NotReviewed None None None None in
         createdJob <- insertJob newJob ;;
         let repoInfo := repoInfoOf env (Job.repoId createdJob) (userOrgId user) in
         let jobName := str_or (Job.generatedName createdJob) "Untitled Job" in
         let by_ := str_or (Some (cj_created_by body)) (userId user) in
         let activitySummary :=
           "Job " ++ dq ++ jobName ++ dq ++ " was created" ++ repoInfo ++ " by " ++ by_
           ++ ". Priority: " ++ showPriority (Job.priority createdJob)
           ++ ", Status: " ++ showStatus (Job.status createdJob)
           ++ ", Queue: "
           ++ match Job.queueType createdJob with
              | Some q => showQueue q | None => "none" end
           ++ "." in
         createActivity env (Job.id createdJob) "Job Created" activitySummary
                        by_ (userOrgId user) ;;;
         ret (sendJob 201 createdJob)
     end)
    "Failed to create job".

(** [DELETE /jobs/:id] *)
Definition deleteJob (env : Env) (user : User) (id : string) : Db -> Db * Reply :=
  handler
    (currentJob <- selectLatest id (userOrgId user) ;;
     match currentJob with
     | None => ret (sendError 404 "Job not found")
     | Some currentJob =>
       if JobStatus_beq (Job.status currentJob) Archived
       then ret (sendError 400 "Job is already archived")
       else
         updateJobs (keyOrgIs id (Job.version currentJob) (userOrgId user))
           [Job.SetStatus Archived; Job.SetUpdatedAt (now env);
            Job.SetUpdatedBy (userId user)] ;;;
         updatedJobResult <-
           selectJobs (keyOrgIs id (Job.version currentJob) (userOrgId user)) ;;
         match updatedJobResult with
         | [] => throw "TypeError: deletedJob is undefined"
         | deletedJob :: _ =>
           let jobName := str_or (Job.generatedName currentJob) "Untitled Job" in
           let activitySummary :=
             "Job " ++ dq ++ jobName ++ dq ++ " was archived (deleted) by "
             ++ userId user ++ "." in
           createActivity env (Job.id deletedJob) "Job Deleted" activitySummary
                          (userId user) (userOrgId user) ;;;
           ret (sendJob 200 deletedJob)
         end
     end)
    "Failed to delete job".

(** [POST /jobs/:id/execute] *)
Definition executeJob (env : Env) (user : User) (id : string) : Db -> Db * Reply :=
  handler
    (jobResult <- selectLatest id (userOrgId user) ;;
     match jobResult with
     | None => ret (sendError 404 "Job not found")
     | Some job =>
       match JobStatus_beq (Job.status job) Queued, Job.queueType job with
       | true, Some queueType =>
         if isExecuting env id
         then ret (sendError 400 "Job is already executing")
         else
           removeJobFromQueue env id (userOrgId user) (Job.version job) (userId user) ;;;
           reprioritizeQueueAfterRemoval env (userOrgId user) queueType
                                         (Job.orderInQueue job) ;;;
           match scheduleJob env id (userOrgId user) with
           | None => throw "scheduleJob failed"
           | Some workflowId =>
             let jobName := str_or (Job.generatedName job) "Untitled Job" in
             let activitySummary :=
               "Job " ++ dq ++ jobName
               ++ dq ++ " execution was started. Job moved to in-progress state and removed from "
               ++ showQueue queueType ++ " queue." in
             createActivity env (Job.id job) "Job Execution Started" activitySummary
                            (userId user) (userOrgId user) ;;;
             ret (sendMessage 202 "Job execution started" None)
           end
       | _, _ =>
         ret (sendError 400 "Job must be in a queue (rework or backlog) to execute")
       end
     end)
    "Failed to start job execution".

(** [Array.prototype.splice(start, 0, x)]: a negative [start] counts from the
    end, and the start index is cut to the length of the array. *)
Definition splice_insert {A} (start : Z) (x : A) (l : list A) : list A :=
  let len := Z.of_nat (length l) in
  let k := Z.to_nat (if start <? 0 then Z.max (len + start) 0 else Z.min start len) in
  (firstn k l ++ x :: skipn k l)%list.

(** [array.map((j, index) => ...)]: the elements with their indices. *)
Definition indexed {A} (l : list A) : list (A * Z) :=
  combine l (map Z.of_nat (seq 0 (length l))).

(** One callback of [reorderedJobs.map]: the update it issues, if any. *)
Definition reorderOne (env : Env) (user : User) (id : string) (version : Z)
    (ji : Job.t * Z) : M unit :=
  let '(j, index) := ji in
  if (Job.id j =? id)%string && (Job.version j =? version)
  then updateJobs (keyOrgIs (Job.id j) (Job.version j) (userOrgId user))
         [Job.SetOrderInQueue index; Job.SetUpdatedAt (now env);
          Job.SetUpdatedBy (userId user)]
  else if negb (Job.orderInQueue j =? index)
  then updateJobs (keyOrgIs (Job.id j) (Job.version j) (userOrgId user))
         [Job.SetOrderInQueue index; Job.SetUpdatedAt (now env)]
  else ret tt.

Fixpoint forEach {A} (f : A -> M unit) (l : list A) : M unit :=
  match l with
  | [] => ret tt
  | x :: l' => f x ;;; forEach f l'
  end.

(** [POST /jobs/:id/reprioritize] *)
Definition reprioritizeJob (env : Env) (user : User) (id : string) (newPosition : Z)
    : Db -> Db * Reply :=
  handler
    (if newPosition <? 0
     then ret (sendError 400 "Position must be non-negative")
     else
       jobResult <- selectLatest id (userOrgId user) ;;
       match jobResult with
       | None => ret (sendError 404 "Job not found")
       | Some job =>
         if negb (JobStatus_beq (Job.status job) Queued)
         then ret (sendError 400 "Only queued jobs can be reprioritized")
         else
           let oldPosition := Job.orderInQueue job in
           if newPosition =? oldPosition
           then ret (sendMessage 200 "Job is already at the requested position" (Some job))
           else
             rows <- selectJobs (inQueue (userOrgId user) (Job.queueType job)) ;;
             let allQueueJobs := orderByOrderInQueue rows in
             let otherJobs :=
               filter (fun j => negb (Job.id j =? id)%string
                                || negb (Job.version j =? Job.version job))
                      allQueueJobs in
             let reorderedJobs := splice_insert newPosition job otherJobs in
             forEach (reorderOne env user id (Job.version job)) (indexed reorderedJobs) ;;;
             updatedJobResult <-
               selectJobs (keyOrgIs id (Job.version job) (userOrgId user)) ;;
             match updatedJobResult with
             | [] => throw "TypeError: updatedJob is undefined"
             | updatedJob :: _ =>
               let jobName := str_or (Job.generatedName updatedJob) "Untitled Job" in
               let activitySummary :=
                 "Job " ++ dq ++ jobName ++ dq ++ " order was changed from position "
                 ++ showZ oldPosition ++ " to position " ++ showZ newPosition
                 ++ " in "
                 ++ match Job.queueType job with
                    | Some q => showQueue q | None => "queue" end
                 ++ " queue by " ++ userId user
                 ++ ". All jobs in the queue were reordered to maintain strict ordering." in
               createActivity env (Job.id updatedJob) "Job Order Changed" activitySummary
                              (userId user) (userOrgId user) ;;;
               ret (sendMessage 200
                      ("Job reprioritized from position " ++ showZ oldPosition
                       ++ " to " ++ showZ newPosition)
                      (Some updatedJob))
             end
       end)
    "Failed to reprioritize job".

(** [PUT /jobs/:id] *)

Record UpdateJobRequest := {
  generated_name : option string;
  generated_description : option string;
  uj_status : option JobStatus;
  uj_priority : option JobPriority;
  order_in_queue : option Z;
  user_input : option RequestUserInput;
  repo : option string;
  updated_by : string;
  user_comments : option (list UserComment);
  user_acceptance_status : option UserAcceptanceStatus;
  queue_type : option QueueType
}.

Definition nl : string := String (ascii_of_nat 10) EmptyString.

(** Strings hold the UTF-8 bytes of the JavaScript string.  The white space
    and the line terminators of ECMAScript, which [trim], [trimStart] and
    [parseInt] strip, are tab, line feed, vertical tab, form feed, carriage
    return and space, of one byte each; U+00A0, of two bytes; and U+1680,
    U+2000 to U+200A, U+2028, U+2029, U+202F, U+205F, U+3000 and U+FEFF, of
    three. *)
Definition is_ws (c : ascii) : bool :=
  let n := nat_of_ascii c in
  ((9 <=? n)%nat && (n <=? 13)%nat) || (n =? 32)%nat.

Definition is_ws2 (a b : ascii) : bool :=
  ((N_of_ascii a =? 194) && (N_of_ascii b =? 160))%N.

Definition is_ws3 (a b c : ascii) : bool :=
  let x := N_of_ascii a in
  let y := N_of_ascii b in
  let z := N_of_ascii c in
  (((x =? 225) && (y =? 154) && (z =? 128))
   || ((x =? 226) && (y =? 128)
       && (((128 <=? z) && (z <=? 138)) || (z =? 168) || (z =? 169) || (z =? 175)))
   || ((x =? 226) && (y =? 129) && (z =? 159))
   || ((x =? 227) && (y =? 128) && (z =? 128))
   || ((x =? 239) && (y =? 187) && (z =? 191)))%N.

Fixpoint trimStart (s : string) : string :=
  match s with
  | EmptyString => EmptyString
  | String a s1 =>
      if is_ws a then trimStart s1
      else
        match s1 with
        | EmptyString => s
        | String b s2 =>
            if is_ws2 a b then trimStart s2
            else
              match s2 with
              | EmptyString => s
              | String c s3 => if is_ws3 a b c then trimStart s3 else s
              end
        end
  end.

(** The end is cut where nothing but white space follows. *)
Fixpoint trimEnd (s : string) : string :=
  match s with
  | EmptyString => EmptyString
  | String c s' =>
      match trimStart s with
      | EmptyString => EmptyString
      | String _ _ => String c (trimEnd s')
      end
  end.

(** [String.prototype.trim] *)
Definition trim (s : string) : string := trimEnd (trimStart s).

Definition commentsLength (c : option (list UserComment)) : Z :=
  match c with Some l => Z.of_nat (length l) | None => 0 end.

(** [queue_type === 'rework' && user_comments &&
     user_comments.length > (currentJob.userComments?.length || 0)] *)
Definition retryComments (body : UpdateJobRequest) (currentJob : Job.t) : bool :=
  option_beq QueueType_beq (queue_type body) (Some Rework)
  && match user_comments body with
     | Some cs => commentsLength (Job.userComments currentJob) <? Z.of_nat (length cs)
     | None => false
     end.

Definition isRetry (body : UpdateJobRequest) (currentJob : Job.t) : bool :=
  option_beq JobStatus_beq (uj_status body) (Some Queued) && retryComments body currentJob.

Definition promptChanged (body : UpdateJobRequest) (currentJob : Job.t) : bool :=
  match user_input body with
  | Some u =>
      negb (String.eqb (ri_prompt u) EmptyString)
      && negb (option_beq String.eqb (Some (ri_prompt u))
                 (option_map UserInput.prompt (Job.userInput currentJob)))
  | None => false
  end.

Definition repoChanged (body : UpdateJobRequest) (currentJob : Job.t) : bool :=
  match repo body with
  | Some r => negb (option_beq String.eqb (Some r) (Job.repoId currentJob))
  | None => false
  end.

Definition askedRework (body : UpdateJobRequest) (currentJob : Job.t) : bool :=
  option_beq UserAcceptanceStatus_beq (user_acceptance_status body)
             (Some ReviewedAndAskedRework)
  && negb (UserAcceptanceStatus_beq (Job.userAcceptanceStatus currentJob)
                                    ReviewedAndAskedRework).

Definition needsNewVersion (env : Env) (body : UpdateJobRequest) (currentJob : Job.t)
    : bool :=
  match user_input body with
  | Some u => userInputJsonDiffers env
                (ri_source u, ri_prompt u, ri_sourceMetadata u)
                (Job.userInput currentJob)
  | None => false
  end
  || repoChanged body currentJob
  || askedRework body currentJob
  || isRetry body currentJob.

Definition statusChanged (body : UpdateJobRequest) (currentJob : Job.t) : bool :=
  match uj_status body with
  | Some st => negb (JobStatus_beq st (Job.status currentJob))
  | None => false
  end.

(** The line of a retry: it quotes the trimmed prompt of the latest comment
    unless that is empty or the placeholder text. *)
Definition retryMessage (timestamp : string) (latestComment : UserComment) : string :=
  let commentText := trim (prompt latestComment) in
  if negb (String.eqb commentText EmptyString)
     && negb (String.eqb commentText "No comment provided")
  then "User retried the job at " ++ timestamp ++ " and added a comment: "
       ++ dq ++ commentText ++ dq
       ++ ". Job is now waiting to be scheduled in the rework queue."
  else "User retried the job at " ++ timestamp
       ++ ". Job is now waiting to be scheduled in the rework queue.".

Definition noComment : UserComment := Build_UserComment EmptyString 0 EmptyString.

(** The line written to [updates] when the status changes to [status]. *)
Definition updateMessage (env : Env) (body : UpdateJobRequest) (currentJob : Job.t)
    (status : JobStatus) : string :=
  let timestamp := localeString env in
  match status with
  | Failed => "Job execution failed at " ++ timestamp ++ "."
  | Completed => "Job completed successfully at " ++ timestamp ++ "."
  | InReview => "Job moved to review state at " ++ timestamp ++ "."
  | InProgress => "Job execution started at " ++ timestamp ++ "."
  | Queued =>
      if retryComments body currentJob
      then
        let latestComment := last (orElse (user_comments body) []) noComment in
        retryMessage timestamp latestComment
      else "Job queued at " ++ timestamp ++ "."
  | Archived =>
      "Job status changed from " ++ showStatus (Job.status currentJob) ++ " to "
      ++ showStatus status ++ " at " ++ timestamp ++ "."
  end.

Definition acceptanceQueue (s : UserAcceptanceStatus) : QueueType :=
  if UserAcceptanceStatus_beq s ReviewedAndAskedRework then Rework else Backlog.

(** The queue moves made before the row is written; the result is the pair of
    locals [(reworkOrderInQueue, targetQueueType)]. *)
Definition queueMoves (env : Env) (user : User) (body : UpdateJobRequest)
    (currentJob : Job.t) : M (Z * option QueueType) :=
  let org := userOrgId user in
  let queued := JobStatus_beq (Job.status currentJob) Queued in
  (if option_beq JobStatus_beq (uj_status body) (Some InReview)
      && negb (JobStatus_beq (Job.status currentJob) InReview)
   then match queued, Job.queueType currentJob with
        | true, Some q =>
            reprioritizeQueueAfterRemoval env org q (Job.orderInQueue currentJob)
        | _, _ => ret tt
        end
   else ret tt) ;;;
  let acc0 := (Job.orderInQueue currentJob, @None QueueType) in
  acc1 <- (if askedRework body currentJob
           then
             (if queued && option_beq QueueType_beq (Job.queueType currentJob)
                                      (Some Backlog)
              then reprioritizeQueueAfterRemoval env org Backlog
                     (Job.orderInQueue currentJob)
              else ret tt) ;;;
             n <- getNextQueuePosition org Rework ;;
             ret (n, Some Rework)
           else ret acc0) ;;
  acc2 <- (if option_beq UserAcceptanceStatus_beq (user_acceptance_status body)
                         (Some NotReviewed)
              && UserAcceptanceStatus_beq (Job.userAcceptanceStatus currentJob)
                                          ReviewedAndAskedRework
              && queued
           then
             (if option_beq QueueType_beq (Job.queueType currentJob) (Some Rework)
              then reprioritizeQueueAfterRemoval env org Rework
                     (Job.orderInQueue currentJob)
              else ret tt) ;;;
             n <- getNextQueuePosition org Backlog ;;
             ret (n, Some Backlog)
           else ret acc1) ;;
  if option_beq JobStatus_beq (uj_status body) (Some Queued) && negb queued
  then
    let targetQueue := acceptanceQueue (Job.userAcceptanceStatus currentJob) in
    n <- getNextQueuePosition org targetQueue ;;
    ret (n, Some targetQueue)
  else ret acc2.

(** The [changes] list of the activity written with a new version. *)
Definition versionChanges (body : UpdateJobRequest) (currentJob : Job.t)
    : list string :=
  concat
    [ (if promptChanged body currentJob then ["user input prompt"] else []);
      (if repoChanged body currentJob then ["repository"] else []);
      (if option_beq UserAcceptanceStatus_beq (user_acceptance_status body)
                     (Some ReviewedAndAskedRework)
       then ["moved to rework queue"] else []);
      match uj_status body with
      | Some st =>
          if negb (JobStatus_beq st (Job.status currentJob))
          then ["status changed from " ++ showStatus (Job.status currentJob)
                ++ " to " ++ showStatus st]
          else []
      | None => []
      end;
      match uj_priority body with
      | Some pr =>
          if negb (JobPriority_beq pr (Job.priority currentJob))
          then ["priority changed from " ++ showPriority (Job.priority currentJob)
                ++ " to " ++ showPriority pr]
          else []
      | None => []
      end ].

(** The branch of [PUT /jobs/:id] that inserts version [current + 1]. *)
Definition putNewVersion (env : Env) (user : User) (id : string)
    (body : UpdateJobRequest) (currentJob : Job.t)
    (reworkOrderInQueue : Z) (targetQueueType : option QueueType) : M Reply :=
  let org := userOrgId user in
  let newVersion := Job.version currentJob + 1 in
  let newStatus := orElse (uj_status body) (Job.status currentJob) in
  placement <-
    (if JobStatus_beq newStatus Queued
     then match queue_type body with
          | Some q =>
              n <- getNextQueuePosition org q ;;
              ret (Some q, n)
          | None =>
              let finalUserAcceptanceStatus :=
                orElse (user_acceptance_status body)
                       (Job.userAcceptanceStatus currentJob) in
              let newQueueType := acceptanceQueue finalUserAcceptanceStatus in
              match targetQueueType with
              | Some _ => ret (Some newQueueType, reworkOrderInQueue)
              | None =>
                  n <- getNextQueuePosition org newQueueType ;;
                  ret (Some newQueueType, n)
              end
          end
     else if option_beq JobStatus_beq (uj_status body) (Some InProgress)
             || option_beq JobStatus_beq (uj_status body) (Some InReview)
     then ret (@None QueueType, -1)
     else ret (Job.queueType currentJob, Job.orderInQueue currentJob)) ;;
  let '(newQueueType, newOrderInQueue) := placement in
  let newUpdates :=
    match uj_status body with
    | Some st =>
        if negb (JobStatus_beq st (Job.status currentJob))
        then match truthyString (Job.updates currentJob) with
             | Some old => Some (old ++ nl ++ updateMessage env body currentJob st)
             | None => Some (updateMessage env body currentJob st)
             end
        else truthyString (Job.updates currentJob)
    | None => truthyString (Job.updates currentJob)
    end in
  let changed := promptChanged body currentJob in
  let auto :=
    match user_input body with
    | Some u => generateJobTitleAndDescription env (ri_prompt u)
    | None => (EmptyString, EmptyString)
    end in
  let newJob :=
    Job.mk id newVersion (Job.orgId currentJob)
      (nullish (generated_name body)
               (if changed then Some (fst auto) else Job.generatedName currentJob))
      (nullish (generated_description body)
               (if changed then Some (snd auto)
                else Job.generatedDescription currentJob))
      newStatus
      (orElse (uj_priority body) (Job.priority currentJob))
      (orElse (order_in_queue body) newOrderInQueue)
      newQueueType
      None
      (now env) (now env)
      (Job.createdBy currentJob)
      (updated_by body)
      (if isRetry body currentJob then None else Job.codeGenerationLogs currentJob)
      (if isRetry body currentJob then None else Job.codeVerificationLogs currentJob)
      (match user_input body with
       | Some u => Some (storeUserInput u)
       | None => Job.userInput currentJob
       end)
      (match repo body with
       | Some r => Some r
       | None => Job.repoId currentJob
       end)
      (orElse (user_acceptance_status body) (Job.userAcceptanceStatus currentJob))
      (nullish (user_comments body) (Job.userComments currentJob))
      (Job.confidenceScore currentJob)
      (Job.prLink currentJob)
      newUpdates in
  bindInt4 (order_in_queue body) ;;;
  updatedJob <- insertJob newJob ;;
  let repoInfo := repoInfoOf env (Job.repoId updatedJob) org in
  let jobName := str_or (Job.generatedName updatedJob) "Untitled Job" in
  let changes := versionChanges body currentJob in
  let changesText :=
    match changes with
    | [] => EmptyString
    | _ => " Changes: " ++ join ", " changes ++ "."
    end in
  let by_ := str_or (Some (updated_by body)) (userId user) in
  let activitySummary :=
    "Job " ++ dq ++ jobName ++ dq ++ " (version " ++ showZ (Job.version updatedJob)
    ++ ") was updated" ++ repoInfo ++ " by " ++ by_ ++ "." ++ changesText
    ++ " Job version updated from " ++ showZ (Job.version currentJob) ++ " to "
    ++ showZ (Job.version updatedJob) ++ "." in
  createActivity env (Job.id updatedJob) "Job Updated" activitySummary by_ org ;;;
  ret (sendJob 200 updatedJob).

(** The [updateData] object of the in-place branch, property writes in the
    order of the source. *)
Definition inPlaceUpdateData (env : Env) (user : User) (body : UpdateJobRequest)
    (currentJob : Job.t) (reworkOrderInQueue : Z) (targetQueueType : option QueueType)
    : M (list Job.assign) :=
  let org := userOrgId user in
  let names :=
    if promptChanged body currentJob
    then
      let auto :=
        match user_input body with
        | Some u => generateJobTitleAndDescription env (ri_prompt u)
        | None => (EmptyString, EmptyString)
        end in
      [Job.SetGeneratedName (nullish (generated_name body) (Some (fst auto)));
       Job.SetGeneratedDescription
         (nullish (generated_description body) (Some (snd auto)))]
    else
      concat
        [ match generated_name body with
          | Some v => [Job.SetGeneratedName (Some v)] | None => [] end;
          match generated_description body with
          | Some v => [Job.SetGeneratedDescription (Some v)] | None => [] end ] in
  statusPart <-
    match uj_status body with
    | None => ret []
    | Some st =>
      queuePart <-
        match st with
        | InProgress | InReview =>
            ret [Job.SetQueueType None; Job.SetOrderInQueue (-1)]
        | Queued =>
            match queue_type body, targetQueueType with
            | Some q, _ =>
                nextPosition <- getNextQueuePosition org q ;;
                ret [Job.SetQueueType (Some q); Job.SetOrderInQueue nextPosition]
            | None, Some t =>
                ret [Job.SetQueueType (Some t); Job.SetOrderInQueue reworkOrderInQueue]
            | None, None =>
                let finalUserAcceptanceStatus :=
                  orElse (user_acceptance_status body)
                         (Job.userAcceptanceStatus currentJob) in
                let queueType := acceptanceQueue finalUserAcceptanceStatus in
                nextPosition <- getNextQueuePosition org queueType ;;
                ret [Job.SetQueueType (Some queueType);
                     Job.SetOrderInQueue nextPosition]
            end
        | _ => ret []
        end ;;
      let updatesPart :=
        if negb (JobStatus_beq st (Job.status currentJob))
        then
          let existingUpdates := str_or (Job.updates currentJob) EmptyString in
          let msg := updateMessage env body currentJob st in
          [Job.SetUpdates
             (Some (if String.eqb msg EmptyString then existingUpdates
                    else if String.eqb existingUpdates EmptyString then msg
                    else msg ++ nl ++ existingUpdates))]
        else [] in
      ret (concat [[Job.SetStatus st]; queuePart; updatesPart])
    end ;;
  let acceptancePart :=
    match user_acceptance_status body with
    | Some s =>
        Job.SetUserAcceptanceStatus s ::
        match targetQueueType with
        | Some t =>
            if JobStatus_beq (Job.status currentJob) Queued
            then [Job.SetQueueType (Some t); Job.SetOrderInQueue reworkOrderInQueue]
            else []
        | None => []
        end
    | None => []
    end in
  ret (concat
         [ [Job.SetUpdatedBy (updated_by body); Job.SetUpdatedAt (now env)];
           names;
           statusPart;
           match uj_priority body with Some v => [Job.SetPriority v] | None => [] end;
           match order_in_queue body with
           | Some v => [Job.SetOrderInQueue v] | None => [] end;
           match user_comments body with
           | Some v => [Job.SetUserComments (Some v)] | None => [] end;
           acceptancePart ]).

(** The [changes] list of the activity written with an in-place update. *)
Definition inPlaceChanges (env : Env) (body : UpdateJobRequest) (currentJob : Job.t)
    : list string :=
  concat
    [ match generated_name body with
      | Some v => if negb (option_beq String.eqb (Some v) (Job.generatedName currentJob))
                  then ["name"] else []
      | None => []
      end;
      match generated_description body with
      | Some v =>
          if negb (option_beq String.eqb (Some v) (Job.generatedDescription currentJob))
          then ["description"] else []
      | None => []
      end;
      match uj_status body with
      | Some st =>
          if negb (JobStatus_beq st (Job.status currentJob))
          then concat
                 [ ["status changed from " ++ showStatus (Job.status currentJob)
                    ++ " to " ++ showStatus st];
                   match st with
                   | InProgress => ["moved to in-progress"]
                   | InReview => ["moved to in-review"]
                   | Completed => ["marked as completed"]
                   | _ => []
                   end ]
          else []
      | None => []
      end;
      match uj_priority body with
      | Some pr =>
          if negb (JobPriority_beq pr (Job.priority currentJob))
          then ["priority changed from " ++ showPriority (Job.priority currentJob)
                ++ " to " ++ showPriority pr]
          else []
      | None => []
      end;
      match order_in_queue body with
      | Some o =>
          if negb (o =? Job.orderInQueue currentJob)
          then ["order changed from " ++ showZ (Job.orderInQueue currentJob)
                ++ " to " ++ showZ o]
          else []
      | None => []
      end;
      match user_acceptance_status body with
      | Some a =>
          if negb (UserAcceptanceStatus_beq a (Job.userAcceptanceStatus currentJob))
          then ["acceptance status changed from "
                ++ showAcceptance (Job.userAcceptanceStatus currentJob)
                ++ " to " ++ showAcceptance a]
          else []
      | None => []
      end;
      match user_comments body with
      | Some cs => if userCommentsJsonDiffers env cs (Job.userComments currentJob)
                   then ["user comments"] else []
      | None => []
      end;
      match repo body with
      | Some r =>
          if negb (option_beq String.eqb (Some r) (Job.repoId currentJob))
          then ["repository changed from " ++ str_or (Job.repoId currentJob) "none"
                ++ " to " ++ str_or (Some r) "none"]
          else []
      | None => []
      end ].

(** The value of [updateData.orderInQueue] when the statement is sent: the
    last write of the property, if any. *)
Definition lastOrder (updateData : list Job.assign) : option Z :=
  fold_left (fun acc a => match a with Job.SetOrderInQueue v => Some v | _ => acc end)
            updateData None.

(** The [order_in_queue] of the body, when it is what the statement carries. *)
Definition bodyOrderSent (body : UpdateJobRequest) (updateData : list Job.assign)
    : option Z :=
  match order_in_queue body with
  | Some v => if option_beq Z.eqb (lastOrder updateData) (Some v) then Some v else None
  | None => None
  end.

(** The branch of [PUT /jobs/:id] that updates the current version in place. *)
Definition putInPlace (env : Env) (user : User) (id : string)
    (body : UpdateJobRequest) (currentJob : Job.t)
    (reworkOrderInQueue : Z) (targetQueueType : option QueueType) : M Reply :=
  let org := userOrgId user in
  updateData <- inPlaceUpdateData env user body currentJob
                  reworkOrderInQueue targetQueueType ;;
  bindInt4 (bodyOrderSent body updateData) ;;;
  updateJobs (keyOrgIs id (Job.version currentJob) org) updateData ;;;
  updatedJobResult <- selectJobs (keyOrgIs id (Job.version currentJob) org) ;;
  match updatedJobResult with
  | [] => throw "TypeError: updatedJob is undefined"
  | updatedJob :: _ =>
    let repoInfo := repoInfoOf env (Job.repoId updatedJob) org in
    let jobName := str_or (Job.generatedName updatedJob) "Untitled Job" in
    let changes := inPlaceChanges env body currentJob in
    let changesText :=
      match changes with
      | [] => " No specific changes detected."
      | _ => " Changes: " ++ join ", " changes ++ "."
      end in
    let by_ := str_or (Some (updated_by body)) (userId user) in
    let activitySummary :=
      "Job " ++ dq ++ jobName ++ dq ++ " was updated" ++ repoInfo ++ " by " ++ by_
      ++ "." ++ changesText in
    createActivity env (Job.id updatedJob) "Job Updated" activitySummary by_ org ;;;
    ret (sendJob 200 updatedJob)
  end.

Definition putJob (env : Env) (user : User) (id : string) (body : UpdateJobRequest)
    : Db -> Db * Reply :=
  handler
    (currentJob <- selectLatest id (userOrgId user) ;;
     match currentJob with
     | None => ret (sendError 404 "Job not found")
     | Some currentJob =>
       if option_beq JobStatus_beq (uj_status body) (Some InProgress)
          && JobStatus_beq (Job.status currentJob) Queued
       then ret (sendError 400
                   "Cannot move job from queue to in-progress. Queue jobs are processed automatically by the system.")
       else
         moved <- queueMoves env user body currentJob ;;
         let '(reworkOrderInQueue, targetQueueType) := moved in
         if needsNewVersion env body currentJob
         then putNewVersion env user id body currentJob
                            reworkOrderInQueue targetQueueType
         else putInPlace env user id body currentJob
                         reworkOrderInQueue targetQueueType
     end)
    "Failed to update job".

(** ** [preprocessActivity] *)

Module PreprocessResult.
Record t := mk {
  jobId : option string;
  queueType : option QueueType;
  orgId : option string
}.
End PreprocessResult.

Definition updateAgents (p : Agent.t -> bool) (f : Agent.t -> Agent.t) : M unit :=
  modifyDb (with_agents (map (fun a => if p a then f a else a))).

Definition agentIdIs (agentId : string) (a : Agent.t) : bool :=
  (Agent.id a =? agentId)%string.

Definition findAgent (agentId : string) : M (option Agent.t) :=
  fun d => (d, Return (find (agentIdIs agentId) (agents d))).

(** [.set({ lastActive: now, consecutiveFailures: 0, updatedAt: now })] *)
Definition touchAgent (env : Env) (a : Agent.t) : Agent.t :=
  Agent.mk (Agent.id a) (Agent.name a) (Agent.orgId a) (Agent.status a)
           (Agent.ip a) (Agent.host a) (Agent.port a)
           (Some (now env)) 0 (Agent.registeredAt a)
           (Agent.lastStreamConnectedAt a) (now env).

Definition fiveMinutes : Z := 5 * 60 * 1000.

Definition isOrphan (env : Env) (orgId agentId : string) (r : Job.t) : bool :=
  (Job.orgId r =? orgId)%string
  && JobStatus_beq (Job.status r) InProgress
  && (option_beq String.eqb (Job.agentId r) (Some agentId)
      || (Job.updatedAt r <? now env - fiveMinutes)).

Definition jobIdIs (id : string) (r : Job.t) : bool := (Job.id r =? id)%string.

(** Step 1: every orphan found is written back as queued, the row chosen by
    [jobs.id] alone. *)
Definition resetOrphans (env : Env) (orgId agentId : string) : M unit :=
  orphanJobs <- selectJobs (isOrphan env orgId agentId) ;;
  forEach
    (fun job => updateJobs (jobIdIs (Job.id job))
                  [Job.SetStatus Queued; Job.SetAgentId None;
                   Job.SetUpdatedAt (now env)])
    orphanJobs.

Definition ownedInProgress (agentId : string) (r : Job.t) : bool :=
  option_beq String.eqb (Job.agentId r) (Some agentId)
  && JobStatus_beq (Job.status r) InProgress.

Definition queueLookupError : string :=
  "TypeError: Cannot read properties of undefined (reading 'findFirst')".

(** [db.query.queueStatus.findFirst(...)].  [db/schema.ts] exports the pause
    table under the name [queueStates], so [db.query] has no [queueStatus]:
    the call reads [findFirst] of [undefined] and throws before any statement
    is sent. *)
Definition findFirstQueueStatus (orgId : string) (queueType : QueueType)
    : M (option QueueStatus.t) :=
  throw queueLookupError.

(** Step 3: the loop over [['rework', 'backlog']]. *)
Fixpoint claimFrom (env : Env) (agentId orgId : string) (queueTypes : list QueueType)
    : M PreprocessResult.t :=
  match queueTypes with
  | [] => ret (PreprocessResult.mk None None (Some orgId))
  | queueType :: rest =>
    queueState <- findFirstQueueStatus orgId queueType ;;
    if match queueState with Some q => QueueStatus.isPaused q | None => false end
    then claimFrom env agentId orgId rest
    else
      rows <- selectJobs (inQueue orgId (Some queueType)) ;;
      match orderByOrderInQueue rows with
      | nextJob :: _ =>
        updateJobs (jobIdIs (Job.id nextJob))
          [Job.SetStatus InProgress; Job.SetAgentId (Some agentId);
           Job.SetUpdatedAt (now env)] ;;;
        ret (PreprocessResult.mk (Some (Job.id nextJob)) (Some queueType) (Some orgId))
      | [] => claimFrom env agentId orgId rest
      end
  end.

Definition preprocessActivity (env : Env) (agentId : string) : M PreprocessResult.t :=
  agent <- findAgent agentId ;;
  match agent with
  | None => ret (PreprocessResult.mk None None None)
  | Some agent =>
    if negb (AgentStatus_beq (Agent.status agent) Active)
    then ret (PreprocessResult.mk None None None)
    else
      let orgId := Agent.orgId agent in
      resetOrphans env orgId agentId ;;;
      owned <- selectJobs (ownedInProgress agentId) ;;
      match owned with
      | inProgressJob :: _ =>
        (if streamOpen env agentId
         then modifyDb (with_streamWrites
                         (fun w => (w ++ [(agentId, "HEALTH_CHECK_PING")])%list))
         else ret tt) ;;;
        updateAgents (agentIdIs agentId) (touchAgent env) ;;;
        ret (PreprocessResult.mk None None (Some orgId))
      | [] => claimFrom env agentId orgId [Rework; Backlog]
      end
  end.

(** ** [pingAgentViaStream] *)

Module PingResult.
Record t := mk {
  success : bool;
  error : option string
}.
End PingResult.

Definition unableToConnect : string :=
  "Unable to establish the connection. Please check if the agent is running in the host machine in the port configured.".

(** [.set({ status: 'active', lastActive: now, consecutiveFailures: 0,
           updatedAt: now })] *)
Definition markActive (env : Env) (a : Agent.t) : Agent.t :=
  Agent.mk (Agent.id a) (Agent.name a) (Agent.orgId a) Active
           (Agent.ip a) (Agent.host a) (Agent.port a)
           (Some (now env)) 0 (Agent.registeredAt a)
           (Agent.lastStreamConnectedAt a) (now env).

(** [.set({ status: 'offline', consecutiveFailures: n, updatedAt: now })] *)
Definition markOffline (env : Env) (n : Z) (a : Agent.t) : Agent.t :=
  Agent.mk (Agent.id a) (Agent.name a) (Agent.orgId a) Offline
           (Agent.ip a) (Agent.host a) (Agent.port a)
           (Agent.lastActive a) n (Agent.registeredAt a)
           (Agent.lastStreamConnectedAt a) (now env).

(** [n || 0] *)
Definition orZero (n : Z) : Z := if n =? 0 then 0 else n.

Definition pingAgentViaStream (env : Env) (agentId : string) : M PingResult.t :=
  agent <- findAgent agentId ;;
  match agent with
  | None => ret (PingResult.mk false (Some "Agent not found"))
  | Some agentRecord =>
    tryCatch
      (match healthCheck env with
       | PingThrows => throw unableToConnect
       | PingSuccess =>
           updateAgents (agentIdIs agentId) (markActive env) ;;;
           ret (PingResult.mk true None)
       | PingUnsuccessful =>
           updateAgents (agentIdIs agentId)
             (markOffline env (orZero (Agent.consecutiveFailures agentRecord) + 1)) ;;;
           ret (PingResult.mk false (Some unableToConnect))
       end)
      (fun _ =>
         updateAgents (agentIdIs agentId)
           (markOffline env (orZero (Agent.consecutiveFailures agentRecord) + 1)) ;;;
         ret (PingResult.mk false (Some unableToConnect)))
  end.

(** ** [registerAgent] *)

Module RegisterAgentParams.
Record t := mk {
  apiKey : string;
  hostname : string;
  ipAddress : string;
  port : Z
}.
End RegisterAgentParams.

Module RegisterAgentResult.
Record t := mk {
  agentId : string;
  orgId : string;
  success : bool;
  message : string
}.
End RegisterAgentResult.





(** ** Queue and dispatch properties of a table *)

(** The latest version of a job: no row of the same [id] has a higher
    [version]. *)
Definition isLatest (tbl : list Job.t) (r : Job.t) : bool :=
  forallb (fun r' => negb (Job.id r' =? Job.id r)%string
                     || (Job.version r' <=? Job.version r)) tbl.

Definition latestRows (tbl : list Job.t) : list Job.t := filter (isLatest tbl) tbl.

(** The positions held in queue [(org, q)] by latest-version queued rows. *)
Definition queuePositions (org : string) (q : QueueType) (tbl : list Job.t) : list Z :=
  map Job.orderInQueue (filter (inQueue org (Some q)) (latestRows tbl)).

(** A multiset of positions is exactly [{0, ..., n-1}]. *)
Definition contiguous (positions : list Z) : Prop :=
  Permutation positions (map Z.of_nat (seq 0 (length positions))).

Definition positionsContiguous (d : Db) : Prop :=
  forall org q, contiguous (queuePositions org q (jobs d)).

(** The latest-version rows in progress on an agent. *)
Definition inProgressOn (agentId : string) (tbl : list Job.t) : list Job.t :=
  filter (ownedInProgress agentId) (latestRows tbl).

Definition singleDispatch (tbl : list Job.t) : Prop :=
  forall agentId, (length (inProgressOn agentId tbl) <= 1)%nat.

(** The public operations, each with the world it ran in. *)
Inductive Op :=
| OpCreate (env : Env) (user : User) (body : CreateJobRequest)
| OpPut (env : Env) (user : User) (id : string) (body : UpdateJobRequest)
| OpDelete (env : Env) (user : User) (id : string)
| OpExecute (env : Env) (user : User) (id : string)
| OpReprioritize (env : Env) (user : User) (id : string) (position : Z)
| OpPreprocess (env : Env) (agentId : string).

Definition step (o : Op) (d : Db) : Db :=
  match o with
  | OpCreate env user body => fst (postJob env user body d)
  | OpPut env user id body => fst (putJob env user id body d)
  | OpDelete env user id => fst (deleteJob env user id d)
  | OpExecute env user id => fst (executeJob env user id d)
  | OpReprioritize env user id position => fst (reprioritizeJob env user id position d)
  | OpPreprocess env agentId => fst (preprocessActivity env agentId d)
  end.

Definition run (ops : list Op) (d : Db) : Db := fold_left (fun acc o => step o acc) ops d.

(** The states the public operations reach from [d0]. *)
Inductive reachable (d0 : Db) : Db -> Prop :=
| reach_init : reachable d0 d0
| reach_step : forall d o, reachable d0 d -> reachable d0 (step o d).

Definition withActivityInsertThrows (b : bool) (env : Env) : Env :=
  mkEnv (now env) (localeString env) (uuid env) (generateJobTitleAndDescription env)
        b (startAgentSchedulesThrows env) (isExecuting env) (scheduleJob env)
        (healthCheck env) (repoName env) (sha256hex env)
        (userInputJsonDiffers env) (userCommentsJsonDiffers env) (streamOpen env).


(** A concrete world for the examples: time [t], uuid [u], every service
    answering, nothing throwing. *)
Definition plainEnv (t : Z) (u : string) : Env :=
  mkEnv t "1/1/2026, 12:00:00 PM" u (fun p => (p, p)) false false
        (fun _ => false) (fun id _ => Some ("job-execution-" ++ id))
        PingSuccess (fun _ _ => None) (fun k => "sha256:" ++ k)
        (fun r s =>
           match s with
           | Some v =>
               let '(a, b, c) := r in
               negb ((a =? UserInput.source v)%string
                     && (b =? UserInput.prompt v)%string
                     && option_beq String.eqb c (UserInput.sourceMetadata v))
           | None => true
           end)
        (fun _ _ => true)
        (fun _ => true).

Definition emptyDb : Db := mkDb [] [] [] [] [] [] [].

(** Tables equal but for the audit trail. *)
Definition sameButActivities (d1 d2 : Db) : Prop :=
  jobs d1 = jobs d2 /\ agents d1 = agents d2 /\ queueStatus d1 = queueStatus d2
  /\ apiKeys d1 = apiKeys d2 /\ schedules d1 = schedules d2
  /\ streamWrites d1 = streamWrites d2.

(** Two computations that, started on databases equal but for the audit
    trail, return or throw alike and end on such databases again. *)
Definition alike {A} (m1 m2 : M A) : Prop :=
  forall d1 d2, sameButActivities d1 d2 ->
    snd (m1 d1) = snd (m2 d2) /\ sameButActivities (fst (m1 d1)) (fst (m2 d2)).

(** ** Example data *)

Definition alice : User := mkUser "alice" "org1".

Definition agentA : Agent.t :=
  Agent.mk "agent-A" "laptop" "org1" Active (Some "10.0.0.7") (Some "laptop") 50051
           None 0 None None 0.

Definition createBody (p : string) : CreateJobRequest :=
  Build_CreateJobRequest (Some (Build_RequestUserInput "mobile" p None)) None "alice".

Definition statusBody (st : JobStatus) : UpdateJobRequest :=
  Build_UpdateJobRequest None None (Some st) None None None None "alice" None None None.

Definition threeJobs : list Op :=
  [ OpCreate (plainEnv 1000 "1") alice (createBody "first");
    OpCreate (plainEnv 2000 "2") alice (createBody "second");
    OpCreate (plainEnv 3000 "3") alice (createBody "third") ].

Definition oneAgentDb : Db := mkDb [] [agentA] [] [] [] [] [].

(** Three jobs are queued, then the first is archived. *)
Definition archiveTrace : list Op :=
  (threeJobs ++ [OpDelete (plainEnv 4000 "4") alice "job-1"])%list.

Definition exampleJob (id : string) (version : Z) (st : JobStatus) (order : Z)
    (q : option QueueType) (agent : option string) (updated : Z) : Job.t :=
  Job.mk id version "org1" (Some id) None st Medium order q agent 0 updated
         "alice" "alice" None None
         (Some (UserInput.mk "mobile" id None)) None NotReviewed None None None None.

Definition promptBody (p : string) (st : option JobStatus) : UpdateJobRequest :=
  Build_UpdateJobRequest None None st None None
    (Some (Build_RequestUserInput "mobile" p None)) None "alice" None None None.

(** A job is created and marked completed; a new prompt then writes version 2,
    queued again. *)
Definition versionsTrace : list Op :=
  [ OpCreate (plainEnv 1000 "1") alice (createBody "first");
    OpPut (plainEnv 2000 "2") alice "job-1" (statusBody Completed);
    OpPut (plainEnv 3000 "3") alice "job-1" (promptBody "second try" (Some Queued)) ].

(** Version 2 is then sent to review and put in progress by [PUT]. *)
Definition staleTrace : list Op :=
  (versionsTrace ++
   [ OpPut (plainEnv 4000 "4") alice "job-1" (statusBody InReview);
     OpPut (plainEnv 5000 "5") alice "job-1" (statusBody InProgress) ])%list.

Definition withHealthCheck (o : PingOutcome) (env : Env) : Env :=
  mkEnv (now env) (localeString env) (uuid env) (generateJobTitleAndDescription env)
        (activityInsertThrows env) (startAgentSchedulesThrows env) (isExecuting env)
        (scheduleJob env) o (repoName env) (sha256hex env)
        (userInputJsonDiffers env) (userCommentsJsonDiffers env) (streamOpen env).

Definition jobView (j : Job.t)
    : string * Z * JobStatus * Z * option QueueType * option string :=
  (Job.id j, Job.version j, Job.status j, Job.orderInQueue j, Job.queueType j,
   Job.agentId j).

Definition versionsDb : Db := run versionsTrace oneAgentDb.
Definition staleDb : Db := run staleTrace oneAgentDb.

Definition agentView (a : Agent.t) : AgentStatus * Z :=
  (Agent.status a, Agent.consecutiveFailures a).

(** ** Registration: what the claims speak of *)



Definition org1Key : ApiKey.t := ApiKey.mk "sha256:secret" "org1".

Definition registryDb : Db :=
  mkDb [] [agentA] [] [] [org1Key] [] [].



(** ** Retry: what the claims speak of *)




(** The number of queued rows of queue [(org, q)]: the tail position. *)
Definition queueLength (org : string) (q : QueueType) (tbl : list Job.t) : Z :=
  Z.of_nat (length (selectWhere (inQueue org (Some q)) tbl)).







(** A failed job asked for rework, and the same job already waiting in the
    rework queue. *)
Definition failedJob : Job.t :=
  Job.mk "job-5" 1 "org1" (Some "five") None Failed Medium (-1) None None 0 500
         "alice" "alice" (Some [Build_LogEntry "info" "t" "generated"])
         (Some [Build_LogEntry "error" "t" "tests failed"])
         (Some (UserInput.mk "mobile" "five" None)) None ReviewedAndAskedRework
         None None None (Some "Job execution failed at 1/1/2026, 11:00:00 AM.").




(** ** Preprocess: what the claims speak of *)

(** The write of the orphan reset. *)
Definition orphanSet (env : Env) : list Job.assign :=
  [Job.SetStatus Queued; Job.SetAgentId None; Job.SetUpdatedAt (now env)].

(** A row after the orphan reset: rewritten when its [id] is that of an orphan. *)
Definition resetRow (env : Env) (orphanJobs : list Job.t) (r : Job.t) : Job.t :=
  if existsb (fun o => (Job.id o =? Job.id r)%string) orphanJobs
  then Job.set (orphanSet env) r
  else r.

(** The table Preprocess works on after its orphan reset. *)
Definition afterReset (env : Env) (orgId agentId : string) (tbl : list Job.t)
    : list Job.t :=
  map (resetRow env (selectWhere (isOrphan env orgId agentId) tbl)) tbl.

(** A job of another organisation that carries the agent's id. *)
Definition foreignJob : Job.t :=
  Job.mk "job-9" 1 "org2" (Some "nine") None InProgress Medium 0 (Some Backlog)
         (Some "agent-A") 0 4000 "bob" "bob" None None
         (Some (UserInput.mk "mobile" "nine" None)) None NotReviewed None None None None.

Definition heartbeatDb : Db :=
  mkDb [ foreignJob; exampleJob "job-1" 1 Queued 0 (Some Backlog) None 100 ]
       [agentA] [] [] [] [] [].

(** ** Reprioritize: what the claims speak of *)

(** What one callback of [reorderedJobs.map] does to a row of the table. *)
Definition reorderRow (env : Env) (user : User) (id : string) (version : Z)
    (ji : Job.t * Z) (r : Job.t) : Job.t :=
  let '(j, index) := ji in
  if (Job.id j =? id)%string && (Job.version j =? version)
  then if keyOrgIs (Job.id j) (Job.version j) (userOrgId user) r
       then Job.set [Job.SetOrderInQueue index; Job.SetUpdatedAt (now env);
                     Job.SetUpdatedBy (userId user)] r
       else r
  else if negb (Job.orderInQueue j =? index)
  then if keyOrgIs (Job.id j) (Job.version j) (userOrgId user) r
       then Job.set [Job.SetOrderInQueue index; Job.SetUpdatedAt (now env)] r
       else r
  else r.

(** What all the callbacks, in order, do to a row. *)
Definition reorderAll (env : Env) (user : User) (id : string) (version : Z)
    (l : list (Job.t * Z)) (r : Job.t) : Job.t :=
  fold_left (fun acc ji => reorderRow env user id version ji acc) l r.

(** The list [reorderedJobs] the handler builds for [job] and [newPosition]. *)
Definition reorderedJobs (user : User) (job : Job.t) (newPosition : Z)
    (tbl : list Job.t) : list Job.t :=
  splice_insert newPosition job
    (filter (fun j => negb (Job.id j =? Job.id job)%string
                      || negb (Job.version j =? Job.version job))
            (orderByOrderInQueue
               (selectWhere (inQueue (userOrgId user) (Job.queueType job)) tbl))).

Definition threeQueued : Db := run threeJobs emptyDb.

(** Three jobs are queued; a new prompt sent with [status = in-review] then
    writes version 2 of the third, whose version 1 stays as it was. *)
Definition staleRowTrace : list Op :=
  (threeJobs ++
   [ OpPut (plainEnv 4000 "4") alice "job-3"
           (promptBody "third, again" (Some InReview)) ])%list.

Definition staleRowDb : Db := run staleRowTrace emptyDb.

(** The row [POST /jobs] writes in the examples: uuid [u], prompt [p],
    position [order], at time [t]. *)
Definition exampleCreated (u p : string) (order : Z) (t : Z) : Job.t :=
  Job.mk ("job-" ++ u) 1 "org1" (Some p) (Some p) Queued Medium order (Some Backlog)
         None t t "alice" "alice" None None (Some (UserInput.mk "mobile" p None))
         None NotReviewed None None None None.

(** [clamp(p, lo, hi)] *)
Definition clamp (p lo hi : Z) : Z := Z.max lo (Z.min p hi).

(** ** Rows of a queue *)

(** The positions held in queue [(org, q)] by the queued rows of the table:
    the rows [getQueueJobs] reads. *)
Definition rowPositions (org : string) (q : QueueType) (tbl : list Job.t) : list Z :=
  map Job.orderInQueue (selectWhere (inQueue org (Some q)) tbl).

(** The positions above [p] move down by one. *)
Definition closeGap (p x : Z) : Z := if p <? x then x - 1 else x.

(** ** What the job routes leave alone *)

(** A [.set] entry that writes [agent_id]. *)
Definition writesAgent (a : Job.assign) : bool :=
  match a with Job.SetAgentId _ => true | _ => false end.

(** [r'] is the row [r] after writes that leave alone its key, organisation,
    agent, creation stamp, prompt, repository, logs, score and pull-request
    link, and that leave the whole row alone when it belongs to another
    organisation than [org]. *)
Definition sameVersion (org : string) (r r' : Job.t) : Prop :=
  Job.key r' = Job.key r
  /\ Job.orgId r' = Job.orgId r
  /\ Job.agentId r' = Job.agentId r
  /\ Job.createdAt r' = Job.createdAt r
  /\ Job.createdBy r' = Job.createdBy r
  /\ Job.userInput r' = Job.userInput r
  /\ Job.repoId r' = Job.repoId r
  /\ Job.codeGenerationLogs r' = Job.codeGenerationLogs r
  /\ Job.codeVerificationLogs r' = Job.codeVerificationLogs r
  /\ Job.confidenceScore r' = Job.confidenceScore r
  /\ Job.prLink r' = Job.prLink r
  /\ (Job.orgId r <> org -> r' = r).

(** A database after calls that keep every row of [gpr_jobs] in place and
    within [sameVersion], add only rows of [org] that carry no agent, add
    audit rows, and write nothing else. *)
Definition routeFrame (org : string) (d d' : Db) : Prop :=
  (exists old new,
      jobs d' = (old ++ new)%list
      /\ Forall2 (sameVersion org) (jobs d) old
      /\ Forall (fun j => Job.orgId j = org /\ Job.agentId j = None) new)
  /\ (exists written, activities d' = (activities d ++ written)%list)
  /\ agents d' = agents d
  /\ queueStatus d' = queueStatus d
  /\ apiKeys d' = apiKeys d
  /\ schedules d' = schedules d
  /\ streamWrites d' = streamWrites d.

(** A computation that stays within [routeFrame], whatever it returns. *)
Definition keeps (org : string) {A} (m : M A) : Prop :=
  forall d, routeFrame org d (fst (m d)).

(** A computation that writes nothing and whose result satisfies [Q]. *)
Definition reads {A} (m : M A) (Q : A -> Prop) : Prop :=
  forall d, fst (m d) = d /\ (forall a, snd (m d) = Return a -> Q a).

(** The caller of a route; Preprocess has none. *)
Definition opUser (o : Op) : option User :=
  match o with
  | OpCreate _ user _ => Some user
  | OpPut _ user _ _ => Some user
  | OpDelete _ user _ => Some user
  | OpExecute _ user _ => Some user
  | OpReprioritize _ user _ _ => Some user
  | OpPreprocess _ _ => None
  end.

(** A route whose client-error replies come with no write. *)
Definition rejectsCleanly (h : Db -> Db * Reply) : Prop :=
  forall d, 400 <= code (snd (h d)) < 500 -> fst (h d) = d.

(** A computation whose client-error replies come with no write, and one that
    sends no client-error reply at all. *)
Definition clean (m : M Reply) : Prop :=
  forall d r, snd (m d) = Return r -> 400 <= code r < 500 -> fst (m d) = d.

Definition no4xx (m : M Reply) : Prop :=
  forall d r, snd (m d) = Return r -> ~ (400 <= code r < 500).

(** ** [GET /jobs/:id] *)

(** The value of a character as a digit of [radix], if it is one. *)
Definition digitOf (radix : Z) (c : ascii) : option Z :=
  let n := Z.of_nat (nat_of_ascii c) in
  let v := if (48 <=? n) && (n <=? 57) then Some (n - 48)
           else if (97 <=? n) && (n <=? 122) then Some (n - 87)
           else if (65 <=? n) && (n <=? 90) then Some (n - 55)
           else None in
  match v with
  | Some k => if k <? radix then Some k else None
  | None => None
  end.

(** The number written by the longest prefix of digits; [None] when the
    string starts with no digit. *)
Fixpoint digitsPrefix (radix : Z) (s : string) (acc : option Z) : option Z :=
  match s with
  | String c s' =>
      match digitOf radix c with
      | Some k => digitsPrefix radix s' (Some (orElse acc 0 * radix + k))
      | None => acc
      end
  | EmptyString => acc
  end.

(** [parseInt(s)] without a radix: leading white space, a sign, [0x] or [0X]
    for base 16, then the digits; [None] stands for [NaN]. *)
Definition parseInt (s : string) : option Z :=
  let s1 := trimStart s in
  let '(negative, s2) :=
    match s1 with
    | String c r =>
        if Ascii.eqb c "-" then (true, r)
        else if Ascii.eqb c "+" then (false, r)
        else (false, s1)
    | EmptyString => (false, s1)
    end in
  let '(radix, s3) :=
    match s2 with
    | String c (String x r) =>
        if Ascii.eqb c "0" && (Ascii.eqb x "x" || Ascii.eqb x "X")
        then (16, r) else (10, s2)
    | _ => (10, s2)
    end in
  option_map (fun v => if negative : bool then - v else v) (digitsPrefix radix s3 None).

(** The handler: with [?version=v] the row of that version, otherwise the
    latest version; both within the caller's organisation.  A [version] that
    [parseInt] reads as [NaN], or as a number that is no 32-bit integer, is
    refused by the integer column, so the statement throws. *)
Definition getJob (user : User) (id : string) (version : option string)
    : Db -> Db * Reply :=
  handler
    (job <-
       match truthyString version with
       | Some v =>
           match parseInt v with
           | Some n =>
               bindInt4 (Some n) ;;;
               result <- selectJobs (keyOrgIs id n (userOrgId user)) ;;
               ret (hd_error result)
           | None => throw "invalid input syntax for type integer"
           end
       | None => selectLatest id (userOrgId user)
       end ;;
     match job with
     | None => ret (sendError 404 "Job not found")
     | Some job => ret (sendJob 200 job)
     end)
    "Failed to fetch job".

(** ** [queueMonitorWorkflow] *)

Module MonitorResult.
Record t := mk {
  processed : bool;
  jobId : option string;
  queueType : option QueueType
}.
End MonitorResult.

(** The activity is called through [proxyActivities] with
    [maximumAttempts: 3]: an attempt that throws is followed by the next, each
    in the world of its time, and the failure of the third fails the
    workflow. *)
Definition preprocessWithRetry (env1 env2 env3 : Env) (agentId : string)
    : M PreprocessResult.t :=
  tryCatch (preprocessActivity env1 agentId)
    (fun _ => tryCatch (preprocessActivity env2 agentId)
                (fun _ => preprocessActivity env3 agentId)).

(** The child workflow [jobExecutionWorkflow] is given as [executeChild], a
    computation on the database that returns or throws, started with
    [(jobId, orgId, queueType, agentId)]. *)
Definition queueMonitorWorkflow (env1 env2 env3 : Env)
    (executeChild : string -> string -> QueueType -> string -> M unit)
    (agentId : string) : M MonitorResult.t :=
  result <- preprocessWithRetry env1 env2 env3 agentId ;;
  match truthyString (PreprocessResult.jobId result),
        PreprocessResult.queueType result,
        truthyString (PreprocessResult.orgId result) with
  | Some jobId, Some queueType, Some orgId =>
      tryCatch
        (executeChild jobId orgId queueType agentId ;;;
         ret (MonitorResult.mk true (Some jobId) (Some queueType)))
        (fun _ => ret (MonitorResult.mk false (Some jobId) (Some queueType)))
  | _, _, _ => ret (MonitorResult.mk false None None)
  end.

(** ** [POST /agents/:id/reconnect] *)

Record ReconnectReply := mkReconnectReply {
  rc_code : Z;
  rc_error : option string;
  rc_success : option bool;
  rc_message : option string;
  rc_agent : option Agent.t
}.

Definition agentIdOrgIs (id org : string) (a : Agent.t) : bool :=
  (Agent.id a =? id)%string && (Agent.orgId a =? org)%string.

(** The route runs in [env]; the ping activity it calls reads its own clock
    and reaches the agent in [pingEnv].  [resumeAgentSchedules] is the call
    to the workflow service, a computation that returns or throws.  The
    reply carries the agent row; the lookup of its integration, which only
    fills [vibe_connection] of the reply, is left out. *)
Definition reconnectRoute (env pingEnv : Env)
    (resumeAgentSchedules : string -> M unit) (user : User) (id : string)
    : Db -> Db * ReconnectReply :=
  fun d =>
    match
      (d0 <- getDb ;;
       match find (agentIdOrgIs id (userOrgId user)) (agents d0) with
       | None => ret (mkReconnectReply 404 (Some "Agent not found") None None None)
       | Some currentAgent =>
         pingResult <- pingAgentViaStream pingEnv id ;;
         if PingResult.success pingResult
         then
           updateAgents (agentIdOrgIs id (userOrgId user)) (markActive env) ;;;
           d1 <- getDb ;;
           match filter (agentIdOrgIs id (userOrgId user)) (agents d1) with
           | [] => throw "TypeError: agent is undefined"
           | updatedAgent :: _ =>
             tryCatch (resumeAgentSchedules id) (fun _ => ret tt) ;;;
             ret (mkReconnectReply 200 None (Some true)
                    (Some "Agent reconnected successfully") (Some updatedAgent))
           end
         else
           ret (mkReconnectReply 200 None (Some false)
                  (Some ("Failed to reconnect: "
                         ++ str_or (PingResult.error pingResult) "Agent not responding"))
                  (Some currentAgent))
       end) d
    with
    | (d', Return r) => (d', r)
    | (d', Throw _) =>
        (d', mkReconnectReply 500 (Some "Failed to reconnect agent") None None None)
    end.

(** ** The gRPC service of the backend *)

Inductive GrpcStatus := UNAUTHENTICATED | NOT_FOUND | INTERNAL.

Inductive GrpcReply (A : Type) :=
| GrpcOk (a : A)
| GrpcError (status : GrpcStatus) (message : string).
Arguments GrpcOk {A} a.
Arguments GrpcError {A} status message.

Record HealthCheckResponse := {
  hc_success : bool;
  hc_timestamp : Z;
  hc_version : string
}.

(** [try { ... } catch (error) { callback({ code: INTERNAL, message }) }] *)
Definition grpcHandler {A} (body : M (GrpcReply A)) : Db -> Db * GrpcReply A :=
  fun d => match body d with
           | (d', Return r) => (d', r)
           | (d', Throw e) => (d', GrpcError INTERNAL e)
           end.

Definition healthCheckHandler (env : Env) (agentId : string)
    : Db -> Db * GrpcReply HealthCheckResponse :=
  grpcHandler
    (agent <- findAgent agentId ;;
     match agent with
     | None => ret (GrpcError NOT_FOUND "Agent not found")
     | Some _ =>
       updateAgents (agentIdIs agentId) (touchAgent env) ;;;
       ret (GrpcOk (Build_HealthCheckResponse true (now env) "1.0.0"))
     end).


(** ** [transformJobResponse] *)

(** [s.includes(c)] for a one-character [c] *)
Fixpoint includesChar (c : ascii) (s : string) : bool :=
  match s with
  | EmptyString => false
  | String x s' => Ascii.eqb x c || includesChar c s'
  end.

(** [s.split(c)] for a one-character [c] *)
Fixpoint split (c : ascii) (s : string) : list string :=
  match s with
  | EmptyString => [EmptyString]
  | String x s' =>
      if Ascii.eqb x c then EmptyString :: split c s'
      else match split c s' with
           | p :: rest => String x p :: rest
           | [] => [String x EmptyString]
           end
  end.

Module Repo.
(** An entry of the [repoMap] built from [gpr_repos]. *)
Record t := mk {
  id : string;
  url : string;
  name : string
}.
End Repo.

Module JobResponse.
Record t := mk {
  id : string;
  version : Z;
  generated_name : option string;
  generated_description : option string;
  status : JobStatus;
  priority : JobPriority;
  order_in_queue : Z;
  queue_type : option QueueType;
  created_at : string;
  updated_at : string;
  created_by : string;
  updated_by : string;
  code_generation_logs : option (list LogEntry);
  code_verification_logs : option (list LogEntry);
  user_input : option UserInput.t;
  repo_id : option string;
  repo_url : option string;
  repo_name : option string;
  user_acceptance_status : UserAcceptanceStatus;
  user_comments : option (list UserComment);
  confidence_score : option string;
  pr_link : option string;
  updates : option string
}.
End JobResponse.

(** [repoMap.get(id)]; the map is keyed by the id of its entries. *)
Definition repoMapGet (repoMap : option (list Repo.t)) (id : string) : option Repo.t :=
  match repoMap with
  | Some entries => find (fun r => (Repo.id r =? id)%string) entries
  | None => None
  end.

(** [toISOString] renders a time stamp; it is given as a function. *)
Definition transformJobResponse (toISOString : Z -> string) (job : Job.t)
    (repoMap : option (list Repo.t)) : JobResponse.t :=
  let '(repo_id, repo_url, repo_name) :=
    match truthyString (Job.repoId job) with
    | Some repoId =>
        match repoMapGet repoMap repoId with
        | Some repo => (Some (Repo.id repo), Some (Repo.url repo), Some (Repo.name repo))
        | None =>
            (Some repoId,
             Some (if String.prefix "http" repoId then repoId
                   else "https://github.com/" ++ repoId),
             Some (if includesChar "/" repoId
                   then last (split "/" repoId) EmptyString
                   else repoId))
        end
    | None => (None, None, None)
    end in
  JobResponse.mk (Job.id job) (Job.version job) (Job.generatedName job)
    (Job.generatedDescription job) (Job.status job) (Job.priority job)
    (Job.orderInQueue job) (Job.queueType job)
    (toISOString (Job.createdAt job)) (toISOString (Job.updatedAt job))
    (Job.createdBy job) (Job.updatedBy job)
    (Job.codeGenerationLogs job) (Job.codeVerificationLogs job)
    (Job.userInput job) repo_id repo_url repo_name
    (Job.userAcceptanceStatus job) (Job.userComments job)
    (Job.confidenceScore job) (Job.prLink job) (Job.updates job).

(** ** [GET /jobs] *)

Record ListReply := mkListReply {
  list_code : Z;
  list_error : option string;
  list_jobs : list Job.t
}.

(** A stable sort: [le a b] tells that [a] may stand before [b]. *)
Fixpoint insertBy (le : Job.t -> Job.t -> bool) (r : Job.t) (l : list Job.t)
    : list Job.t :=
  match l with
  | [] => [r]
  | x :: l' => if le r x then r :: l else x :: insertBy le r l'
  end.

Fixpoint sortBy (le : Job.t -> Job.t -> bool) (l : list Job.t) : list Job.t :=
  match l with
  | [] => []
  | r :: l' => insertBy le r (sortBy le l')
  end.

(** [ORDER BY id, version DESC]; the ids are compared character by
    character. *)
Definition byIdThenVersionDesc (a b : Job.t) : bool :=
  String.ltb (Job.id a) (Job.id b)
  || ((Job.id a =? Job.id b)%string && (Job.version b <=? Job.version a)).

(** [DISTINCT ON (id)]: of the rows with equal [id] the first one is kept. *)
Fixpoint distinctOnId (seen : list string) (l : list Job.t) : list Job.t :=
  match l with
  | [] => []
  | r :: l' =>
      if existsb (String.eqb (Job.id r)) seen then distinctOnId seen l'
      else r :: distinctOnId (Job.id r :: seen) l'
  end.

(** The statement does not select [agent_id]: the mapped job has none. *)
Definition withoutAgent (r : Job.t) : Job.t := Job.apply1 (Job.SetAgentId None) r.

(** [(a, b) => b.createdAt.getTime() - a.createdAt.getTime()] *)
Definition byCreatedAtDesc (a b : Job.t) : bool := Job.createdAt b <=? Job.createdAt a.

Definition orgIs (org : string) (r : Job.t) : bool := (Job.orgId r =? org)%string.

(** The handler; the reply carries the jobs, the lookup of their
    repositories being left out as in the other replies. *)
Definition listJobs (user : User) : Db -> Db * ListReply :=
  fun d =>
    match
      (rows <- selectJobs (orgIs (userOrgId user)) ;;
       let allJobs :=
         map withoutAgent (distinctOnId [] (sortBy byIdThenVersionDesc rows)) in
       ret (mkListReply 200 None (sortBy byCreatedAtDesc allJobs))) d
    with
    | (d', Return r) => (d', r)
    | (d', Throw _) => (d', mkListReply 500 (Some "Failed to fetch jobs") [])
    end.

(** ** Who may start a job *)

Definition keyStatus (r : Job.t) : (string * Z) * JobStatus := (Job.key r, Job.status r).

(** The rows of [d] are in [d'] with their keys and statuses, in place. *)
Definition statusesIn (d d' : Db) : Prop :=
  exists extra, map keyStatus (jobs d') = (map keyStatus (jobs d) ++ extra)%list.

(** A computation that changes no status and deletes no row. *)
Definition statusesKept {A} (m : M A) : Prop :=
  forall d, statusesIn d (fst (m d)).

(** A [.set] entry that writes [status]. *)
Definition writesStatus (a : Job.assign) : bool :=
  match a with Job.SetStatus _ => true | _ => false end.

(** ** One job per agent *)

(** The rows that carry [agentId] belong to one job. *)
Definition oneJobOn (agentId : string) (tbl : list Job.t) : Prop :=
  forall r r', In r tbl -> In r' tbl ->
    Job.agentId r = Some agentId -> Job.agentId r' = Some agentId ->
    Job.id r = Job.id r'.

(** A computation under which the primary key of [gpr_jobs] keeps holding. *)
Definition keysKept {A} (m : M A) : Prop :=
  forall d, NoDup (map Job.key (jobs d)) -> NoDup (map Job.key (jobs (fst (m d)))).

(** ** More example data *)

Definition bob : User := mkUser "bob" "org2".

(** Three queued jobs, the first then taken out of the backlog. *)
Definition gapDb : Db :=
  fst (removeJobFromQueue (plainEnv 4000 "4") "job-1" "org1" 1 "alice" threeQueued).




(** A child workflow that fails at once. *)
Definition failingChild (jobId orgId : string) (queueType : QueueType)
    (agentId : string) : M unit :=
  throw "child workflow failed".

(** * Proofs *)

(** ** Boolean equalities *)

Lemma option_beq_eq {A} (eqb : A -> A -> bool) :
  (forall a b, eqb a b = true <-> a = b) ->
  forall x y, option_beq eqb x y = true <-> x = y.
Proof.
  intros H [a|] [b|]; simpl; split; intros E; try congruence.
  - apply H in E. now subst.
  - apply H. congruence.
Qed.

Lemma JobStatus_beq_eq a b : JobStatus_beq a b = true <-> a = b.
Proof. destruct a, b; simpl; split; congruence. Qed.

Lemma QueueType_beq_eq a b : QueueType_beq a b = true <-> a = b.
Proof. destruct a, b; simpl; split; congruence. Qed.

Lemma AgentStatus_beq_eq a b : AgentStatus_beq a b = true <-> a = b.
Proof. destruct a, b; simpl; split; congruence. Qed.


(** ** The audit trail is write-only *)

Lemma sameButActivities_refl d : sameButActivities d d.
Proof. repeat split. Qed.

Lemma alike_ret A (a : A) : alike (ret a) (ret a).
Proof. intros d1 d2 H. split; [reflexivity | exact H]. Qed.

Lemma alike_throw A e : alike (@throw A e) (throw e).
Proof. intros d1 d2 H. split; [reflexivity | exact H]. Qed.

Lemma alike_bind A B (m1 m2 : M A) (k1 k2 : A -> M B) :
  alike m1 m2 -> (forall a, alike (k1 a) (k2 a)) -> alike (bind m1 k1) (bind m2 k2).
Proof.
  intros Hm Hk d1 d2 H. unfold bind.
  destruct (Hm d1 d2 H) as [Ho Hd].
  destruct (m1 d1) as [d1' o1], (m2 d2) as [d2' o2]. simpl in Ho, Hd. subst o2.
  destruct o1 as [a|e].
  - apply Hk, Hd.
  - split; [reflexivity | exact Hd].
Qed.

Lemma alike_selectJobs p : alike (selectJobs p) (selectJobs p).
Proof.
  intros d1 d2 H. unfold selectJobs. simpl. split; [|exact H].
  destruct H as [-> _]. reflexivity.
Qed.

Lemma alike_updateJobs p s : alike (updateJobs p s) (updateJobs p s).
Proof.
  intros d1 d2 H. unfold updateJobs, modifyDb; simpl. split; [reflexivity|].
  unfold sameButActivities in *. simpl. intuition congruence.
Qed.

Lemma alike_insertJob j : alike (insertJob j) (insertJob j).
Proof.
  intros d1 d2 H. unfold insertJob.
  destruct H as (Hj & H). rewrite Hj.
  destruct (existsb _ _); simpl; (split; [reflexivity|]);
    unfold sameButActivities; simpl; intuition congruence.
Qed.

Lemma alike_bindInt4 z : alike (bindInt4 z) (bindInt4 z).
Proof.
  unfold bindInt4. destruct z as [v|]; [destruct (int4 v)|];
    first [apply alike_ret | apply alike_throw].
Qed.

Lemma alike_createActivity env b1 b2 jobId name summary userId orgId :
  alike (createActivity (withActivityInsertThrows b1 env) jobId name summary userId orgId)
        (createActivity (withActivityInsertThrows b2 env) jobId name summary userId orgId).
Proof.
  intros d1 d2 H. unfold createActivity, tryCatch, insertActivity, ret. simpl.
  destruct b1, b2; simpl; (split; [reflexivity|]);
    unfold sameButActivities in *; simpl; intuition congruence.
Qed.

Lemma alike_forEach A (f g : A -> M unit) l :
  (forall x, alike (f x) (g x)) -> alike (forEach f l) (forEach g l).
Proof.
  intros H. induction l as [|x l IH]; simpl.
  - apply alike_ret.
  - apply alike_bind; [apply H | intros _; exact IH].
Qed.

Ltac alike_step :=
  first
    [ apply alike_ret
    | apply alike_throw
    | apply alike_selectJobs
    | apply alike_updateJobs
    | apply alike_insertJob
    | apply alike_bindInt4
    | apply alike_createActivity
    | apply alike_forEach; intros ?
    | apply alike_bind; [| intros ?]
    | match goal with
      | |- alike (match ?x with _ => _ end) _ => destruct x
      | |- alike (if ?x then _ else _) _ => destruct x
      end ].

Lemma alike_handler (b1 b2 : M Reply) f d1 d2 :
  alike b1 b2 -> sameButActivities d1 d2 ->
  snd (handler b1 f d1) = snd (handler b2 f d2)
  /\ sameButActivities (fst (handler b1 f d1)) (fst (handler b2 f d2)).
Proof.
  intros Hb H. unfold handler. destruct (Hb d1 d2 H) as [Ho Hd].
  destruct (b1 d1) as [d1' o1], (b2 d2) as [d2' o2]. simpl in *. subst o2.
  destruct o1; simpl; auto.
Qed.

Lemma alike_queueMoves env b1 b2 user body cur :
  alike (queueMoves (withActivityInsertThrows b1 env) user body cur)
        (queueMoves (withActivityInsertThrows b2 env) user body cur).
Proof.
  unfold queueMoves, reprioritizeQueueAfterRemoval.
  cbn [now withActivityInsertThrows].
  repeat alike_step.
Qed.

Lemma alike_putNewVersion env b1 b2 user id body cur n t :
  alike (putNewVersion (withActivityInsertThrows b1 env) user id body cur n t)
        (putNewVersion (withActivityInsertThrows b2 env) user id body cur n t).
Proof.
  unfold putNewVersion. repeat alike_step.
Qed.

Lemma alike_putInPlace env b1 b2 user id body cur n t :
  alike (putInPlace (withActivityInsertThrows b1 env) user id body cur n t)
        (putInPlace (withActivityInsertThrows b2 env) user id body cur n t).
Proof.
  unfold putInPlace, inPlaceUpdateData. repeat alike_step.
Qed.

Lemma createActivity_returns env jobId name summary userId orgId d :
  snd (createActivity env jobId name summary userId orgId d) = Return tt
  /\ sameButActivities (fst (createActivity env jobId name summary userId orgId d)) d
  /\ (activityInsertThrows env = true ->
      fst (createActivity env jobId name summary userId orgId d) = d).
Proof.
  unfold createActivity, tryCatch, insertActivity, ret.
  destruct (activityInsertThrows env); simpl.
  - repeat split.
  - repeat split. discriminate.
Qed.

(** C10.  A failing insert of the audit Activity row never fails the jobs
    route that writes it: [createActivity] itself always returns, leaving the
    database as it was when the insert throws, and each of create, update,
    archive, execute and reprioritize sends the same reply and leaves the same
    tables (the activity table apart) whether the insert throws or succeeds. *)
Theorem activity_failure_is_only_logged (env : Env) (user : User) (d : Db) :
  let failing := withActivityInsertThrows true env in
  let working := withActivityInsertThrows false env in
  let same (x y : Db * Reply) :=
    snd x = snd y /\ sameButActivities (fst x) (fst y) in
  (forall jobId name summary userId orgId,
      createActivity failing jobId name summary userId orgId d = (d, Return tt))
  /\ (forall body, same (postJob failing user body d) (postJob working user body d))
  /\ (forall id body,
        same (putJob failing user id body d) (putJob working user id body d))
  /\ (forall id, same (deleteJob failing user id d) (deleteJob working user id d))
  /\ (forall id, same (executeJob failing user id d) (executeJob working user id d))
  /\ (forall id position,
        same (reprioritizeJob failing user id position d)
             (reprioritizeJob working user id position d)).
Proof.
  cbv zeta. split; [|split; [|split; [|split; [|split]]]].
  - intros. unfold createActivity, tryCatch, insertActivity. reflexivity.
  - intros body. unfold postJob.
    apply alike_handler; [|apply sameButActivities_refl].
    cbn [now uuid generateJobTitleAndDescription repoName withActivityInsertThrows].
    repeat alike_step.
  - intros id body. unfold putJob.
    apply alike_handler; [|apply sameButActivities_refl].
    unfold selectLatest.
    apply alike_bind; [repeat alike_step | intros [cur|]; [|apply alike_ret]].
    destruct (_ && _); [apply alike_ret|].
    apply alike_bind; [apply alike_queueMoves | intros [n t]].
    change (needsNewVersion (withActivityInsertThrows true env) body cur)
      with (needsNewVersion (withActivityInsertThrows false env) body cur).
    destruct (needsNewVersion _ _ _).
    + apply alike_putNewVersion.
    + apply alike_putInPlace.
  - intros id. unfold deleteJob.
    apply alike_handler; [|apply sameButActivities_refl].
    unfold selectLatest. cbn [now withActivityInsertThrows]. repeat alike_step.
  - intros id. unfold executeJob.
    apply alike_handler; [|apply sameButActivities_refl].
    unfold selectLatest, removeJobFromQueue, reprioritizeQueueAfterRemoval.
    cbn [now isExecuting scheduleJob withActivityInsertThrows]. repeat alike_step.
  - intros id position. unfold reprioritizeJob.
    apply alike_handler; [|apply sameButActivities_refl].
    unfold selectLatest, reorderOne. cbn [now withActivityInsertThrows].
    repeat alike_step.
Qed.

(** ** Reachable states *)

Lemma reachable_run ops : forall d0 d, reachable d0 d -> reachable d0 (run ops d).
Proof.
  induction ops as [|o ops IH]; intros d0 d H; simpl.
  - exact H.
  - apply IH. now apply reach_step.
Qed.

Lemma not_contiguous_1_2 : ~ contiguous [1; 2].
Proof.
  unfold contiguous. simpl. intros H.
  apply Permutation_sym in H.
  assert (Hin : In 0 [1; 2]) by (eapply Permutation_in; [exact H | now left]).
  simpl in Hin. intuition lia.
Qed.

(** C1.  Positions do not stay contiguous under the public operations: three
    jobs created in one organisation hold backlog positions 0, 1, 2; [DELETE]
    of the first is answered 200, and the two queued jobs left hold positions
    1 and 2, not 0 and 1. *)
Theorem archive_leaves_gap :
  positionsContiguous (run threeJobs emptyDb)
  /\ reachable emptyDb (run archiveTrace emptyDb)
  /\ code (snd (deleteJob (plainEnv 4000 "4") alice "job-1" (run threeJobs emptyDb)))
     = 200
  /\ queuePositions "org1" Backlog (jobs (run archiveTrace emptyDb)) = [1; 2]
  /\ ~ positionsContiguous (run archiveTrace emptyDb).
Proof.
  assert (Ha : queuePositions "org1" Backlog (jobs (run archiveTrace emptyDb)) = [1; 2])
    by (vm_compute; reflexivity).
  repeat apply conj.
  - intros org q. unfold queuePositions, contiguous.
    pose (rows := latestRows (jobs (run threeJobs emptyDb))).
    change (latestRows (jobs (run threeJobs emptyDb))) with rows.
    vm_compute in rows. subst rows. unfold inQueue.
    cbn [filter Job.orgId Job.status Job.queueType].
    destruct (String.eqb "org1" org), q; simpl; apply Permutation_refl.
  - apply reachable_run, reach_init.
  - vm_compute; reflexivity.
  - exact Ha.
  - intros H. specialize (H "org1" Backlog). rewrite Ha in H.
    exact (not_contiguous_1_2 H).
Qed.

(** ** Liveness: [pingAgentViaStream] *)


(** Whatever the failure count was, a ping that fails writes [offline]. *)
Lemma failed_ping_writes_offline env agentId d a :
  find (agentIdIs agentId) (agents d) = Some a ->
  healthCheck env <> PingSuccess ->
  agents (fst (pingAgentViaStream env agentId d))
  = map (fun x => if agentIdIs agentId x
                  then markOffline env (orZero (Agent.consecutiveFailures a) + 1) x
                  else x) (agents d).
Proof.
  intros Hf Hp. unfold pingAgentViaStream, bind, findAgent. rewrite Hf.
  unfold tryCatch, bind, throw.
  destruct (healthCheck env); [congruence | reflexivity | reflexivity].
Qed.

(** C5.  The code marks an agent offline at its first failed ping: an active
    agent with [consecutive_failures = 0] is [offline] with a count of 1 after
    one ping that is answered unsuccessfully, and also after one that throws
    or times out. *)
Theorem first_failed_ping_marks_offline :
  agentView agentA = (Active, 0)
  /\ map agentView
       (agents (fst (pingAgentViaStream
                       (withHealthCheck PingUnsuccessful (plainEnv 30000 "u"))
                       "agent-A" oneAgentDb)))
     = [(Offline, 1)]
  /\ map agentView
       (agents (fst (pingAgentViaStream
                       (withHealthCheck PingThrows (plainEnv 30000 "u"))
                       "agent-A" oneAgentDb)))
     = [(Offline, 1)].
Proof. repeat split. Qed.

(** ** Rows of earlier versions *)

(** An update filtered by [(id, version, orgId)], as [PUT] and [DELETE] issue
    it, leaves the rows of every other version as they are. *)
Lemma update_by_key_leaves_other_versions id ver org s tbl r :
  In r tbl -> Job.version r <> ver -> In r (updateWhere (keyOrgIs id ver org) s tbl).
Proof.
  intros Hin Hv. unfold updateWhere. apply in_map_iff. exists r.
  split; [|exact Hin]. unfold keyOrgIs.
  apply Z.eqb_neq in Hv. rewrite Hv. now rewrite andb_false_r.
Qed.

(** An update filtered by [id] alone, as Preprocess issues it, writes every
    version of the job. *)
Lemma update_by_id_writes_all_versions id s tbl r :
  In r tbl -> Job.id r = id -> In (Job.set s r) (updateWhere (jobIdIs id) s tbl).
Proof.
  intros Hin Hid. unfold updateWhere. apply in_map_iff. exists r.
  split; [|exact Hin]. unfold jobIdIs. rewrite Hid. now rewrite String.eqb_refl.
Qed.

(** C9.  The orphan reset of Preprocess chooses rows by [id] alone and so
    rewrites every version of the job.  Job 1 has a completed version 1 and a
    version 2 that [PUT] put in progress more than five minutes ago: one run of
    Preprocess leaves both rows [queued] (and then throws, before its claim
    update is reached), whereas the archive and the in-place [PUT] of the same
    job write version 2 only. *)
Theorem orphan_reset_reaches_every_version :
  let env := plainEnv 400000 "6" in
  reachable oneAgentDb staleDb
  /\ map jobView (jobs staleDb)
     = [ ("job-1", 1, Completed, 0, Some Backlog, None);
         ("job-1", 2, InProgress, -1, None, None) ]
  /\ map jobView (jobs (step (OpPreprocess env "agent-A") staleDb))
     = [ ("job-1", 1, Queued, 0, Some Backlog, None);
         ("job-1", 2, Queued, -1, None, None) ]
  /\ snd (preprocessActivity env "agent-A" staleDb)
     = Throw "TypeError: Cannot read properties of undefined (reading 'findFirst')"
  /\ map jobView (jobs (step (OpDelete env alice "job-1") staleDb))
     = [ ("job-1", 1, Completed, 0, Some Backlog, None);
         ("job-1", 2, Archived, -1, None, None) ]
  /\ map jobView (jobs (step (OpPut env alice "job-1" (statusBody Failed)) staleDb))
     = [ ("job-1", 1, Completed, 0, Some Backlog, None);
         ("job-1", 2, Failed, -1, None, None) ].
Proof.
  split; [apply reachable_run, reach_init|].
  repeat split; vm_compute; reflexivity.
Qed.

(** C3.  The orphan reset also rewrites a row that does not meet the orphan
    condition: version 1 of job 1 is [completed], so it is no orphan, yet
    after the step it is [queued], because version 2 of the same job is one. *)
Theorem orphan_reset_rewrites_unmatched_version :
  let env := plainEnv 400000 "6" in
  let after := jobs (fst (resetOrphans env "org1" "agent-A" staleDb)) in
  reachable oneAgentDb staleDb
  /\ map (fun r => (Job.version r, Job.status r, isOrphan env "org1" "agent-A" r))
         (jobs staleDb)
     = [ (1, Completed, false); (2, InProgress, true) ]
  /\ map (fun r => (Job.version r, Job.status r)) after
     = [ (1, Queued); (2, Queued) ].
Proof.
  cbv zeta. split; [apply reachable_run, reach_init|].
  split; vm_compute; reflexivity.
Qed.

(** ** Registration *)




(** ** Position shifts *)












Lemma insertByOrder_length r l : length (insertByOrder r l) = S (length l).
Proof.
  induction l as [|x l IH]; simpl; [reflexivity|].
  destruct (_ <=? _); simpl; congruence.
Qed.

Lemma orderByOrderInQueue_length l : length (orderByOrderInQueue l) = length l.
Proof.
  induction l as [|x l IH]; simpl; [reflexivity|].
  now rewrite insertByOrder_length, IH.
Qed.


Lemma getNextQueuePosition_run org q d :
  getNextQueuePosition org q d = (d, Return (queueLength org q (jobs d))).
Proof.
  unfold getNextQueuePosition, getQueueJobs, bind, selectJobs, ret, queueLength.
  now rewrite orderByOrderInQueue_length.
Qed.







(** ** Retry *)


Lemma maxVersion_max l m :
  maxVersion l = Some m -> In m l /\ forall r, In r l -> Job.version r <= Job.version m.
Proof.
  revert m. induction l as [|x l IH]; simpl; intros m H; [discriminate|].
  destruct (maxVersion l) as [m'|] eqn:E.
  - destruct (IH m' eq_refl) as [Hin Hle].
    destruct (Job.version x <? Job.version m') eqn:C; inversion H; subst; clear H.
    + apply Z.ltb_lt in C. split; [now right|].
      intros r [->|Hr]; [lia | now apply Hle].
    + apply Z.ltb_ge in C. split; [now left|].
      intros r [->|Hr]; [lia | specialize (Hle r Hr); lia].
  - inversion H; subst. destruct l; [|simpl in E; destruct (maxVersion l); [destruct (_ <? _)|]; discriminate].
    split; [now left|]. intros r [->|[]]. lia.
Qed.







(** ** Preprocess, step by step *)

Lemma forEach_updateJobs A (p : A -> Job.t -> bool) (s : A -> list Job.assign) l :
  forall d,
    forEach (fun x => updateJobs (p x) (s x)) l d
    = (with_jobs (fun t => fold_left (fun acc x => updateWhere (p x) (s x) acc) l t) d,
       Return tt).
Proof.
  induction l as [|x l IH]; intros d; simpl.
  - destruct d; reflexivity.
  - unfold bind, updateJobs at 1, modifyDb. rewrite IH. destruct d; reflexivity.
Qed.

Lemma orphanSet_id env r : Job.id (Job.set (orphanSet env) r) = Job.id r.
Proof. destruct r; reflexivity. Qed.

Lemma orphanSet_idem env r :
  Job.set (orphanSet env) (Job.set (orphanSet env) r) = Job.set (orphanSet env) r.
Proof. destruct r; reflexivity. Qed.

Lemma resetRow_id env l r : Job.id (resetRow env l r) = Job.id r.
Proof. unfold resetRow. destruct (existsb _ _); [apply orphanSet_id | reflexivity]. Qed.

Lemma fold_reset env l : forall tbl,
  fold_left (fun acc job => updateWhere (jobIdIs (Job.id job)) (orphanSet env) acc) l tbl
  = map (resetRow env l) tbl.
Proof.
  induction l as [|x l IH]; intros tbl; cbn [fold_left].
  - unfold resetRow. cbn [existsb]. now rewrite map_id.
  - rewrite IH. unfold updateWhere. rewrite map_map. apply map_ext. intros r.
    unfold resetRow at 2. cbn [existsb]. unfold jobIdIs.
    rewrite (String.eqb_sym (Job.id x) (Job.id r)).
    destruct (Job.id r =? Job.id x)%string eqn:E; cbn [orb].
    + unfold resetRow. rewrite orphanSet_id.
      destruct (existsb _ l); [apply orphanSet_idem | reflexivity].
    + reflexivity.
Qed.

Lemma resetOrphans_run env org agentId d :
  resetOrphans env org agentId d
  = (with_jobs (afterReset env org agentId) d, Return tt).
Proof.
  unfold resetOrphans, bind, selectJobs.
  rewrite (forEach_updateJobs (fun job => jobIdIs (Job.id job)) (fun _ => orphanSet env)).
  unfold afterReset. f_equal. destruct d; unfold with_jobs; simpl. f_equal.
  apply fold_reset.
Qed.

(** What the orphan reset does row by row: an orphan is written [queued] with
    no agent and keeps its queue and position; a row whose [id] is that of no
    orphan is left as it is. *)
Lemma orphan_reset_on_orphan env org agentId tbl r :
  In r tbl -> isOrphan env org agentId r = true ->
  let r' := resetRow env (selectWhere (isOrphan env org agentId) tbl) r in
  Job.status r' = Queued /\ Job.agentId r' = None
  /\ Job.queueType r' = Job.queueType r /\ Job.orderInQueue r' = Job.orderInQueue r
  /\ Job.key r' = Job.key r.
Proof.
  intros Hin Ho. cbv zeta. unfold resetRow.
  assert (E : existsb (fun o => (Job.id o =? Job.id r)%string)
                      (selectWhere (isOrphan env org agentId) tbl) = true).
  { apply existsb_exists. exists r. split; [now apply filter_In|].
    apply String.eqb_refl. }
  rewrite E. destruct r; repeat split.
Qed.

Lemma orphan_reset_on_other_job env org agentId tbl r :
  (forall o, In o tbl -> isOrphan env org agentId o = true -> Job.id o <> Job.id r) ->
  resetRow env (selectWhere (isOrphan env org agentId) tbl) r = r.
Proof.
  intros H. unfold resetRow.
  destruct (existsb _ _) eqn:E; [|reflexivity].
  apply existsb_exists in E as (o & Ho & Hid).
  apply filter_In in Ho as [Hin Hor]. apply String.eqb_eq in Hid.
  exfalso. exact (H o Hin Hor Hid).
Qed.

(** The loop over the queues stops at its first step. *)
Lemma claimFrom_throws env agentId org q rest d :
  claimFrom env agentId org (q :: rest) d = (d, Throw queueLookupError).
Proof. reflexivity. Qed.

Lemma preprocess_active env agentId d agent :
  find (agentIdIs agentId) (agents d) = Some agent ->
  Agent.status agent = Active ->
  let d1 := with_jobs (afterReset env (Agent.orgId agent) agentId) d in
  preprocessActivity env agentId d
  = match selectWhere (ownedInProgress agentId) (jobs d1) with
    | _ :: _ =>
        (with_agents (map (fun a => if agentIdIs agentId a then touchAgent env a else a))
           (if streamOpen env agentId
            then with_streamWrites
                   (fun w => (w ++ [(agentId, "HEALTH_CHECK_PING")])%list) d1
            else d1),
         Return (PreprocessResult.mk None None (Some (Agent.orgId agent))))
    | [] => (d1, Throw queueLookupError)
    end.
Proof.
  intros Hf Ha. cbv zeta.
  unfold preprocessActivity, bind at 1, findAgent. rewrite Hf, Ha. cbn [AgentStatus_beq negb].
  unfold bind at 1. rewrite resetOrphans_run.
  unfold bind at 1, selectJobs.
  destruct (selectWhere (ownedInProgress agentId) _) as [|o l]; [reflexivity|].
  unfold bind, modifyDb, ret, updateAgents.
  destruct (streamOpen env agentId); reflexivity.
Qed.

Lemma preprocess_idle env agentId d :
  match find (agentIdIs agentId) (agents d) with
  | Some agent => Agent.status agent <> Active
  | None => True
  end ->
  preprocessActivity env agentId d = (d, Return (PreprocessResult.mk None None None)).
Proof.
  intros H. unfold preprocessActivity, bind, findAgent.
  destruct (find (agentIdIs agentId) (agents d)) as [agent|]; [|reflexivity].
  destruct (AgentStatus_beq (Agent.status agent) Active) eqn:E; [|reflexivity].
  apply AgentStatus_beq_eq in E. contradiction.
Qed.

(** The three ways a run of Preprocess ends: nothing is written for an agent
    that is unknown or not active; with a row in progress on the agent after
    the reset, the heartbeat; otherwise the throw of the queue loop. *)
Lemma preprocess_cases env agentId d :
  preprocessActivity env agentId d = (d, Return (PreprocessResult.mk None None None))
  \/ exists agent,
       find (agentIdIs agentId) (agents d) = Some agent
       /\ Agent.status agent = Active
       /\ jobs (fst (preprocessActivity env agentId d))
          = afterReset env (Agent.orgId agent) agentId (jobs d)
       /\ (snd (preprocessActivity env agentId d)
           = Return (PreprocessResult.mk None None (Some (Agent.orgId agent)))
           \/ snd (preprocessActivity env agentId d) = Throw queueLookupError).
Proof.
  destruct (find (agentIdIs agentId) (agents d)) as [agent|] eqn:Hf.
  2:{ left. apply preprocess_idle. now rewrite Hf. }
  destruct (AgentStatus_beq (Agent.status agent) Active) eqn:Ha.
  2:{ left. apply preprocess_idle. rewrite Hf. intros E. rewrite E in Ha. discriminate. }
  apply AgentStatus_beq_eq in Ha. right. exists agent.
  split; [reflexivity|]. split; [exact Ha|].
  rewrite (preprocess_active env agentId d Hf Ha).
  destruct (selectWhere (ownedInProgress agentId) _) as [|o l]; cbn [fst snd].
  - split; [reflexivity | now right].
  - split; [destruct (streamOpen env agentId); reflexivity | now left].
Qed.

(** C2.  Preprocess never claims a job.  For an active agent that owns no
    in-progress job once the orphans are reset, the call throws at the first
    step of its queue loop, whatever the queues hold: the table is left as the
    orphan reset left it and no result is returned.  So no run of Preprocess
    returns a job.  With three jobs queued in the backlog of the agent's
    organisation and no queue paused, the run throws and the database is
    unchanged, where the first job should have been claimed. *)
Theorem preprocess_throws_before_claiming :
  (forall env agentId d agent,
      find (agentIdIs agentId) (agents d) = Some agent ->
      Agent.status agent = Active ->
      let d1 := with_jobs (afterReset env (Agent.orgId agent) agentId) d in
      selectWhere (ownedInProgress agentId) (jobs d1) = [] ->
      preprocessActivity env agentId d = (d1, Throw queueLookupError))
  /\ (forall env agentId d r,
        snd (preprocessActivity env agentId d) = Return r ->
        PreprocessResult.jobId r = None /\ PreprocessResult.queueType r = None)
  /\ (let d := run threeJobs oneAgentDb in
      reachable oneAgentDb d
      /\ queueStatus d = []
      /\ map jobView (jobs d)
         = [ ("job-1", 1, Queued, 0, Some Backlog, None);
             ("job-2", 1, Queued, 1, Some Backlog, None);
             ("job-3", 1, Queued, 2, Some Backlog, None) ]
      /\ preprocessActivity (plainEnv 4000 "4") "agent-A" d
         = (d, Throw queueLookupError)).
Proof.
  split; [|split].
  - intros env agentId d agent Hf Ha d1 Hown.
    rewrite (preprocess_active env agentId d Hf Ha). fold d1. now rewrite Hown.
  - intros env agentId d r H.
    destruct (preprocess_cases env agentId d) as [E | (agent & _ & _ & _ & [E | E])];
      rewrite E in H; cbn [snd] in H; try discriminate;
      injection H as <-; split; reflexivity.
  - split; [apply reachable_run, reach_init|].
    repeat split; vm_compute; reflexivity.
Qed.

(** ** Latest versions under row-wise writes *)

Lemma filter_map_comm A B (f : A -> B) (p : B -> bool) l :
  filter p (map f l) = map f (filter (fun x => p (f x)) l).
Proof.
  induction l as [|x l IH]; simpl; [reflexivity|].
  destruct (p (f x)); simpl; now rewrite IH.
Qed.

Lemma forallb_map_comp A B (f : A -> B) (p : B -> bool) l :
  forallb p (map f l) = forallb (fun x => p (f x)) l.
Proof. induction l as [|x l IH]; simpl; [reflexivity | now rewrite IH]. Qed.

Lemma forallb_ext_all A (p q : A -> bool) l :
  (forall x, p x = q x) -> forallb p l = forallb q l.
Proof. intros H. induction l as [|x l IH]; simpl; [reflexivity | now rewrite H, IH]. Qed.

Lemma isLatest_map (f : Job.t -> Job.t) tbl r :
  (forall x, Job.key (f x) = Job.key x) ->
  isLatest (map f tbl) (f r) = isLatest tbl r.
Proof.
  intros Hk. unfold isLatest. rewrite forallb_map_comp.
  assert (Hr : Job.id (f r) = Job.id r /\ Job.version (f r) = Job.version r).
  { specialize (Hk r). unfold Job.key in Hk. now inversion Hk. }
  destruct Hr as [-> ->].
  apply forallb_ext_all. intros x.
  specialize (Hk x). unfold Job.key in Hk. inversion Hk as [[Hi Hv]].
  now rewrite Hi, Hv.
Qed.

Lemma latestRows_map (f : Job.t -> Job.t) tbl :
  (forall x, Job.key (f x) = Job.key x) ->
  latestRows (map f tbl) = map f (latestRows tbl).
Proof.
  intros Hk. unfold latestRows. rewrite filter_map_comm. f_equal.
  apply filter_ext. intros r. now apply isLatest_map.
Qed.

Lemma filter_length_mono A (p q : A -> bool) l :
  (forall x, In x l -> p x = true -> q x = true) ->
  (length (filter p l) <= length (filter q l))%nat.
Proof.
  induction l as [|x l IH]; simpl; intros H; [lia|].
  assert (IH' : (length (filter p l) <= length (filter q l))%nat)
    by (apply IH; intros y Hy; apply H; now right).
  destruct (p x) eqn:Ep.
  - rewrite (H x (or_introl eq_refl) Ep). simpl. lia.
  - destruct (q x); simpl; lia.
Qed.

(** A row-wise write that puts no row in progress on [agentId] does not add to
    the jobs in progress on it. *)
Lemma inProgressOn_map_le (f : Job.t -> Job.t) agentId tbl :
  (forall x, Job.key (f x) = Job.key x) ->
  (forall x, In x tbl -> ownedInProgress agentId (f x) = true ->
             ownedInProgress agentId x = true) ->
  (length (inProgressOn agentId (map f tbl)) <= length (inProgressOn agentId tbl))%nat.
Proof.
  intros Hk Hp. unfold inProgressOn. rewrite (@latestRows_map _ _ Hk).
  rewrite filter_map_comm, length_map.
  apply filter_length_mono. intros x Hx. apply Hp.
  unfold latestRows in Hx. now apply filter_In in Hx.
Qed.

Lemma NoDup_one_key (l : list Job.t) :
  NoDup (map Job.key l) ->
  (forall x y, In x l -> In y l -> Job.key x = Job.key y) ->
  (length l <= 1)%nat.
Proof.
  destruct l as [|a [|b l]]; simpl; intros Hnd Hk; try lia.
  exfalso. inversion Hnd as [|? ? Hn _]; subst. apply Hn. left.
  symmetry. apply Hk; auto.
Qed.

Lemma NoDup_map_filter A B (f : A -> B) (p : A -> bool) l :
  NoDup (map f l) -> NoDup (map f (filter p l)).
Proof.
  induction l as [|x l IH]; simpl; intros H; [constructor|].
  inversion H as [|? ? Hn Hd]; subst.
  destruct (p x); simpl; [|now apply IH].
  constructor; [|now apply IH].
  intros Hin. apply Hn. apply in_map_iff in Hin as (y & Hy & Hin).
  apply in_map_iff. exists y. split; [exact Hy|]. now apply filter_In in Hin.
Qed.

Lemma isLatest_version tbl r r' :
  isLatest tbl r = true -> In r' tbl -> Job.id r' = Job.id r ->
  Job.version r' <= Job.version r.
Proof.
  unfold isLatest. intros H Hin Hid. rewrite forallb_forall in H.
  specialize (H r' Hin). rewrite Hid, String.eqb_refl in H. simpl in H.
  now apply Z.leb_le.
Qed.

(** With the primary key in force, at most one latest row carries a given id. *)
Lemma one_latest_per_id tbl (p : Job.t -> bool) i :
  NoDup (map Job.key tbl) ->
  (forall r, In r tbl -> p r = true -> Job.id r = i) ->
  (length (filter p (latestRows tbl)) <= 1)%nat.
Proof.
  intros Hnd Hp. apply NoDup_one_key.
  - apply NoDup_map_filter. unfold latestRows. now apply NoDup_map_filter.
  - intros x y Hx Hy. apply filter_In in Hx as [Hx Hpx], Hy as [Hy Hpy].
    unfold latestRows in Hx, Hy. apply filter_In in Hx as [Hx Hlx], Hy as [Hy Hly].
    assert (Hix : Job.id x = i) by now apply Hp.
    assert (Hiy : Job.id y = i) by now apply Hp.
    assert (Job.version y <= Job.version x)
      by (apply (@isLatest_version _ _ _ Hlx Hy); congruence).
    assert (Job.version x <= Job.version y)
      by (apply (@isLatest_version _ _ _ Hly Hx); congruence).
    unfold Job.key. f_equal; [congruence | lia].
Qed.

Lemma resetRow_key env l r : Job.key (resetRow env l r) = Job.key r.
Proof.
  unfold resetRow. destruct (existsb _ _); [|reflexivity]. destruct r; reflexivity.
Qed.

Lemma resetRow_owned env l agentId r :
  ownedInProgress agentId (resetRow env l r) = true -> ownedInProgress agentId r = true.
Proof.
  unfold resetRow. destruct (existsb _ _); [|auto].
  unfold ownedInProgress. destruct r; simpl. congruence.
Qed.

Lemma map_keys_eq (f : Job.t -> Job.t) tbl :
  (forall x, Job.key (f x) = Job.key x) -> map Job.key (map f tbl) = map Job.key tbl.
Proof. intros H. rewrite map_map. now apply map_ext. Qed.

Lemma singleDispatch_after_reset env org agentId tbl :
  singleDispatch tbl -> singleDispatch (afterReset env org agentId tbl).
Proof.
  intros Hsd b. etransitivity; [|apply (Hsd b)]. unfold afterReset.
  apply inProgressOn_map_le.
  - intros x. apply resetRow_key.
  - intros x _. apply resetRow_owned.
Qed.

(** ** Reprioritize *)

Lemma with_jobs_with_jobs f g d : with_jobs g (with_jobs f d) = with_jobs (fun t => g (f t)) d.
Proof. reflexivity. Qed.

Lemma with_jobs_id d : with_jobs (map (fun r => r)) d = d.
Proof. destruct d; unfold with_jobs; simpl. now rewrite map_id. Qed.

Lemma forEach_rowwise A (f : A -> M unit) (g : A -> Job.t -> Job.t) l :
  (forall x d, f x d = (with_jobs (map (g x)) d, Return tt)) ->
  forall d, forEach f l d
            = (with_jobs (map (fun r => fold_left (fun acc x => g x acc) l r)) d,
               Return tt).
Proof.
  intros Hf. induction l as [|x l IH]; intros d; cbn [forEach fold_left].
  - unfold ret. now rewrite with_jobs_id.
  - unfold bind. rewrite Hf, IH, with_jobs_with_jobs. f_equal.
    unfold with_jobs. f_equal. now rewrite map_map.
Qed.

Lemma reorderOne_rowwise env user id ver ji d :
  reorderOne env user id ver ji d
  = (with_jobs (map (reorderRow env user id ver ji)) d, Return tt).
Proof.
  destruct ji as [j i]. unfold reorderOne, reorderRow.
  destruct ((Job.id j =? id)%string && (Job.version j =? ver)); [reflexivity|].
  destruct (negb (Job.orderInQueue j =? i)); [reflexivity|].
  unfold ret. now rewrite with_jobs_id.
Qed.

Lemma reorderRow_fields env user id ver ji r :
  Job.id (reorderRow env user id ver ji r) = Job.id r
  /\ Job.version (reorderRow env user id ver ji r) = Job.version r
  /\ Job.orgId (reorderRow env user id ver ji r) = Job.orgId r
  /\ Job.status (reorderRow env user id ver ji r) = Job.status r
  /\ Job.queueType (reorderRow env user id ver ji r) = Job.queueType r.
Proof.
  destruct ji as [j i]. unfold reorderRow.
  destruct (_ && _); [|destruct (negb _)];
    try destruct (keyOrgIs _ _ _ r); destruct r; repeat split.
Qed.

Lemma reorderAll_fields env user id ver l : forall r,
  Job.id (reorderAll env user id ver l r) = Job.id r
  /\ Job.version (reorderAll env user id ver l r) = Job.version r
  /\ Job.orgId (reorderAll env user id ver l r) = Job.orgId r
  /\ Job.status (reorderAll env user id ver l r) = Job.status r
  /\ Job.queueType (reorderAll env user id ver l r) = Job.queueType r.
Proof.
  induction l as [|ji l IH]; intros r; cbn [reorderAll fold_left]; [repeat split|].
  fold (reorderAll env user id ver l (reorderRow env user id ver ji r)).
  destruct (IH (reorderRow env user id ver ji r)) as (-> & -> & -> & -> & ->).
  apply reorderRow_fields.
Qed.

Lemma reorderAll_key env user id ver l r :
  Job.key (reorderAll env user id ver l r) = Job.key r.
Proof.
  destruct (reorderAll_fields env user id ver l r) as (Hi & Hv & _).
  unfold Job.key. now rewrite Hi, Hv.
Qed.

Lemma reorderAll_inQueue env user id ver l org q r :
  inQueue org q (reorderAll env user id ver l r) = inQueue org q r.
Proof.
  destruct (reorderAll_fields env user id ver l r) as (_ & _ & Ho & Hs & Hq).
  unfold inQueue. now rewrite Ho, Hs, Hq.
Qed.

Lemma keyOrgIs_false_key j org r :
  Job.key j <> Job.key r -> keyOrgIs (Job.id j) (Job.version j) org r = false.
Proof.
  intros Hk. unfold keyOrgIs.
  destruct (Job.id r =? Job.id j)%string eqn:Ei; [|reflexivity].
  destruct (Job.version r =? Job.version j) eqn:Ev; [|reflexivity].
  exfalso. apply Hk. apply String.eqb_eq in Ei. apply Z.eqb_eq in Ev.
  unfold Job.key. congruence.
Qed.

(** A callback made for another row leaves this one alone. *)
Lemma reorderRow_other env user id ver j i r :
  Job.key j <> Job.key r -> reorderRow env user id ver (j, i) r = r.
Proof.
  intros Hk. unfold reorderRow. rewrite (keyOrgIs_false_key _ Hk).
  destruct (_ && _); [|destruct (negb _)]; reflexivity.
Qed.

Lemma reorderAll_notin env user id ver l : forall r,
  ~ In (Job.key r) (map (fun ji => Job.key (fst ji)) l) ->
  reorderAll env user id ver l r = r.
Proof.
  induction l as [|[j i] l IH]; intros r Hn; cbn [reorderAll fold_left]; [reflexivity|].
  rewrite reorderRow_other.
  - apply IH. intros H. apply Hn. now right.
  - intros H. apply Hn. left. exact H.
Qed.

(** The callback made for a row itself writes its index. *)
Lemma reorderRow_self env user id ver r i :
  Job.orgId r = userOrgId user ->
  Job.orderInQueue (reorderRow env user id ver (r, i) r) = i
  /\ Job.key (reorderRow env user id ver (r, i) r) = Job.key r.
Proof.
  intros Ho. unfold reorderRow, keyOrgIs.
  rewrite String.eqb_refl, Z.eqb_refl, Ho, String.eqb_refl. cbn [andb].
  destruct (_ && _).
  - destruct r; split; reflexivity.
  - destruct (Job.orderInQueue r =? i) eqn:E; cbn [negb].
    + apply Z.eqb_eq in E. split; [exact E | reflexivity].
    + destruct r; split; reflexivity.
Qed.

Lemma combine_keys (l : list Job.t) (ns : list Z) :
  length ns = length l ->
  map (fun ji => Job.key (fst ji)) (combine l ns) = map Job.key l.
Proof.
  revert ns. induction l as [|x l IH]; intros [|n ns]; simpl; intros H;
    try reflexivity; try discriminate.
  f_equal. apply IH. lia.
Qed.

(** After all callbacks, the [k]-th row of the reordered list holds position
    [k]. *)
Lemma reorderAll_positions env user id ver (l : list Job.t) : forall s,
  NoDup (map Job.key l) ->
  (forall r, In r l -> Job.orgId r = userOrgId user) ->
  map (fun r => Job.orderInQueue
                  (reorderAll env user id ver
                              (combine l (map Z.of_nat (seq s (length l)))) r)) l
  = map Z.of_nat (seq s (length l)).
Proof.
  induction l as [|x l IH]; intros s Hnd Ho; [reflexivity|].
  inversion Hnd as [|? ? Hx Hnd']; subst.
  cbn [length seq map combine]. f_equal.
  - cbn [reorderAll fold_left].
    destruct (reorderRow_self env user id ver x (Z.of_nat s)) as [Hp Hk];
      [apply Ho; now left|].
    fold (reorderAll env user id ver (combine l (map Z.of_nat (seq (S s) (length l))))
                     (reorderRow env user id ver (x, Z.of_nat s) x)).
    rewrite reorderAll_notin; [exact Hp|].
    rewrite combine_keys by now rewrite length_map, length_seq.
    now rewrite Hk.
  - transitivity
      (map (fun r => Job.orderInQueue
                       (reorderAll env user id ver
                          (combine l (map Z.of_nat (seq (S s) (length l)))) r)) l).
    + apply map_ext_in. intros r Hr. cbn [reorderAll fold_left].
      rewrite reorderRow_other; [reflexivity|].
      intros Hk. apply Hx. rewrite Hk. now apply in_map.
    + apply IH; [exact Hnd'|]. intros r Hr. apply Ho. now right.
Qed.

(** ** The reordered list *)

Lemma insertByOrder_perm x l : Permutation (insertByOrder x l) (x :: l).
Proof.
  induction l as [|y l IH]; simpl; [apply Permutation_refl|].
  destruct (_ <=? _); [apply Permutation_refl|].
  etransitivity; [apply perm_skip, IH | apply perm_swap].
Qed.

Lemma orderBy_perm l : Permutation (orderByOrderInQueue l) l.
Proof.
  induction l as [|x l IH]; simpl; [constructor|].
  etransitivity; [apply insertByOrder_perm | now apply perm_skip].
Qed.

Lemma splice_insert_perm A (x : A) pos l : Permutation (splice_insert pos x l) (x :: l).
Proof.
  unfold splice_insert.
  set (k := Z.to_nat _).
  etransitivity; [apply Permutation_sym, Permutation_middle|].
  now rewrite firstn_skipn.
Qed.

Lemma filter_out_one (job : Job.t) l :
  NoDup (map Job.key l) -> In job l ->
  Permutation l (job :: filter (fun j => negb (Job.key_eqb j job)) l).
Proof.
  induction l as [|x l IH]; intros Hnd Hin; [destruct Hin|].
  inversion Hnd as [|? ? Hx Hnd']; subst. cbn [filter].
  destruct Hin as [->|Hin].
  - unfold Job.key_eqb at 1. rewrite String.eqb_refl, Z.eqb_refl. cbn [negb andb].
    apply perm_skip.
    rewrite forallb_filter_id; [apply Permutation_refl|].
    apply forallb_forall. intros y Hy.
    destruct (Job.key_eqb y job) eqn:E; [|reflexivity]. exfalso. apply Hx.
    unfold Job.key_eqb in E. apply andb_true_iff in E as [Ei Ev].
    apply String.eqb_eq in Ei. apply Z.eqb_eq in Ev.
    replace (Job.key job) with (Job.key y) by (unfold Job.key; congruence).
    now apply in_map.
  - assert (E : Job.key_eqb x job = false).
    { destruct (Job.key_eqb x job) eqn:E; [|reflexivity]. exfalso. apply Hx.
      unfold Job.key_eqb in E. apply andb_true_iff in E as [Ei Ev].
      apply String.eqb_eq in Ei. apply Z.eqb_eq in Ev.
      replace (Job.key x) with (Job.key job) by (unfold Job.key; congruence).
      now apply in_map. }
    rewrite E. cbn [negb].
    etransitivity; [apply perm_skip, (IH Hnd' Hin) | apply perm_swap].
Qed.

Lemma key_unique (tbl : list Job.t) a b :
  NoDup (map Job.key tbl) -> In a tbl -> In b tbl -> Job.key a = Job.key b -> a = b.
Proof.
  induction tbl as [|x l IH]; intros Hnd Ha Hb Hk; [destruct Ha|].
  inversion Hnd as [|? ? Hx Hnd']; subst.
  destruct Ha as [->|Ha], Hb as [->|Hb]; auto.
  - exfalso. apply Hx. rewrite Hk. now apply in_map.
  - exfalso. apply Hx. rewrite <- Hk. now apply in_map.
Qed.

Lemma splice_insert_nth A (x : A) pos l :
  0 <= pos ->
  nth_error (splice_insert pos x l) (Z.to_nat (Z.min pos (Z.of_nat (length l))))
  = Some x.
Proof.
  intros Hp. unfold splice_insert.
  destruct (pos <? 0) eqn:E; [apply Z.ltb_lt in E; lia|].
  set (k := Z.to_nat (Z.min pos (Z.of_nat (length l)))).
  assert (Hk : (k <= length l)%nat) by (unfold k; lia).
  rewrite nth_error_app2; rewrite length_firstn, Nat.min_l by exact Hk; [|lia].
  now rewrite Nat.sub_diag.
Qed.

Lemma maxVersion_found id org tbl job :
  maxVersion (selectWhere (idOrgIs id org) tbl) = Some job ->
  In job tbl /\ Job.id job = id /\ Job.orgId job = org.
Proof.
  intros H. destruct (maxVersion_max _ H) as [Hin _].
  apply filter_In in Hin as [Hin Hp]. unfold idOrgIs in Hp.
  apply andb_true_iff in Hp as [Hi Ho].
  apply String.eqb_eq in Hi, Ho. auto.
Qed.

Lemma inQueue_org org q r : inQueue org q r = true -> Job.orgId r = org.
Proof.
  unfold inQueue. intros H. apply andb_true_iff in H as [H _].
  apply andb_true_iff in H as [H _]. now apply String.eqb_eq.
Qed.

Lemma inQueue_self job :
  Job.status job = Queued -> inQueue (Job.orgId job) (Job.queueType job) job = true.
Proof.
  intros Hs. unfold inQueue. rewrite String.eqb_refl, Hs. cbn [JobStatus_beq andb].
  apply (option_beq_eq QueueType_beq QueueType_beq_eq). reflexivity.
Qed.

(** The list the handler reorders is the queue, rearranged. *)
Lemma reorderedJobs_perm user job position tbl :
  NoDup (map Job.key tbl) -> In job tbl ->
  Job.orgId job = userOrgId user -> Job.status job = Queued ->
  Permutation (reorderedJobs user job position tbl)
              (selectWhere (inQueue (userOrgId user) (Job.queueType job)) tbl).
Proof.
  intros Hnd Hin Ho Hs. unfold reorderedJobs.
  set (Qf := selectWhere _ tbl).
  assert (HinQ : In job Qf).
  { apply filter_In. split; [exact Hin|]. rewrite <- Ho. now apply inQueue_self. }
  assert (HndQ : NoDup (map Job.key (orderByOrderInQueue Qf))).
  { eapply Permutation_NoDup.
    - apply Permutation_map, Permutation_sym, orderBy_perm.
    - now apply NoDup_map_filter. }
  etransitivity; [apply splice_insert_perm|].
  etransitivity; [|apply orderBy_perm].
  apply Permutation_sym.
  rewrite (filter_ext _ (fun j => negb (Job.key_eqb j job))).
  - apply filter_out_one; [exact HndQ|].
    eapply Permutation_in; [apply Permutation_sym, orderBy_perm | exact HinQ].
  - intros j. unfold Job.key_eqb. now rewrite negb_andb.
Qed.

Lemma reorderedJobs_length user job position tbl :
  NoDup (map Job.key tbl) -> In job tbl ->
  Job.orgId job = userOrgId user -> Job.status job = Queued ->
  exists others,
    reorderedJobs user job position tbl = splice_insert position job others
    /\ S (length others)
       = length (selectWhere (inQueue (userOrgId user) (Job.queueType job)) tbl).
Proof.
  intros Hnd Hin Ho Hs. eexists. split; [reflexivity|].
  pose proof (@reorderedJobs_perm user job position tbl Hnd Hin Ho Hs) as Hp.
  apply Permutation_length in Hp. rewrite <- Hp. unfold reorderedJobs.
  rewrite (Permutation_length (splice_insert_perm _ _ _)). reflexivity.
Qed.

(** What the handler does when it moves the job. *)
Lemma reprioritize_move env user id position d job :
  maxVersion (selectWhere (idOrgIs id (userOrgId user)) (jobs d)) = Some job ->
  Job.status job = Queued -> 0 <= position -> position <> Job.orderInQueue job ->
  code (snd (reprioritizeJob env user id position d)) = 200
  /\ jobs (fst (reprioritizeJob env user id position d))
     = map (reorderAll env user id (Job.version job)
                       (indexed (reorderedJobs user job position (jobs d))))
           (jobs d).
Proof.
  intros Hcur Hs Hp Hne.
  destruct (maxVersion_found _ _ _ Hcur) as (Hin & Hid & Ho). subst id.
  remember (reprioritizeJob env user (Job.id job) position d) as res eqn:Eres.
  unfold reprioritizeJob, handler in Eres.
  assert (E1 : (position <? 0) = false) by (apply Z.ltb_ge; lia).
  rewrite E1 in Eres.
  unfold bind at 1, selectLatest, bind at 1, selectJobs at 1, ret at 1 in Eres.
  rewrite Hcur, Hs in Eres. cbn [JobStatus_beq negb] in Eres.
  assert (E2 : (position =? Job.orderInQueue job) = false) by (apply Z.eqb_neq; exact Hne).
  rewrite E2 in Eres.
  unfold bind at 1, selectJobs at 1 in Eres.
  unfold bind at 1 in Eres.
  rewrite (forEach_rowwise _ (reorderRow env user (Job.id job) (Job.version job))
                           (indexed _)
                           (reorderOne_rowwise env user (Job.id job) (Job.version job)))
    in Eres.
  set (F := reorderAll env user (Job.id job) (Job.version job)
                       (indexed (reorderedJobs user job position (jobs d)))).
  match type of Eres with context [with_jobs (map ?f) d] =>
    change f with F in Eres end.
  unfold bind at 1, selectJobs at 1 in Eres. cbn [jobs with_jobs] in Eres.
  destruct (selectWhere (keyOrgIs (Job.id job) (Job.version job) (userOrgId user))
                        (map F (jobs d))) as [|u l] eqn:Esel.
  { exfalso.
    assert (Hx : In (F job) (selectWhere (keyOrgIs (Job.id job) (Job.version job) (userOrgId user))
                                         (map F (jobs d)))).
    { apply filter_In. split; [now apply in_map|].
      destruct (reorderAll_fields env user (Job.id job) (Job.version job)
                  (indexed (reorderedJobs user job position (jobs d))) job)
        as (Hi & Hv & Hor & _).
      unfold keyOrgIs. fold F in Hi, Hv, Hor. rewrite Hi, Hv, Hor, Ho.
      now rewrite !String.eqb_refl, Z.eqb_refl. }
    rewrite Esel in Hx. destruct Hx. }
  unfold bind at 1 in Eres.
  match type of Eres with context [createActivity ?e ?a ?b ?c ?x ?o ?dd] =>
    destruct (createActivity_returns e a b c x o dd) as (Hret & Hsame & _);
    destruct (createActivity e a b c x o dd) as [d3 o3] end.
  simpl in Hret, Hsame. subst o3. destruct Hsame as (Hj & _).
  unfold ret in Eres. subst res. cbn [fst snd]. split; [reflexivity | exact Hj].
Qed.

(** What the rewritten table looks like. *)
Lemma reordered_table env user id position tbl job :
  NoDup (map Job.key tbl) -> In job tbl ->
  Job.orgId job = userOrgId user -> Job.status job = Queued -> 0 <= position ->
  let F := reorderAll env user id (Job.version job)
                      (indexed (reorderedJobs user job position tbl)) in
  let queue t := selectWhere (inQueue (userOrgId user) (Job.queueType job)) t in
  map Job.key (map F tbl) = map Job.key tbl
  /\ queue (map F tbl) = map F (queue tbl)
  /\ contiguous (map Job.orderInQueue (queue (map F tbl)))
  /\ Job.orderInQueue (F job) = Z.min position (Z.of_nat (length (queue tbl)) - 1)
  /\ (forall r, In r tbl ->
                inQueue (userOrgId user) (Job.queueType job) r = false -> F r = r).
Proof.
  intros Hnd Hin Ho Hs Hp F queue.
  set (R := reorderedJobs user job position tbl) in *.
  assert (HpR : Permutation R (queue tbl))
    by (apply reorderedJobs_perm; assumption).
  assert (HndR : NoDup (map Job.key R)).
  { eapply Permutation_NoDup.
    - apply Permutation_map, Permutation_sym, HpR.
    - unfold queue, selectWhere. now apply NoDup_map_filter. }
  assert (HoR : forall r, In r R -> Job.orgId r = userOrgId user).
  { intros r Hr. apply (Permutation_in _ HpR) in Hr.
    apply filter_In in Hr as [_ Hq]. exact (inQueue_org _ _ _ Hq). }
  assert (Hpos : map (fun r => Job.orderInQueue (F r)) R
                 = map Z.of_nat (seq 0 (length R))).
  { unfold F, indexed. apply reorderAll_positions; assumption. }
  assert (Hq : queue (map F tbl) = map F (queue tbl)).
  { unfold queue, selectWhere. rewrite filter_map_comm. f_equal.
    apply filter_ext. intros r. apply reorderAll_inQueue. }
  split; [apply map_keys_eq; intros x; apply reorderAll_key|].
  split; [exact Hq|].
  split; [|split].
  - unfold contiguous. rewrite Hq, map_map, !length_map.
    rewrite <- (Permutation_length HpR), <- Hpos.
    apply Permutation_map, Permutation_sym, HpR.
  - destruct (@reorderedJobs_length user job position tbl Hnd Hin Ho Hs)
      as (others & ER & Hlen).
    fold R in ER. fold (queue tbl) in Hlen.
    pose proof (splice_insert_nth job others Hp) as Hn.
    rewrite <- ER in Hn.
    set (k := Z.to_nat (Z.min position (Z.of_nat (length others)))) in *.
    assert (H1 : nth_error (map (fun r => Job.orderInQueue (F r)) R) k
                 = Some (Job.orderInQueue (F job)))
      by (rewrite nth_error_map, Hn; reflexivity).
    rewrite Hpos in H1. rewrite nth_error_map in H1.
    destruct (nth_error (seq 0 (length R)) k) as [m|] eqn:Em; [|discriminate].
    assert (Hk : (k < length R)%nat)
      by (apply nth_error_Some; rewrite Hn; discriminate).
    rewrite nth_error_seq in Em.
    apply Nat.ltb_lt in Hk. rewrite Hk in Em.
    cbn [option_map] in H1. injection Em as Em. injection H1 as H1.
    rewrite <- H1, <- Em, <- Hlen. unfold k. lia.
  - intros r Hr Hout. apply reorderAll_notin.
    unfold indexed. rewrite combine_keys by now rewrite length_map, length_seq.
    intros Hk. apply in_map_iff in Hk as (r' & Hkey & Hr').
    apply (Permutation_in _ HpR) in Hr'.
    apply filter_In in Hr' as [Hr' Hq'].
    assert (r' = r) by (apply (@key_unique tbl r' r Hnd); assumption).
    subst r'. congruence.
Qed.

Lemma reprioritize_rejects env user id position d job :
  maxVersion (selectWhere (idOrgIs id (userOrgId user)) (jobs d)) = Some job ->
  Job.status job <> Queued \/ position < 0 ->
  code (snd (reprioritizeJob env user id position d)) = 400
  /\ fst (reprioritizeJob env user id position d) = d.
Proof.
  intros Hcur Hbad.
  remember (reprioritizeJob env user id position d) as res eqn:Eres.
  unfold reprioritizeJob, handler in Eres.
  destruct (position <? 0) eqn:E1; [subst res; split; reflexivity|].
  destruct Hbad as [Hs|Hp]; [|apply Z.ltb_ge in E1; lia].
  unfold bind at 1, selectLatest, bind at 1, selectJobs at 1, ret at 1 in Eres.
  rewrite Hcur in Eres.
  assert (E : JobStatus_beq (Job.status job) Queued = false).
  { destruct (JobStatus_beq (Job.status job) Queued) eqn:E; [|reflexivity].
    apply JobStatus_beq_eq in E. contradiction. }
  rewrite E in Eres. subst res. split; reflexivity.
Qed.

Lemma reprioritize_same_position env user id position d job :
  maxVersion (selectWhere (idOrgIs id (userOrgId user)) (jobs d)) = Some job ->
  Job.status job = Queued -> 0 <= position -> position = Job.orderInQueue job ->
  code (snd (reprioritizeJob env user id position d)) = 200
  /\ fst (reprioritizeJob env user id position d) = d.
Proof.
  intros Hcur Hs Hp He.
  remember (reprioritizeJob env user id position d) as res eqn:Eres.
  unfold reprioritizeJob, handler in Eres.
  assert (E1 : (position <? 0) = false) by (apply Z.ltb_ge; lia).
  rewrite E1 in Eres.
  unfold bind at 1, selectLatest, bind at 1, selectJobs at 1, ret at 1 in Eres.
  rewrite Hcur, Hs in Eres. cbn [JobStatus_beq negb] in Eres.
  rewrite (proj2 (Z.eqb_eq _ _) He) in Eres. subst res. split; reflexivity.
Qed.

(** X23.  [POST /jobs/:id/reprioritize] works on the queued rows of the
    queue, of whatever version.  With the primary key in force and [job] the
    latest version of the job in the caller's organisation: a job that is not
    queued, and a negative position, are rejected with 400 and nothing is
    written; a position equal to the current one is answered 200 and nothing
    is written; any other position [>= 0] is answered 200 and rewrites the
    queue of the job so that the same rows are queued, their positions are
    exactly [0 .. n-1] for the [n] queued rows, the row of the job sits at
    [min(position, n-1)] and rows outside the queue are untouched. *)
Theorem reprioritize_permutes_queued_rows env user id position d job :
  NoDup (map Job.key (jobs d)) ->
  maxVersion (selectWhere (idOrgIs id (userOrgId user)) (jobs d)) = Some job ->
  let res := reprioritizeJob env user id position d in
  let queue tbl := selectWhere (inQueue (userOrgId user) (Job.queueType job)) tbl in
  let n := Z.of_nat (length (queue (jobs d))) in
  (Job.status job <> Queued \/ position < 0 ->
     code (snd res) = 400 /\ fst res = d)
  /\ (Job.status job = Queued -> 0 <= position -> position = Job.orderInQueue job ->
      code (snd res) = 200 /\ fst res = d)
  /\ (Job.status job = Queued -> 0 <= position -> position <> Job.orderInQueue job ->
      code (snd res) = 200
      /\ map Job.key (jobs (fst res)) = map Job.key (jobs d)
      /\ map Job.key (queue (jobs (fst res))) = map Job.key (queue (jobs d))
      /\ contiguous (map Job.orderInQueue (queue (jobs (fst res))))
      /\ (forall r, In r (jobs (fst res)) -> Job.key r = Job.key job ->
                    Job.orderInQueue r = Z.min position (n - 1))
      /\ (forall r, In r (jobs d) ->
                    inQueue (userOrgId user) (Job.queueType job) r = false ->
                    In r (jobs (fst res))))
  /\ (Job.status job = Queued -> 0 <= position ->
      contiguous (map Job.orderInQueue (queue (jobs d))) ->
      map Job.key (queue (jobs (fst res))) = map Job.key (queue (jobs d))
      /\ contiguous (map Job.orderInQueue (queue (jobs (fst res))))
      /\ (forall r, In r (jobs (fst res)) -> Job.key r = Job.key job ->
                    Job.orderInQueue r = Z.min position (n - 1))).
Proof.
  intros Hnd Hcur res queue n.
  destruct (maxVersion_found _ _ _ Hcur) as (Hin & Hid & Ho).
  assert (Hmove : Job.status job = Queued -> 0 <= position ->
                  position <> Job.orderInQueue job ->
      code (snd res) = 200
      /\ map Job.key (jobs (fst res)) = map Job.key (jobs d)
      /\ map Job.key (queue (jobs (fst res))) = map Job.key (queue (jobs d))
      /\ contiguous (map Job.orderInQueue (queue (jobs (fst res))))
      /\ (forall r, In r (jobs (fst res)) -> Job.key r = Job.key job ->
                    Job.orderInQueue r = Z.min position (n - 1))
      /\ (forall r, In r (jobs d) ->
                    inQueue (userOrgId user) (Job.queueType job) r = false ->
                    In r (jobs (fst res)))).
  { intros Hs Hp Hne.
    destruct (@reprioritize_move env user id position d job Hcur Hs Hp Hne) as [Hc Ht].
    fold res in Hc, Ht.
    destruct (@reordered_table env user id position (jobs d) job Hnd Hin Ho Hs Hp)
      as (Hk & Hq & Hcont & Hjob & Hout).
    rewrite Ht. split; [exact Hc|]. split; [exact Hk|].
    split; [|split; [exact Hcont|split]].
    - fold (queue (map (reorderAll env user id (Job.version job)
                          (indexed (reorderedJobs user job position (jobs d)))) (jobs d))).
      fold (queue (jobs d)). unfold queue at 1. unfold queue in Hq. rewrite Hq.
      apply map_keys_eq. intros x. apply reorderAll_key.
    - intros r Hr Hkey. apply in_map_iff in Hr as (r0 & <- & Hr0).
      rewrite reorderAll_key in Hkey.
      assert (r0 = job) by (apply (@key_unique (jobs d) r0 job Hnd); assumption).
      subst r0. exact Hjob.
    - intros r Hr Hq'. apply in_map_iff. exists r. split; [now apply Hout | exact Hr]. }
  split; [intros Hbad; now apply (@reprioritize_rejects env user id position d job Hcur)|].
  split; [intros Hs Hp He; now apply (@reprioritize_same_position env user id position d job Hcur)|].
  split; [exact Hmove|].
  intros Hs Hp Hcont.
  destruct (Z.eq_dec position (Job.orderInQueue job)) as [He|Hne].
  - destruct (@reprioritize_same_position env user id position d job Hcur Hs Hp He) as [_ Hd].
    fold res in Hd. rewrite Hd. split; [reflexivity|]. split; [exact Hcont|].
    intros r Hr Hkey.
    assert (r = job) by (apply (@key_unique (jobs d) r job Hnd); assumption).
    subst r.
    assert (HinQ : In job (queue (jobs d))).
    { apply filter_In. split; [exact Hin|]. rewrite <- Ho. now apply inQueue_self. }
    assert (Hpos : In (Job.orderInQueue job) (map Job.orderInQueue (queue (jobs d))))
      by now apply in_map.
    apply (Permutation_in _ Hcont) in Hpos.
    apply in_map_iff in Hpos as (m & Hm & Hseq).
    apply in_seq in Hseq. rewrite length_map in Hseq. unfold n. lia.
  - destruct (Hmove Hs Hp Hne) as (_ & _ & H3 & H4 & H5 & _). auto.
Qed.

Lemma reprioritize_permutes_queued_rows_witness :
  maxVersion (selectWhere (idOrgIs "job-3" (userOrgId alice)) (jobs threeQueued))
  = Some (exampleCreated "3" "third" 2 3000)
  /\ code (snd (reprioritizeJob (plainEnv 4000 "4") alice "job-3" 0 threeQueued)) = 200
  /\ contiguous
       (map Job.orderInQueue
            (selectWhere (inQueue "org1" (Some Backlog))
               (jobs (fst (reprioritizeJob (plainEnv 4000 "4") alice "job-3" 0
                                           threeQueued)))))
  /\ (forall r,
        In r (jobs (fst (reprioritizeJob (plainEnv 4000 "4") alice "job-3" 0 threeQueued))) ->
        Job.key r = ("job-3", 1) -> Job.orderInQueue r = 0).
Proof.
  assert (Hnd : NoDup (map Job.key (jobs threeQueued))).
  { vm_compute. repeat constructor; simpl; intuition discriminate. }
  assert (Hcur : maxVersion (selectWhere (idOrgIs "job-3" (userOrgId alice))
                                         (jobs threeQueued))
                 = Some (exampleCreated "3" "third" 2 3000)) by reflexivity.
  destruct (@reprioritize_permutes_queued_rows (plainEnv 4000 "4") alice "job-3" 0
              threeQueued _ Hnd Hcur) as (_ & _ & H3 & _).
  assert (Hne : 0 <> Job.orderInQueue (exampleCreated "3" "third" 2 3000))
    by (simpl; lia).
  destruct (H3 eq_refl (Z.le_refl 0) Hne) as (Hc & _ & _ & Hcont & Hjob & _).
  split; [exact Hcur|]. split; [exact Hc|]. split; [exact Hcont|]. exact Hjob.
Defined.

(** A negative position is rejected, not clamped to 0, and a request for the
    current position changes nothing even where the queue has a gap.  With
    jobs 1, 2, 3 at positions 0, 1, 2, moving job 2 to -1 is answered 400 and
    job 2 stays at 1; once job 1 is archived, asking position 2 for job 3
    leaves positions 1 and 2 in a queue of two. *)
Lemma negative_position_rejected_not_clamped :
  let res := reprioritizeJob (plainEnv 4000 "4") alice "job-2" (-1) threeQueued in
  let gap := run archiveTrace emptyDb in
  let res' := reprioritizeJob (plainEnv 5000 "5") alice "job-3" 2 gap in
  code (snd res) = 400
  /\ fst res = threeQueued
  /\ clamp (-1) 0 (3 - 1) = 0
  /\ ~ (forall r, In r (jobs (fst res)) -> Job.id r = "job-2" ->
                  Job.orderInQueue r = clamp (-1) 0 (3 - 1))
  /\ code (snd res') = 200
  /\ queuePositions "org1" Backlog (jobs (fst res')) = [1; 2]
  /\ ~ contiguous (queuePositions "org1" Backlog (jobs (fst res'))).
Proof.
  cbv zeta.
  split; [reflexivity|]. split; [reflexivity|]. split; [reflexivity|].
  split.
  - intros H.
    specialize (H (exampleCreated "2" "second" 1 2000)).
    assert (Hin : In (exampleCreated "2" "second" 1 2000)
                     (jobs (fst (reprioritizeJob (plainEnv 4000 "4") alice "job-2" (-1)
                                                 threeQueued))))
      by (vm_compute; auto).
    specialize (H Hin eq_refl). vm_compute in H. discriminate H.
  - split; [vm_compute; reflexivity|].
    assert (E : queuePositions "org1" Backlog
                  (jobs (fst (reprioritizeJob (plainEnv 5000 "5") alice "job-3" 2
                                              (run archiveTrace emptyDb))))
                = [1; 2]) by (vm_compute; reflexivity).
    split; [exact E|]. rewrite E. exact not_contiguous_1_2.
Qed.

(** C7.  The handler counts and repositions every queued row of the queue,
    whatever its version.  After three jobs were queued and a new prompt sent
    the third to review as version 2, its version 1 is still a queued row at
    position 2, and the queued jobs are jobs 1 and 2 at positions 0 and 1.
    Moving job 1 to position 5 is answered 200 and leaves job 2 at 0 and job 1
    at 2, the stale row holding 1: the positions of the two queued jobs are
    not 0 and 1, and job 1 is not at [clamp(5, 0, 1) = 1]. *)
Theorem reprioritize_counts_stale_versions :
  let res := reprioritizeJob (plainEnv 5000 "5") alice "job-1" 5 staleRowDb in
  reachable emptyDb staleRowDb
  /\ map jobView (jobs staleRowDb)
     = [ ("job-1", 1, Queued, 0, Some Backlog, None);
         ("job-2", 1, Queued, 1, Some Backlog, None);
         ("job-3", 1, Queued, 2, Some Backlog, None);
         ("job-3", 2, InReview, -1, None, None) ]
  /\ queuePositions "org1" Backlog (jobs staleRowDb) = [0; 1]
  /\ code (snd res) = 200
  /\ map jobView (jobs (fst res))
     = [ ("job-1", 1, Queued, 2, Some Backlog, None);
         ("job-2", 1, Queued, 0, Some Backlog, None);
         ("job-3", 1, Queued, 1, Some Backlog, None);
         ("job-3", 2, InReview, -1, None, None) ]
  /\ queuePositions "org1" Backlog (jobs (fst res)) = [2; 0]
  /\ ~ contiguous (queuePositions "org1" Backlog (jobs (fst res)))
  /\ clamp 5 0 (2 - 1) = 1.
Proof.
  cbv zeta.
  assert (Hq : queuePositions "org1" Backlog
                 (jobs (fst (reprioritizeJob (plainEnv 5000 "5") alice "job-1" 5
                                             staleRowDb))) = [2; 0])
    by (vm_compute; reflexivity).
  split; [apply reachable_run, reach_init|].
  repeat (split; [vm_compute; reflexivity|]).
  split; [|reflexivity].
  rewrite Hq. unfold contiguous. simpl. intros H.
  assert (Hin : In 2 [0; 1]) by (eapply Permutation_in; [exact H | now left]).
  simpl in Hin. intuition lia.
Qed.

(** * Queue upkeep, reads and liveness handlers *)


(** ** Contiguous positions *)

Lemma contiguous_perm l l' : Permutation l l' -> contiguous l -> contiguous l'.
Proof.
  intros Hp Hc. unfold contiguous in *.
  rewrite <- (Permutation_length Hp).
  transitivity l; [symmetry; exact Hp | exact Hc].
Qed.

Lemma seqZ_In n x : In x (map Z.of_nat (seq 0 n)) <-> 0 <= x < Z.of_nat n.
Proof.
  rewrite in_map_iff. split.
  - intros (k & <- & Hk). apply in_seq in Hk. lia.
  - intros H. exists (Z.to_nat x). split; [lia|]. apply in_seq. lia.
Qed.

Lemma seqZ_NoDup n : NoDup (map Z.of_nat (seq 0 n)).
Proof.
  apply Finite.Injective_map_NoDup_in; [|apply seq_NoDup].
  intros a b _ _ H. lia.
Qed.

Lemma contiguous_In l x : contiguous l -> (In x l <-> 0 <= x < Z.of_nat (length l)).
Proof.
  intros Hc. rewrite <- seqZ_In. split; intros H.
  - eapply Permutation_in; [exact Hc | exact H].
  - eapply Permutation_in; [symmetry; exact Hc | exact H].
Qed.

Lemma contiguous_NoDup l : contiguous l -> NoDup l.
Proof.
  intros Hc. eapply Permutation_NoDup; [symmetry; exact Hc | apply seqZ_NoDup].
Qed.

Lemma contiguous_intro l :
  NoDup l -> (forall x, In x l -> 0 <= x < Z.of_nat (length l)) -> contiguous l.
Proof.
  intros Hn Hb. unfold contiguous.
  apply NoDup_Permutation_bis; [exact Hn | |].
  - rewrite length_map, length_seq. lia.
  - intros x Hx. apply seqZ_In. auto.
Qed.


(** Taking position [p] out and moving the positions above it down by one
    keeps a queue contiguous. *)
Lemma contiguous_closeGap p l :
  contiguous (p :: l) -> contiguous (map (closeGap p) l).
Proof.
  intros Hc.
  pose proof (contiguous_NoDup Hc) as Hn. inversion Hn as [|? ? Hnotin Hnl]; subst.
  assert (Hb : forall x, In x l -> 0 <= x < Z.of_nat (S (length l)) /\ x <> p).
  { intros x Hx. split.
    - apply (contiguous_In x Hc). right; exact Hx.
    - intros ->. contradiction. }
  assert (Hp : 0 <= p < Z.of_nat (S (length l))).
  { apply (contiguous_In p Hc). left; reflexivity. }
  apply contiguous_intro.
  - apply Finite.Injective_map_NoDup_in; [|exact Hnl].
    intros x y Hx Hy. unfold closeGap.
    destruct (Hb x Hx) as [_ Hxp], (Hb y Hy) as [_ Hyp].
    destruct (p <? x) eqn:E1, (p <? y) eqn:E2;
      rewrite ?Z.ltb_lt, ?Z.ltb_ge in *; lia.
  - intros y Hy. apply in_map_iff in Hy. destruct Hy as (x & <- & Hx).
    rewrite length_map. destruct (Hb x Hx) as [Hr Hxp]. unfold closeGap.
    destruct (p <? x) eqn:E1; rewrite ?Z.ltb_lt, ?Z.ltb_ge in *; lia.
Qed.





Lemma createActivity_jobs env jobId name summary userId orgId d :
  jobs (fst (createActivity env jobId name summary userId orgId d)) = jobs d.
Proof.
  destruct (createActivity_returns env jobId name summary userId orgId d)
    as (_ & (H & _) & _). exact H.
Qed.

Lemma inQueue_eq org q r :
  inQueue org (Some q) r = true <->
  Job.orgId r = org /\ Job.status r = Queued /\ Job.queueType r = Some q.
Proof.
  unfold inQueue. rewrite !andb_true_iff, String.eqb_eq, JobStatus_beq_eq.
  rewrite (option_beq_eq QueueType_beq QueueType_beq_eq). tauto.
Qed.




Lemma key_eqb_eq a b : Job.key_eqb a b = true <-> Job.key a = Job.key b.
Proof.
  unfold Job.key_eqb, Job.key. rewrite andb_true_iff, String.eqb_eq, Z.eqb_eq.
  split; [intros [-> ->]; reflexivity | intros H; injection H; auto].
Qed.

Lemma rowPositions_perm org q t1 t2 :
  Permutation t1 t2 -> Permutation (rowPositions org q t1) (rowPositions org q t2).
Proof.
  intros H. unfold rowPositions, selectWhere.
  apply Permutation_map. induction H; cbn [filter].
  - constructor.
  - destruct (inQueue org (Some q) x); [constructor|]; assumption.
  - destruct (inQueue org (Some q) x), (inQueue org (Some q) y);
      try reflexivity. apply perm_swap.
  - etransitivity; eassumption.
Qed.

(** The queue after rows rewritten by [g]: rows that stay in the queue have
    their position sent through [f], rows that were outside stay outside. *)
Lemma rowPositions_map org q (g : Job.t -> Job.t) (f : Z -> Z) tbl :
  (forall r, In r tbl ->
     inQueue org (Some q) (g r) = inQueue org (Some q) r
     /\ (inQueue org (Some q) r = true ->
         Job.orderInQueue (g r) = f (Job.orderInQueue r))) ->
  rowPositions org q (map g tbl) = map f (rowPositions org q tbl).
Proof.
  unfold rowPositions, selectWhere. induction tbl as [|r tbl IH]; intros H; [reflexivity|].
  cbn [map filter]. destruct (H r (or_introl eq_refl)) as [E1 E2]. rewrite E1.
  assert (IH' := IH (fun x Hx => H x (or_intror Hx))).
  destruct (inQueue org (Some q) r); [|exact IH'].
  cbn [map]. rewrite E2 by reflexivity. f_equal. exact IH'.
Qed.

(** One row leaves the queue and the rows behind it move up. *)
Lemma queue_after_removal org q (job : Job.t) (g : Job.t -> Job.t) tbl :
  NoDup (map Job.key tbl) -> In job tbl ->
  inQueue org (Some q) job = true ->
  inQueue org (Some q) (g job) = false ->
  (forall r, In r tbl -> Job.key r <> Job.key job ->
     inQueue org (Some q) (g r) = inQueue org (Some q) r
     /\ (inQueue org (Some q) r = true ->
         Job.orderInQueue (g r) = closeGap (Job.orderInQueue job) (Job.orderInQueue r))) ->
  contiguous (rowPositions org q tbl) ->
  contiguous (rowPositions org q (map g tbl))
  /\ S (length (rowPositions org q (map g tbl))) = length (rowPositions org q tbl).
Proof.
  intros Hnd Hin Hq Hout Hothers Hc.
  pose proof (filter_out_one job tbl Hnd Hin) as Hperm.
  set (others := filter (fun j => negb (Job.key_eqb j job)) tbl) in *.
  assert (Hrows : rowPositions org q (map g (job :: others))
                  = map (closeGap (Job.orderInQueue job)) (rowPositions org q others)).
  { cbn [map]. unfold rowPositions at 1. unfold selectWhere. cbn [filter]. rewrite Hout.
    apply (rowPositions_map org q g (closeGap (Job.orderInQueue job)) others).
    intros r Hr. unfold others in Hr. apply filter_In in Hr. destruct Hr as [Hr Hk].
    apply Hothers; [exact Hr|]. intros E. apply key_eqb_eq in E. rewrite E in Hk. discriminate. }
  assert (Hbefore : rowPositions org q (job :: others)
                    = Job.orderInQueue job :: rowPositions org q others).
  { unfold rowPositions, selectWhere. cbn [filter]. rewrite Hq. reflexivity. }
  assert (Hc' : contiguous (Job.orderInQueue job :: rowPositions org q others)).
  { rewrite <- Hbefore. eapply contiguous_perm; [|exact Hc].
    apply rowPositions_perm. exact Hperm. }
  split.
  - eapply contiguous_perm.
    + symmetry. apply rowPositions_perm. apply Permutation_map. exact Hperm.
    + rewrite Hrows. apply contiguous_closeGap. exact Hc'.
  - rewrite (Permutation_length (rowPositions_perm org q (Permutation_map g Hperm))).
    rewrite (Permutation_length (rowPositions_perm org q Hperm)).
    rewrite Hrows, Hbefore. cbn [length]. now rewrite length_map.
Qed.


Lemma keyOrgIs_key id ver org r :
  keyOrgIs id ver org r = true -> Job.key r = (id, ver) /\ Job.orgId r = org.
Proof.
  unfold keyOrgIs. rewrite !andb_true_iff, !String.eqb_eq, Z.eqb_eq.
  intros [[<- <-] <-]. split; reflexivity.
Qed.

Lemma keyOrgIs_self job :
  keyOrgIs (Job.id job) (Job.version job) (Job.orgId job) job = true.
Proof. unfold keyOrgIs. now rewrite !String.eqb_refl, Z.eqb_refl. Qed.

(** ** [reprioritizeQueueAfterRemoval] *)

Lemma reprioritize_run env org q p d :
  reprioritizeQueueAfterRemoval env org q p d
  = (with_jobs (updateWhere
                  (fun r => inQueue org (Some q) r && (p <? Job.orderInQueue r))
                  [Job.DecrOrderInQueue; Job.SetUpdatedAt (now env)]) d, Return tt).
Proof. reflexivity. Qed.

Lemma decr_inQueue env org q r :
  inQueue org q (Job.set [Job.DecrOrderInQueue; Job.SetUpdatedAt (now env)] r)
  = inQueue org q r.
Proof. destruct r; reflexivity. Qed.

Lemma decr_order env r :
  Job.orderInQueue (Job.set [Job.DecrOrderInQueue; Job.SetUpdatedAt (now env)] r)
  = Job.orderInQueue r - 1.
Proof. destruct r; reflexivity. Qed.

Lemma reprioritize_positions env org q p tbl :
  rowPositions org q
    (updateWhere (fun r => inQueue org (Some q) r && (p <? Job.orderInQueue r))
                 [Job.DecrOrderInQueue; Job.SetUpdatedAt (now env)] tbl)
  = map (closeGap p) (rowPositions org q tbl).
Proof.
  unfold updateWhere. apply rowPositions_map. intros r _.
  destruct (inQueue org (Some q) r) eqn:E; cbn [andb].
  - destruct (p <? Job.orderInQueue r) eqn:E2.
    + rewrite decr_inQueue, decr_order. split; [exact E|]. intros _.
      unfold closeGap. now rewrite E2.
    + split; [exact E|]. intros _. unfold closeGap. now rewrite E2.
  - split; [exact E|]. intros H; discriminate.
Qed.

(** X2.  [reprioritizeQueueAfterRemoval(org, queue, p)] closes the gap left
    at [p]: when the positions of the queued rows of the queue together with
    [p] are exactly [0 .. n], they are exactly [0 .. n-1] afterwards.  Rows
    outside the queue are untouched and no row is added or removed. *)
Theorem reprioritize_after_removal_closes_gap env org q p d :
  contiguous (p :: rowPositions org q (jobs d)) ->
  contiguous (rowPositions org q (jobs (fst (reprioritizeQueueAfterRemoval env org q p d))))
  /\ (forall r, In r (jobs d) -> inQueue org (Some q) r = false ->
                In r (jobs (fst (reprioritizeQueueAfterRemoval env org q p d))))
  /\ length (jobs (fst (reprioritizeQueueAfterRemoval env org q p d))) = length (jobs d).
Proof.
  intros Hc. rewrite reprioritize_run. cbn [fst jobs with_jobs]. split; [|split].
  - rewrite reprioritize_positions. apply contiguous_closeGap. exact Hc.
  - intros r Hr Hq. unfold updateWhere. apply in_map_iff. exists r.
    rewrite Hq. cbn [andb]. split; [reflexivity | exact Hr].
  - unfold updateWhere. apply length_map.
Qed.

(** ** [POST /jobs/:id/execute] *)

Lemma executeJob_run env user id d job q :
  maxVersion (selectWhere (idOrgIs id (userOrgId user)) (jobs d)) = Some job ->
  Job.status job = Queued -> Job.queueType job = Some q ->
  isExecuting env id = false ->
  jobs (fst (executeJob env user id d))
  = updateWhere (fun r => inQueue (userOrgId user) (Some q) r
                          && (Job.orderInQueue job <? Job.orderInQueue r))
                [Job.DecrOrderInQueue; Job.SetUpdatedAt (now env)]
      (updateWhere (keyOrgIs id (Job.version job) (userOrgId user))
                   [Job.SetQueueType None; Job.SetOrderInQueue (-1);
                    Job.SetUpdatedAt (now env); Job.SetUpdatedBy (userId user)]
                   (jobs d))
  /\ snd (executeJob env user id d)
     = match scheduleJob env id (userOrgId user) with
       | Some _ => sendMessage 202 "Job execution started" None
       | None => sendError 500 "Failed to start job execution"
       end.
Proof.
  intros Hmax Hst Hq Hex.
  remember (executeJob env user id d) as res eqn:Eres.
  unfold executeJob, handler in Eres.
  unfold bind at 1 in Eres. unfold selectLatest, selectJobs, bind, ret in Eres.
  rewrite Hmax in Eres.
  rewrite Hst, Hq, Hex in Eres. cbn [JobStatus_beq] in Eres.
  unfold removeJobFromQueue, reprioritizeQueueAfterRemoval, updateJobs, modifyDb in Eres.
  destruct (scheduleJob env id (userOrgId user)) as [wf|].
  - match type of Eres with
    | context [createActivity ?e ?a ?b ?c ?u0 ?o ?dd] =>
        pose proof (createActivity_returns e a b c u0 o dd) as (Hret & _ & _);
        pose proof (createActivity_jobs e a b c u0 o dd) as Hjobs;
        destruct (createActivity e a b c u0 o dd) as [d2 o2]
    end.
    cbn [snd fst] in Hret, Hjobs. subst o2. subst res. cbn [fst snd].
    rewrite Hjobs. split; reflexivity.
  - unfold throw in Eres. subst res. split; reflexivity.
Qed.

Lemma inQueue_other org q org' q' r :
  inQueue org (Some q) r = true -> (org', q') <> (org, q) ->
  inQueue org' (Some q') r = false.
Proof.
  intros H Hne. apply not_true_is_false. intros H'.
  apply inQueue_eq in H, H'. destruct H as (A & _ & B), H' as (A' & _ & B').
  apply Hne. rewrite <- A, <- A'. rewrite B in B'. now injection B' as ->.
Qed.

Lemma leaveQueue_fields env user r :
  let r' := Job.set [Job.SetQueueType None; Job.SetOrderInQueue (-1);
                     Job.SetUpdatedAt (now env); Job.SetUpdatedBy (userId user)] r in
  Job.key r' = Job.key r /\ Job.queueType r' = None /\ Job.orderInQueue r' = -1
  /\ Job.status r' = Job.status r /\ Job.agentId r' = Job.agentId r
  /\ Job.orgId r' = Job.orgId r.
Proof. destruct r; cbn. repeat split. Qed.

Lemma inQueue_no_queue org q r : Job.queueType r = None -> inQueue org (Some q) r = false.
Proof.
  intros H. unfold inQueue. rewrite H. cbn [option_beq]. apply andb_false_r.
Qed.

(** X3.  [POST /jobs/:id/execute] on a queued job of a queue with contiguous
    positions, not already executing: the row of the job leaves the queue
    ([queue_type = null], [order_in_queue = -1]) but keeps [status = queued] and
    its agent; the queue has one row fewer and contiguous positions again; the
    other queues keep their positions.  The reply is 202 when the workflow was
    scheduled and 500 when scheduling threw, and in both cases the job has left
    the queue: the removal is not rolled back. *)
Theorem execute_takes_job_out_of_queue env user id d job q :
  NoDup (map Job.key (jobs d)) ->
  maxVersion (selectWhere (idOrgIs id (userOrgId user)) (jobs d)) = Some job ->
  Job.status job = Queued -> Job.queueType job = Some q ->
  isExecuting env id = false ->
  contiguous (rowPositions (userOrgId user) q (jobs d)) ->
  let res := executeJob env user id d in
  snd res = match scheduleJob env id (userOrgId user) with
            | Some _ => sendMessage 202 "Job execution started" None
            | None => sendError 500 "Failed to start job execution"
            end
  /\ contiguous (rowPositions (userOrgId user) q (jobs (fst res)))
  /\ S (length (rowPositions (userOrgId user) q (jobs (fst res))))
     = length (rowPositions (userOrgId user) q (jobs d))
  /\ (forall org' q', (org', q') <> (userOrgId user, q) ->
        rowPositions org' q' (jobs (fst res)) = rowPositions org' q' (jobs d))
  /\ (exists job', In job' (jobs (fst res))
                   /\ Job.key job' = Job.key job
                   /\ Job.queueType job' = None /\ Job.orderInQueue job' = -1
                   /\ Job.status job' = Queued
                   /\ Job.agentId job' = Job.agentId job).
Proof.
  intros Hnd Hmax Hst Hq Hex Hc res.
  destruct (@executeJob_run env user id d job q Hmax Hst Hq Hex) as [Hjobs Hreply].
  destruct (@maxVersion_found id (userOrgId user) (jobs d) job Hmax) as (Hin & Hid & Horg).
  fold res in Hjobs, Hreply. split; [exact Hreply|].
  rewrite Hjobs. clear Hjobs Hreply res.
  unfold updateWhere. rewrite map_map.
  set (g := fun r => _).
  assert (Hjobq : inQueue (userOrgId user) (Some q) job = true).
  { apply inQueue_eq. auto. }
  assert (Hself : keyOrgIs id (Job.version job) (userOrgId user) job = true).
  { rewrite <- Hid, <- Horg. apply keyOrgIs_self. }
  assert (Hgjob : g job = Job.set [Job.SetQueueType None; Job.SetOrderInQueue (-1);
                                   Job.SetUpdatedAt (now env);
                                   Job.SetUpdatedBy (userId user)] job).
  { unfold g. rewrite Hself.
    destruct (leaveQueue_fields env user job) as (_ & Hn & _).
    rewrite (inQueue_no_queue _ _ _ Hn). reflexivity. }
  assert (Hother : forall r, In r (jobs d) -> Job.key r <> Job.key job ->
            g r = if inQueue (userOrgId user) (Some q) r
                     && (Job.orderInQueue job <? Job.orderInQueue r)
                  then Job.set [Job.DecrOrderInQueue; Job.SetUpdatedAt (now env)] r
                  else r).
  { intros r Hr Hk. unfold g.
    destruct (keyOrgIs id (Job.version job) (userOrgId user) r) eqn:E; [|reflexivity].
    exfalso. apply Hk. apply keyOrgIs_key in E. destruct E as [E _].
    rewrite E. unfold Job.key. now rewrite Hid. }
  destruct (@queue_after_removal (userOrgId user) q job g (jobs d) Hnd Hin Hjobq)
    as [Hc' Hlen]; [| |exact Hc|].
  - rewrite Hgjob. apply inQueue_no_queue.
    apply (leaveQueue_fields env user job).
  - intros r Hr Hk. rewrite (Hother r Hr Hk).
    destruct (inQueue (userOrgId user) (Some q) r) eqn:E; cbn [andb].
    + destruct (Job.orderInQueue job <? Job.orderInQueue r) eqn:E2.
      * rewrite decr_inQueue, decr_order. split; [exact E|]. intros _.
        unfold closeGap. now rewrite E2.
      * split; [exact E|]. intros _. unfold closeGap. now rewrite E2.
    + split; [exact E|]. intros H; discriminate.
  - split; [exact Hc'|]. split; [exact Hlen|]. split.
    + intros org' q' Hne.
      rewrite (@rowPositions_map org' q' g (fun x => x) (jobs d)); [apply map_id|].
      intros r Hr.
      destruct (string_dec (Job.id r) (Job.id job)) as [Ei|Ni];
        [destruct (Z.eq_dec (Job.version r) (Job.version job)) as [Ev|Nv]|].
      * assert (r = job) by (apply (key_unique (jobs d)); auto; unfold Job.key; congruence).
        subst r. rewrite Hgjob.
        rewrite inQueue_no_queue by apply (leaveQueue_fields env user job).
        rewrite (@inQueue_other _ _ _ _ _ Hjobq Hne). split; [reflexivity|intros H; discriminate].
      * rewrite Hother by (auto; unfold Job.key; congruence).
        destruct (inQueue (userOrgId user) (Some q) r
                  && (Job.orderInQueue job <? Job.orderInQueue r)) eqn:E.
        -- apply andb_true_iff in E. destruct E as [E _].
           rewrite decr_inQueue. rewrite (@inQueue_other _ _ _ _ _ E Hne).
           split; [reflexivity|intros H; discriminate].
        -- split; reflexivity.
      * rewrite Hother by (auto; unfold Job.key; congruence).
        destruct (inQueue (userOrgId user) (Some q) r
                  && (Job.orderInQueue job <? Job.orderInQueue r)) eqn:E.
        -- apply andb_true_iff in E. destruct E as [E _].
           rewrite decr_inQueue. rewrite (@inQueue_other _ _ _ _ _ E Hne).
           split; [reflexivity|intros H; discriminate].
        -- split; reflexivity.
    + exists (g job). split; [apply in_map; exact Hin|].
      rewrite Hgjob.
      destruct (leaveQueue_fields env user job) as (A & B & C & D & E & _).
      rewrite D, Hst. auto.
Qed.


(** ** The frame of the job routes *)

Lemma sameVersion_refl org r : sameVersion org r r.
Proof. unfold sameVersion. tauto. Qed.

Lemma sameVersion_trans org a b c :
  sameVersion org a b -> sameVersion org b c -> sameVersion org a c.
Proof.
  unfold sameVersion. intros H1 H2.
  destruct H1 as (A1 & A2 & A3 & A4 & A5 & A6 & A7 & A8 & A9 & A10 & A11 & A12).
  destruct H2 as (B1 & B2 & B3 & B4 & B5 & B6 & B7 & B8 & B9 & B10 & B11 & B12).
  repeat (split; [congruence|]).
  intros Hne. rewrite B12 by congruence. auto.
Qed.

Lemma apply1_sameVersion org a r :
  writesAgent a = false -> Job.orgId r = org -> sameVersion org r (Job.apply1 a r).
Proof.
  intros Ha Hr. unfold sameVersion.
  destruct r, a; try discriminate Ha; cbn in *; repeat (split; [reflexivity|]);
    intros Hne; contradiction.
Qed.

Lemma apply1_orgId a r : Job.orgId (Job.apply1 a r) = Job.orgId r.
Proof. destruct r, a; reflexivity. Qed.

Lemma set_sameVersion org s : forall r,
  forallb (fun a => negb (writesAgent a)) s = true -> Job.orgId r = org ->
  sameVersion org r (Job.set s r).
Proof.
  unfold Job.set. induction s as [|a s IH]; intros r Hs Hr; cbn [fold_left].
  - apply sameVersion_refl.
  - cbn [forallb] in Hs. apply andb_true_iff in Hs. destruct Hs as [Ha Hs].
    apply negb_true_iff in Ha.
    eapply sameVersion_trans; [apply apply1_sameVersion; eassumption|].
    apply IH; [exact Hs|]. now rewrite apply1_orgId.
Qed.

Lemma Forall2_sameVersion_refl org l : Forall2 (sameVersion org) l l.
Proof. induction l; constructor; auto using sameVersion_refl. Qed.

Lemma Forall2_sameVersion_trans org a b c :
  Forall2 (sameVersion org) a b -> Forall2 (sameVersion org) b c ->
  Forall2 (sameVersion org) a c.
Proof.
  intros H. revert c. induction H; intros c Hc; inversion Hc; subst; constructor.
  - eapply sameVersion_trans; eassumption.
  - auto.
Qed.

Lemma routeFrame_refl org d : routeFrame org d d.
Proof.
  unfold routeFrame. split.
  - exists (jobs d), []. rewrite app_nil_r.
    repeat split; [apply Forall2_sameVersion_refl | constructor].
  - split; [exists []; now rewrite app_nil_r|]. tauto.
Qed.

Lemma routeFrame_trans org d1 d2 d3 :
  routeFrame org d1 d2 -> routeFrame org d2 d3 -> routeFrame org d1 d3.
Proof.
  intros ((o1 & n1 & E1 & F1 & P1) & (w1 & W1) & A1 & Q1 & K1 & S1 & T1)
         ((o2 & n2 & E2 & F2 & P2) & (w2 & W2) & A2 & Q2 & K2 & S2 & T2).
  unfold routeFrame. split; [|split; [|repeat split; congruence]].
  - rewrite E1 in F2. apply Forall2_app_inv_l in F2.
    destruct F2 as (o2a & o2b & Fa & Fb & ->).
    exists o2a, (o2b ++ n2)%list. split; [now rewrite E2, app_assoc|]. split.
    + eapply Forall2_sameVersion_trans; eassumption.
    + apply Forall_app. split; [|exact P2].
      clear - Fb P1. induction Fb as [|x y l l' Hxy Fb IH]; [constructor|].
      inversion P1 as [|? ? Px Pl]; subst. constructor; auto.
      destruct Hxy as (_ & Ho & Ha & _). destruct Px as [Px1 Px2]. split; congruence.
  - exists (w1 ++ w2)%list. now rewrite W2, W1, app_assoc.
Qed.

Lemma keeps_ret org A (a : A) : keeps org (ret a).
Proof. intros d. apply routeFrame_refl. Qed.

Lemma keeps_throw org A e : keeps org (@throw A e).
Proof. intros d. apply routeFrame_refl. Qed.

Lemma keeps_bind org A B (m : M A) (k : A -> M B) :
  keeps org m -> (forall a, keeps org (k a)) -> keeps org (bind m k).
Proof.
  intros Hm Hk d. unfold bind. specialize (Hm d).
  destruct (m d) as [d' [a|e]]; cbn [fst] in *.
  - eapply routeFrame_trans; [exact Hm | apply Hk].
  - exact Hm.
Qed.

Lemma keeps_bind_reads org A B (m : M A) (k : A -> M B) Q :
  reads m Q -> (forall a, Q a -> keeps org (k a)) -> keeps org (bind m k).
Proof.
  intros Hm Hk d. unfold bind. destruct (Hm d) as [Hd Hq].
  destruct (m d) as [d' [a|e]]; cbn [fst snd] in *; subst d'.
  - apply Hk. apply Hq. reflexivity.
  - apply routeFrame_refl.
Qed.

Lemma reads_keeps org A (m : M A) Q : reads m Q -> keeps org m.
Proof. intros H d. destruct (H d) as [-> _]. apply routeFrame_refl. Qed.

Lemma keeps_tryCatch org A (body : M A) (h : string -> M A) :
  keeps org body -> (forall e, keeps org (h e)) -> keeps org (tryCatch body h).
Proof.
  intros Hb Hh d. unfold tryCatch. specialize (Hb d).
  destruct (body d) as [d' [a|e]]; cbn [fst] in *.
  - exact Hb.
  - eapply routeFrame_trans; [exact Hb | apply Hh].
Qed.

Lemma reads_selectJobs p :
  reads (selectJobs p) (fun rows => forall r, In r rows -> p r = true).
Proof.
  intros d. split; [reflexivity|]. intros a H. cbn in H. injection H as <-.
  intros r Hr. unfold selectWhere in Hr. apply filter_In in Hr. tauto.
Qed.

Lemma keeps_selectJobs org p : keeps org (selectJobs p).
Proof. eapply reads_keeps, reads_selectJobs. Qed.

Lemma reads_selectLatest id org :
  reads (selectLatest id org)
        (fun o => forall j, o = Some j -> Job.id j = id /\ Job.orgId j = org).
Proof.
  intros d. split; [reflexivity|]. intros a H. cbn in H. injection H as <-.
  intros j Hj. apply maxVersion_found in Hj. tauto.
Qed.

Lemma reads_getNextQueuePosition org q :
  reads (getNextQueuePosition org q) (fun _ => True).
Proof. intros d. rewrite getNextQueuePosition_run. split; [reflexivity|auto]. Qed.

Lemma reads_bindInt4 z : reads (bindInt4 z) (fun _ => True).
Proof.
  intros d. unfold bindInt4. destruct z as [v|]; [destruct (int4 v)|];
    split; auto.
Qed.

Lemma keeps_bindInt4 org z : keeps org (bindInt4 z).
Proof. eapply reads_keeps, reads_bindInt4. Qed.

Lemma keeps_getNextQueuePosition org org' q : keeps org (getNextQueuePosition org' q).
Proof. eapply reads_keeps, reads_getNextQueuePosition. Qed.

Lemma with_jobs_frame org f d :
  Forall2 (sameVersion org) (jobs d) (f (jobs d)) -> routeFrame org d (with_jobs f d).
Proof.
  intros H. unfold routeFrame. cbn. split.
  - exists (f (jobs d)), []. rewrite app_nil_r. repeat split; [exact H | constructor].
  - split; [exists []; now rewrite app_nil_r|]. tauto.
Qed.

Lemma keeps_updateJobs org p s :
  (forall r, p r = true -> sameVersion org r (Job.set s r)) ->
  keeps org (updateJobs p s).
Proof.
  intros H d. unfold updateJobs, modifyDb. cbn [fst]. apply with_jobs_frame.
  unfold updateWhere. induction (jobs d) as [|r l IH]; cbn [map]; constructor; [|exact IH].
  destruct (p r) eqn:E; [apply H, E | apply sameVersion_refl].
Qed.

Lemma keeps_insertJob org j :
  Job.orgId j = org -> Job.agentId j = None -> keeps org (insertJob j).
Proof.
  intros Ho Ha d. unfold insertJob. destruct (existsb _ _); cbn [fst].
  - apply routeFrame_refl.
  - unfold routeFrame. cbn. split.
    + exists (jobs d), [j]. repeat split; [apply Forall2_sameVersion_refl|].
      constructor; [split; assumption | constructor].
    + split; [exists []; now rewrite app_nil_r|]. tauto.
Qed.

Lemma reads_insertJob j : forall d a, snd (insertJob j d) = Return a -> a = j.
Proof.
  intros d a. unfold insertJob. destruct (existsb _ _); cbn; congruence.
Qed.

Lemma keeps_createActivity org env jobId name summary userId orgId :
  keeps org (createActivity env jobId name summary userId orgId).
Proof.
  intros d. unfold createActivity, tryCatch, insertActivity, ret.
  destruct (activityInsertThrows env); cbn [fst].
  - apply routeFrame_refl.
  - unfold routeFrame. cbn. split.
    + exists (jobs d), []. rewrite app_nil_r.
      repeat split; [apply Forall2_sameVersion_refl | constructor].
    + split; [eexists; reflexivity|]. tauto.
Qed.

Lemma keeps_forEach org A (f : A -> M unit) l :
  (forall x, keeps org (f x)) -> keeps org (forEach f l).
Proof.
  intros H. induction l as [|x l IH]; cbn [forEach].
  - apply keeps_ret.
  - apply keeps_bind; [apply H | intros _; exact IH].
Qed.

Lemma keeps_handler org (body : M Reply) f d :
  keeps org body -> routeFrame org d (fst (handler body f d)).
Proof.
  intros H. unfold handler. specialize (H d). destruct (body d) as [d' [r|e]]; exact H.
Qed.

(** The writes of the routes leave [sameVersion] rows: they name the
    caller's organisation and never [agent_id]. *)
Ltac frame_row :=
  let r := fresh "r" in
  let Hp := fresh "Hp" in
  intros r Hp; apply set_sameVersion; [reflexivity|];
  first
    [ apply keyOrgIs_key in Hp; destruct Hp as [_ Hp]; exact Hp
    | apply andb_true_iff in Hp; destruct Hp as [Hp _]; apply inQueue_org in Hp; exact Hp ].

Ltac keeps_step :=
  first
    [ apply keeps_ret
    | apply keeps_throw
    | apply keeps_selectJobs
    | apply keeps_getNextQueuePosition
    | apply keeps_bindInt4
    | apply keeps_createActivity
    | apply keeps_updateJobs; frame_row
    | apply keeps_forEach; intros ?
    | apply keeps_bind; [| intros ?]
    | match goal with
      | |- keeps _ (match ?x with _ => _ end) => destruct x
      | |- keeps _ (if ?x then _ else _) => destruct x
      | |- keeps _ (let '(_, _) := ?x in _) => destruct x
      end ].

Lemma keeps_reprioritize org env q p :
  keeps org (reprioritizeQueueAfterRemoval env org q p).
Proof. unfold reprioritizeQueueAfterRemoval. repeat keeps_step. Qed.

Lemma keeps_removeJobFromQueue org env id ver u :
  keeps org (removeJobFromQueue env id org ver u).
Proof. unfold removeJobFromQueue. repeat keeps_step. Qed.

Lemma keeps_queueMoves env user body cur :
  keeps (userOrgId user) (queueMoves env user body cur).
Proof.
  unfold queueMoves, reprioritizeQueueAfterRemoval. repeat keeps_step.
Qed.


Lemma reads_ret A (a : A) (Q : A -> Prop) : Q a -> reads (ret a) Q.
Proof. intros H d. split; [reflexivity|]. intros b E. cbn in E. now injection E as <-. Qed.

Lemma reads_bind A B (m : M A) (k : A -> M B) Q Q' :
  reads m Q -> (forall a, Q a -> reads (k a) Q') -> reads (bind m k) Q'.
Proof.
  intros Hm Hk d. unfold bind. destruct (Hm d) as [Hd Hq].
  destruct (m d) as [d' [a|e]]; cbn [fst snd] in *; subst d'.
  - apply Hk. apply Hq. reflexivity.
  - split; [reflexivity|]. intros b E. discriminate.
Qed.

Lemma noAgent_app l1 l2 :
  forallb (fun a => negb (writesAgent a)) (l1 ++ l2)
  = forallb (fun a => negb (writesAgent a)) l1
    && forallb (fun a => negb (writesAgent a)) l2.
Proof. apply forallb_app. Qed.

(** The [updateData] of the in-place branch never names [agent_id]. *)
Lemma reads_inPlaceUpdateData env user body cur n t :
  reads (inPlaceUpdateData env user body cur n t)
        (fun l => forallb (fun a => negb (writesAgent a)) l = true).
Proof.
  unfold inPlaceUpdateData.
  eapply reads_bind with (Q := fun l => forallb (fun a => negb (writesAgent a)) l = true).
  - destruct (uj_status body) as [st|]; [|apply reads_ret; reflexivity].
    eapply reads_bind with (Q := fun l => forallb (fun a => negb (writesAgent a)) l = true).
    + destruct st; try (apply reads_ret; reflexivity).
      destruct (queue_type body), t;
        try (apply reads_ret; reflexivity);
        (eapply reads_bind; [apply reads_getNextQueuePosition|]);
        intros ? _; apply reads_ret; reflexivity.
    + intros l Hl. apply reads_ret.
      cbn [concat]. rewrite !noAgent_app, Hl.
      destruct (negb (JobStatus_beq st (Job.status cur))); reflexivity.
  - intros l Hl. apply reads_ret.
    cbn [concat]. rewrite !noAgent_app, Hl.
    destruct (promptChanged body cur), (generated_name body), (generated_description body),
      (uj_priority body), (order_in_queue body), (user_comments body),
      (user_acceptance_status body), t, (JobStatus_beq (Job.status cur) Queued);
      reflexivity.
Qed.

Ltac keeps_more :=
  first
    [ keeps_step
    | apply keeps_insertJob; [cbn; auto | reflexivity]
    | apply keeps_reprioritize
    | apply keeps_removeJobFromQueue ].

Lemma postJob_frame env user body d :
  routeFrame (userOrgId user) d (fst (postJob env user body d)).
Proof. unfold postJob. apply keeps_handler. repeat keeps_more. Qed.

Lemma deleteJob_frame env user id d :
  routeFrame (userOrgId user) d (fst (deleteJob env user id d)).
Proof.
  unfold deleteJob. apply keeps_handler.
  unfold selectLatest. repeat keeps_more.
Qed.

Lemma executeJob_frame env user id d :
  routeFrame (userOrgId user) d (fst (executeJob env user id d)).
Proof.
  unfold executeJob. apply keeps_handler.
  unfold selectLatest. repeat keeps_more.
Qed.

Lemma keeps_reorderOne env user id ver ji :
  keeps (userOrgId user) (reorderOne env user id ver ji).
Proof. unfold reorderOne. repeat keeps_more. Qed.

Lemma reprioritizeJob_frame env user id position d :
  routeFrame (userOrgId user) d (fst (reprioritizeJob env user id position d)).
Proof.
  unfold reprioritizeJob. apply keeps_handler.
  unfold selectLatest.
  repeat first [apply keeps_reorderOne | keeps_more].
Qed.

Lemma keeps_putNewVersion env user id body cur n t :
  Job.orgId cur = userOrgId user ->
  keeps (userOrgId user) (putNewVersion env user id body cur n t).
Proof. intros Ho. unfold putNewVersion. repeat keeps_more. Qed.

Lemma keeps_putInPlace env user id body cur n t :
  keeps (userOrgId user) (putInPlace env user id body cur n t).
Proof.
  unfold putInPlace.
  eapply keeps_bind_reads; [apply reads_inPlaceUpdateData|].
  intros l Hl. cbv beta in Hl.
  apply keeps_bind; [apply keeps_bindInt4 | intros _].
  apply keeps_bind.
  - apply keeps_updateJobs. intros r Hp. apply set_sameVersion; [exact Hl|].
    apply keyOrgIs_key in Hp. tauto.
  - intros _. repeat keeps_more.
Qed.

Lemma putJob_frame env user id body d :
  routeFrame (userOrgId user) d (fst (putJob env user id body d)).
Proof.
  unfold putJob. apply keeps_handler.
  eapply keeps_bind_reads; [apply reads_selectLatest|].
  intros [cur|] Hq; [|apply keeps_ret].
  destruct (Hq cur eq_refl) as [_ Ho].
  destruct (_ && _); [apply keeps_ret|].
  apply keeps_bind; [apply keeps_queueMoves|].
  intros [n t]. destruct (needsNewVersion env body cur).
  - apply keeps_putNewVersion. exact Ho.
  - apply keeps_putInPlace.
Qed.


Lemma step_frame o user d : opUser o = Some user -> routeFrame (userOrgId user) d (step o d).
Proof.
  destruct o; cbn [opUser step]; intros H; try discriminate; injection H as ->.
  - apply postJob_frame.
  - apply putJob_frame.
  - apply deleteJob_frame.
  - apply executeJob_frame.
  - apply reprioritizeJob_frame.
Qed.

Lemma Forall2_nth_error A B (R : A -> B -> Prop) l l' i a :
  Forall2 R l l' -> nth_error l i = Some a -> exists b, nth_error l' i = Some b /\ R a b.
Proof.
  intros H. revert i. induction H as [|x y l l' Hxy H IH]; intros [|i] Hi; cbn in *;
    try discriminate.
  - injection Hi as <-. eauto.
  - apply IH. exact Hi.
Qed.

(** X4.  No job route (create, update, archive, execute, reprioritize)
    deletes a row or moves it in the table, and none changes the key,
    organisation, agent, prompt, repository, logs or creation stamp of a stored
    row; the agents and the queue-pause table are left alone. *)
Theorem job_routes_keep_every_version o user d i r :
  opUser o = Some user ->
  nth_error (jobs d) i = Some r ->
  (exists r', nth_error (jobs (step o d)) i = Some r'
              /\ Job.key r' = Job.key r
              /\ Job.orgId r' = Job.orgId r
              /\ Job.agentId r' = Job.agentId r
              /\ Job.userInput r' = Job.userInput r
              /\ Job.repoId r' = Job.repoId r
              /\ Job.codeGenerationLogs r' = Job.codeGenerationLogs r
              /\ Job.codeVerificationLogs r' = Job.codeVerificationLogs r
              /\ Job.createdAt r' = Job.createdAt r
              /\ Job.createdBy r' = Job.createdBy r)
  /\ agents (step o d) = agents d
  /\ queueStatus (step o d) = queueStatus d.
Proof.
  intros Hu Hi.
  destruct (step_frame o d Hu) as ((old & new & E & F & _) & _ & Ha & Hq & _).
  split; [|split; assumption].
  destruct (Forall2_nth_error i F Hi) as (r' & Hr' & S).
  exists r'. split.
  - rewrite E. rewrite nth_error_app1; [exact Hr'|].
    apply nth_error_Some. congruence.
  - unfold sameVersion in S. tauto.
Qed.

(** X5.  A job route called by a user leaves every row of another
    organisation exactly as it was, and any row it adds belongs to the
    caller's organisation and carries no agent. *)
Theorem job_routes_stay_in_their_organisation o user d :
  opUser o = Some user ->
  (forall i r, nth_error (jobs d) i = Some r -> Job.orgId r <> userOrgId user ->
               nth_error (jobs (step o d)) i = Some r)
  /\ (forall i r, nth_error (jobs (step o d)) i = Some r ->
                  (length (jobs d) <= i)%nat ->
                  Job.orgId r = userOrgId user /\ Job.agentId r = None).
Proof.
  intros Hu.
  destruct (step_frame o d Hu) as ((old & new & E & F & P) & _).
  pose proof (Forall2_length F) as Hlen.
  split.
  - intros i r Hi Hne.
    destruct (Forall2_nth_error i F Hi) as (r' & Hr' & S).
    rewrite E. rewrite nth_error_app1 by (apply nth_error_Some; congruence).
    destruct S as (_ & _ & _ & _ & _ & _ & _ & _ & _ & _ & _ & S).
    rewrite <- (S Hne). exact Hr'.
  - intros i r Hi Hge. rewrite E in Hi.
    rewrite nth_error_app2 in Hi by lia.
    apply nth_error_In in Hi. rewrite Forall_forall in P. apply P, Hi.
Qed.


(** ** Client errors come before any write *)

Lemma no4xx_ret r : ~ (400 <= code r < 500) -> no4xx (ret r).
Proof. intros H d r' E. cbn in E. now injection E as <-. Qed.

Lemma no4xx_throw e : no4xx (throw e).
Proof. intros d r E. discriminate. Qed.

Lemma no4xx_bind A (m : M A) (k : A -> M Reply) :
  (forall a, no4xx (k a)) -> no4xx (bind m k).
Proof.
  intros Hk d r. unfold bind. destruct (m d) as [d' [a|e]]; [apply Hk | discriminate].
Qed.

Lemma clean_ret r : clean (ret r).
Proof. intros d r' _ _. reflexivity. Qed.

Lemma clean_no4xx m : no4xx m -> clean m.
Proof. intros H d r E Hc. exfalso. exact (H d r E Hc). Qed.

Lemma clean_bind_reads A (m : M A) (k : A -> M Reply) Q :
  reads m Q -> (forall a, clean (k a)) -> clean (bind m k).
Proof.
  intros Hm Hk d r. unfold bind. destruct (Hm d) as [Hd _].
  destruct (m d) as [d' [a|e]]; cbn [fst snd] in *; subst d'.
  - apply Hk.
  - discriminate.
Qed.

Lemma clean_handler body f : clean body -> rejectsCleanly (handler body f).
Proof.
  intros H d. unfold handler. specialize (H d).
  destruct (body d) as [d' [r|e]]; cbn [fst snd] in *.
  - intros Hc. apply (H r eq_refl Hc).
  - cbn. lia.
Qed.

Ltac no4xx_step :=
  first
    [ apply no4xx_ret; cbn; lia
    | apply no4xx_throw
    | apply no4xx_bind; intros ?
    | match goal with
      | |- no4xx (match ?x with _ => _ end) => destruct x
      | |- no4xx (if ?x then _ else _) => destruct x
      | |- no4xx (let '(_, _) := ?x in _) => destruct x
      end ].

Ltac clean_step :=
  first
    [ apply clean_ret
    | eapply clean_bind_reads;
        [ first [ apply reads_selectLatest | apply reads_selectJobs
                | apply reads_getNextQueuePosition | apply reads_bindInt4 ] | intros ? ]
    | match goal with
      | |- clean (match ?x with _ => _ end) => destruct x
      | |- clean (if ?x then _ else _) => destruct x
      | |- clean (let '(_, _) := ?x in _) => destruct x
      end
    | apply clean_no4xx; repeat no4xx_step ].

Lemma no4xx_putNewVersion env user id body cur n t :
  no4xx (putNewVersion env user id body cur n t).
Proof. unfold putNewVersion. repeat no4xx_step. Qed.

Lemma no4xx_putInPlace env user id body cur n t :
  no4xx (putInPlace env user id body cur n t).
Proof. unfold putInPlace. repeat no4xx_step. Qed.

(** X6.  Whenever create, update, archive, execute or reprioritize
    answers with a 4xx code, the database is exactly as before the call: every
    check that rejects a request runs before the first write. *)
Theorem client_errors_write_nothing env user :
  (forall body, rejectsCleanly (postJob env user body))
  /\ (forall id body, rejectsCleanly (putJob env user id body))
  /\ (forall id, rejectsCleanly (deleteJob env user id))
  /\ (forall id, rejectsCleanly (executeJob env user id))
  /\ (forall id position, rejectsCleanly (reprioritizeJob env user id position)).
Proof.
  split; [|split; [|split; [|split]]]; intros.
  - unfold postJob. apply clean_handler. repeat clean_step.
  - unfold putJob. apply clean_handler.
    eapply clean_bind_reads; [apply reads_selectLatest|]. intros [cur|]; [|apply clean_ret].
    destruct (_ && _); [apply clean_ret|].
    apply clean_no4xx. apply no4xx_bind. intros [n t].
    destruct (needsNewVersion env body cur);
      [apply no4xx_putNewVersion | apply no4xx_putInPlace].
  - unfold deleteJob. apply clean_handler. repeat clean_step.
  - unfold executeJob. apply clean_handler. repeat clean_step.
  - unfold reprioritizeJob. apply clean_handler. repeat clean_step.
Qed.


(** ** The in-place branch of [PUT /jobs/:id] *)

Lemma apply1_key a r : Job.key (Job.apply1 a r) = Job.key r.
Proof. destruct r, a; reflexivity. Qed.

Lemma set_key s : forall r, Job.key (Job.set s r) = Job.key r.
Proof.
  unfold Job.set. induction s as [|a s IH]; intros r; cbn [fold_left]; [reflexivity|].
  now rewrite IH, apply1_key.
Qed.

Lemma set_orgId s : forall r, Job.orgId (Job.set s r) = Job.orgId r.
Proof.
  unfold Job.set. induction s as [|a s IH]; intros r; cbn [fold_left]; [reflexivity|].
  now rewrite IH, apply1_orgId.
Qed.
















(** ** [DELETE /jobs/:id] *)

Lemma set_id s r : Job.id (Job.set s r) = Job.id r.
Proof. exact (f_equal fst (set_key s r)). Qed.

Lemma set_version s r : Job.version (Job.set s r) = Job.version r.
Proof. exact (f_equal snd (set_key s r)). Qed.

Lemma maxVersion_map (g : Job.t -> Job.t) l :
  (forall x, Job.version (g x) = Job.version x) ->
  maxVersion (map g l) = option_map g (maxVersion l).
Proof.
  intros Hg. induction l as [|x l IH]; cbn [map maxVersion]; [reflexivity|].
  rewrite IH. destruct (maxVersion l) as [m|]; cbn [option_map]; [|reflexivity].
  rewrite !Hg. destruct (Job.version x <? Job.version m); reflexivity.
Qed.

Lemma filter_key_single (tbl : list Job.t) x :
  NoDup (map Job.key tbl) -> In x tbl ->
  filter (keyOrgIs (Job.id x) (Job.version x) (Job.orgId x)) tbl = [x].
Proof.
  intros Hnd Hin. induction tbl as [|y tbl IH]; [contradiction|].
  cbn [map] in Hnd. inversion Hnd as [|? ? Hnotin Hnd']; subst.
  assert (Hnone : forall l, (forall z, In z l -> Job.key z <> Job.key x) ->
                    filter (keyOrgIs (Job.id x) (Job.version x) (Job.orgId x)) l = []).
  { induction l as [|z l IHl]; intros H; [reflexivity|]. cbn [filter].
    destruct (keyOrgIs _ _ _ z) eqn:E.
    - exfalso. apply keyOrgIs_key in E. destruct E as [E _].
      apply (H z (or_introl eq_refl)). exact E.
    - apply IHl. intros w Hw. apply H. right; exact Hw. }
  cbn [filter]. destruct Hin as [->|Hin].
  - rewrite keyOrgIs_self. f_equal. apply Hnone. intros z Hz E.
    apply Hnotin. rewrite <- E. apply in_map. exact Hz.
  - destruct (keyOrgIs _ _ _ y) eqn:E.
    + exfalso. apply keyOrgIs_key in E. destruct E as [E _].
      apply Hnotin. change (Job.id x, Job.version x) with (Job.key x) in E.
      rewrite E. apply in_map. exact Hin.
    + apply IH; assumption.
Qed.

Lemma archive_fields env user r :
  let r' := Job.set [Job.SetStatus Archived; Job.SetUpdatedAt (now env);
                     Job.SetUpdatedBy (userId user)] r in
  Job.status r' = Archived /\ Job.queueType r' = Job.queueType r
  /\ Job.orderInQueue r' = Job.orderInQueue r /\ Job.agentId r' = Job.agentId r
  /\ Job.id r' = Job.id r /\ Job.version r' = Job.version r /\ Job.orgId r' = Job.orgId r.
Proof. destruct r; cbn. repeat split. Qed.

(** X9.  [DELETE /jobs/:id] on a job whose latest version is not archived
    answers 200 with that row, rewrites only that row (status [archived],
    [updated_at], [updated_by]) and leaves its [queue_type], [order_in_queue]
    and agent as they were; a second [DELETE] is answered 400 and writes
    nothing. *)
Theorem delete_archives_latest_version_once env env' user id d cur :
  NoDup (map Job.key (jobs d)) ->
  maxVersion (selectWhere (idOrgIs id (userOrgId user)) (jobs d)) = Some cur ->
  Job.status cur <> Archived ->
  let cur' := Job.set [Job.SetStatus Archived; Job.SetUpdatedAt (now env);
                       Job.SetUpdatedBy (userId user)] cur in
  let res := deleteJob env user id d in
  snd res = sendJob 200 cur'
  /\ jobs (fst res) = map (fun r => if Job.key_eqb r cur then cur' else r) (jobs d)
  /\ Job.status cur' = Archived
  /\ Job.queueType cur' = Job.queueType cur
  /\ Job.orderInQueue cur' = Job.orderInQueue cur
  /\ Job.agentId cur' = Job.agentId cur
  /\ deleteJob env' user id (fst res) = (fst res, sendError 400 "Job is already archived").
Proof.
  intros Hnd Hcur Hst cur' res.
  destruct (@maxVersion_found id (userOrgId user) (jobs d) cur Hcur) as (Hin & Hid & Horg).
  set (S := [Job.SetStatus Archived; Job.SetUpdatedAt (now env);
             Job.SetUpdatedBy (userId user)]) in *.
  set (p := keyOrgIs id (Job.version cur) (userOrgId user)).
  destruct (archive_fields env user cur) as (A1 & A2 & A3 & A4 & A5 & A6 & A7).
  fold S in A1, A2, A3, A4, A5, A6, A7. fold cur' in A1, A2, A3, A4, A5, A6, A7.
  assert (Hupd : updateWhere p S (jobs d)
                 = map (fun r => if Job.key_eqb r cur then cur' else r) (jobs d)).
  { unfold updateWhere. apply map_ext_in. intros r Hr.
    destruct (Job.key_eqb r cur) eqn:E.
    - apply key_eqb_eq in E. assert (r = cur) by (apply (key_unique (jobs d)); auto).
      subst r. unfold p. rewrite <- Hid, <- Horg, keyOrgIs_self. reflexivity.
    - destruct (p r) eqn:E2; [|reflexivity]. exfalso.
      apply keyOrgIs_key in E2. destruct E2 as [E2 _].
      assert (Job.key_eqb r cur = true).
      { apply key_eqb_eq. rewrite E2. unfold Job.key. now rewrite Hid. }
      congruence. }
  assert (Hnd' : NoDup (map Job.key (updateWhere p S (jobs d)))).
  { unfold updateWhere. rewrite map_map.
    erewrite map_ext; [exact Hnd|]. intros r. cbv beta.
    destruct (p r); [apply set_key | reflexivity]. }
  assert (Hin' : In cur' (updateWhere p S (jobs d))).
  { unfold updateWhere. apply in_map_iff. exists cur. split; [|exact Hin].
    unfold p. rewrite <- Hid, <- Horg, keyOrgIs_self. reflexivity. }
  assert (Hsel : selectWhere p (updateWhere p S (jobs d)) = [cur']).
  { assert (Hp : p = keyOrgIs (Job.id cur') (Job.version cur') (Job.orgId cur')).
    { unfold p. rewrite A5, A6, A7, Hid, Horg. reflexivity. }
    unfold selectWhere. rewrite Hp at 1. apply filter_key_single; assumption. }
  assert (Hs : JobStatus_beq (Job.status cur) Archived = false).
  { apply not_true_is_false. intros E. apply JobStatus_beq_eq in E. contradiction. }
  assert (Eres : snd res = sendJob 200 cur'
                 /\ jobs (fst res) = updateWhere p S (jobs d)).
  { subst res. remember (deleteJob env user id d) as r0 eqn:E0.
    unfold deleteJob, handler in E0.
    unfold bind at 1, selectLatest, bind at 1, selectJobs, ret at 1 in E0.
    rewrite Hcur, Hs in E0. unfold bind at 1, updateJobs, modifyDb in E0.
    unfold bind at 1 in E0. cbn [jobs with_jobs] in E0. fold S p in E0.
    rewrite Hsel in E0. unfold bind at 1 in E0.
    match type of E0 with
    | context [createActivity ?e ?a ?b ?c ?u0 ?o ?dd] =>
        pose proof (createActivity_returns e a b c u0 o dd) as (Hret & _ & _);
        pose proof (createActivity_jobs e a b c u0 o dd) as Hjobs;
        destruct (createActivity e a b c u0 o dd) as [d2 o2]
    end.
    cbn [snd fst] in Hret, Hjobs. subst o2. unfold ret in E0. subst r0. cbn [fst snd].
    split; [reflexivity | exact Hjobs]. }
  destruct Eres as [Eres Hjobs].
  split; [exact Eres|].
  split; [rewrite Hjobs; exact Hupd|].
  repeat (split; [assumption|]).
  (* the second call *)
  assert (Hcur2 : maxVersion (selectWhere (idOrgIs id (userOrgId user)) (jobs (fst res)))
                  = Some cur').
  { rewrite Hjobs. unfold updateWhere, selectWhere.
    rewrite filter_map_comm.
    assert (Hf : filter (fun x => idOrgIs id (userOrgId user)
                                    (if p x then Job.set S x else x)) (jobs d)
                 = filter (idOrgIs id (userOrgId user)) (jobs d)).
    { apply filter_ext. intros x. unfold idOrgIs. destruct (p x); [|reflexivity].
      now rewrite set_orgId, set_id. }
    rewrite Hf, maxVersion_map.
    - unfold selectWhere in Hcur. rewrite Hcur.
      cbn [option_map]. unfold p. rewrite <- Hid, <- Horg, keyOrgIs_self. reflexivity.
    - intros x. destruct (p x); [apply set_version | reflexivity]. }
  generalize dependent (fst res). intros d1 Hjobs Hcur2.
  unfold deleteJob, handler.
  unfold bind at 1, selectLatest, bind at 1, selectJobs, ret at 1.
  rewrite Hcur2, A1. reflexivity.
Qed.


(** ** [GET /jobs/:id] *)

Lemma getJob_latest user id d :
  getJob user id None d
  = (d, match maxVersion (selectWhere (idOrgIs id (userOrgId user)) (jobs d)) with
        | Some j => sendJob 200 j
        | None => sendError 404 "Job not found"
        end).
Proof.
  unfold getJob, handler, truthyString, selectLatest, selectJobs, bind, ret.
  destruct (maxVersion _); reflexivity.
Qed.

Lemma getJob_version user id v n d :
  v <> EmptyString -> parseInt v = Some n ->
  getJob user id (Some v) d
  = (d, if int4 n
        then match hd_error (selectWhere (keyOrgIs id n (userOrgId user)) (jobs d)) with
             | Some j => sendJob 200 j
             | None => sendError 404 "Job not found"
             end
        else sendError 500 "Failed to fetch job").
Proof.
  intros Hv Hn. apply String.eqb_neq in Hv.
  unfold getJob, handler, truthyString. rewrite Hv, Hn.
  unfold bindInt4. destruct (int4 n); unfold selectJobs, bind, ret, throw;
    [destruct (hd_error _)|]; reflexivity.
Qed.

Lemma filter_none A (p : A -> bool) l :
  (forall x, In x l -> p x = false) -> filter p l = [].
Proof.
  induction l as [|x l IH]; intros H; [reflexivity|]. cbn [filter].
  rewrite (H x (or_introl eq_refl)). apply IH. intros y Hy. apply H. right; exact Hy.
Qed.


Lemma Forall2_filter A (R : A -> A -> Prop) (p : A -> bool) l l' :
  (forall a b, R a b -> p a = p b) ->
  Forall2 R l l' -> Forall2 R (filter p l) (filter p l').
Proof.
  intros Hp H. induction H as [|a b l l' Hab H IH]; cbn [filter]; [constructor|].
  rewrite (Hp a b Hab). destruct (p b); [constructor|]; assumption.
Qed.

(** X11.  A version that [GET /jobs/:id?version=v] returns is still
    returned after any job route has run, with the same key, prompt,
    repository, logs and agent; it is the very same row when the route was
    called from another organisation. *)
Theorem stored_version_stays_readable o writer user id v n d r :
  opUser o = Some writer ->
  v <> EmptyString -> parseInt v = Some n ->
  snd (getJob user id (Some v) d) = sendJob 200 r ->
  exists r',
    getJob user id (Some v) (step o d) = (step o d, sendJob 200 r')
    /\ Job.key r' = Job.key r
    /\ Job.userInput r' = Job.userInput r
    /\ Job.repoId r' = Job.repoId r
    /\ Job.codeGenerationLogs r' = Job.codeGenerationLogs r
    /\ Job.codeVerificationLogs r' = Job.codeVerificationLogs r
    /\ Job.agentId r' = Job.agentId r
    /\ (userOrgId user <> userOrgId writer -> r' = r).
Proof.
  intros Ho Hv Hn Hget.
  rewrite (@getJob_version user id v n d Hv Hn) in Hget. cbn [snd] in Hget.
  rewrite (@getJob_version user id v n (step o d) Hv Hn).
  destruct (int4 n); [|discriminate Hget].
  destruct (step_frame o d Ho) as ((old & new & E & F & _) & _).
  set (p := keyOrgIs id n (userOrgId user)) in *.
  assert (Hp : forall a b, sameVersion (userOrgId writer) a b -> p a = p b).
  { intros a b S. destruct S as (K & O & _). unfold p, keyOrgIs.
    unfold Job.key in K. injection K as -> ->. now rewrite O. }
  pose proof (Forall2_filter p Hp F) as FF.
  unfold selectWhere in *. rewrite E, filter_app.
  destruct (filter p (jobs d)) as [|r0 rest] eqn:Er; cbn [hd_error] in Hget;
    [discriminate|].
  injection Hget as ->.
  inversion FF as [|? r' ? rest' S FF' E1 E2]; subst.
  exists r'. cbn [app hd_error]. split; [reflexivity|].
  assert (Hr : In r (filter p (jobs d))) by (rewrite Er; left; reflexivity).
  apply filter_In in Hr. destruct Hr as [_ Hpr].
  apply keyOrgIs_key in Hpr. destruct Hpr as [_ Horg].
  unfold sameVersion in S.
  destruct S as (S1 & S2 & S3 & S4 & S5 & S6 & S7 & S8 & S9 & S10 & S11 & S12).
  repeat (split; [assumption|]).
  intros Hne. apply S12. congruence.
Qed.


(** ** Preprocess and the monitor workflow *)

Lemma ownedInProgress_eq agentId r :
  ownedInProgress agentId r = true <->
  Job.agentId r = Some agentId /\ Job.status r = InProgress.
Proof.
  unfold ownedInProgress. rewrite andb_true_iff, JobStatus_beq_eq.
  rewrite (option_beq_eq String.eqb String.eqb_eq). tauto.
Qed.

Lemma owned_is_orphan env org agentId r :
  ownedInProgress agentId r = true -> Job.orgId r = org ->
  isOrphan env org agentId r = true.
Proof.
  intros H Ho. unfold ownedInProgress in H. apply andb_true_iff in H. destruct H as [Ha Hs].
  unfold isOrphan. rewrite Ho, String.eqb_refl, Hs, Ha. reflexivity.
Qed.

(** The reset writes no agent: a row that carries one afterwards is a row of
    the table, untouched. *)
Lemma resetRow_agent env l r a :
  Job.agentId (resetRow env l r) = Some a -> resetRow env l r = r.
Proof.
  unfold resetRow. destruct (existsb _ _); [|reflexivity].
  destruct r; cbn. discriminate.
Qed.

Lemma afterReset_agent env org agentId tbl r' a :
  In r' (afterReset env org agentId tbl) -> Job.agentId r' = Some a -> In r' tbl.
Proof.
  unfold afterReset. intros Hin Ha. apply in_map_iff in Hin.
  destruct Hin as (r & <- & Hr). now rewrite (@resetRow_agent _ _ _ _ Ha).
Qed.

(** After the reset, a row in progress on the agent belongs to another
    organisation than the one the reset ran for. *)
Lemma owned_after_reset_is_foreign env org agentId tbl r :
  In r (afterReset env org agentId tbl) -> ownedInProgress agentId r = true ->
  Job.orgId r <> org.
Proof.
  intros Hin Ho Horg.
  pose proof (proj1 (ownedInProgress_eq agentId r) Ho) as [Ha _].
  unfold afterReset in Hin. apply in_map_iff in Hin. destruct Hin as (r0 & E & Hr0).
  pose proof E as E'. rewrite <- E in Ha. rewrite (@resetRow_agent _ _ _ _ Ha) in E'.
  subst r0.
  assert (Hor : isOrphan env org agentId r = true) by now apply owned_is_orphan.
  destruct (@orphan_reset_on_orphan env org agentId tbl r Hr0 Hor) as (A & _).
  cbv zeta in A. rewrite E in A.
  apply ownedInProgress_eq in Ho. destruct Ho as [_ Hs]. congruence.
Qed.

Lemma no_owned_after_reset env org agentId tbl :
  (forall r, In r tbl -> Job.agentId r = Some agentId -> Job.orgId r = org) ->
  selectWhere (ownedInProgress agentId) (afterReset env org agentId tbl) = [].
Proof.
  intros Horg. unfold selectWhere. apply filter_none.
  intros x Hx. apply not_true_is_false. intros Ho.
  apply (@owned_after_reset_is_foreign env org agentId tbl x Hx Ho).
  pose proof (proj1 (ownedInProgress_eq agentId x) Ho) as [Ha _].
  apply Horg; [|exact Ha]. exact (@afterReset_agent env org agentId tbl x agentId Hx Ha).
Qed.

(** For an agent whose rows lie in its organisation the run ends in the throw
    of the queue loop. *)
Lemma preprocess_throws env agentId d agent :
  find (agentIdIs agentId) (agents d) = Some agent ->
  Agent.status agent = Active ->
  (forall r, In r (jobs d) -> Job.agentId r = Some agentId ->
             Job.orgId r = Agent.orgId agent) ->
  preprocessActivity env agentId d
  = (with_jobs (afterReset env (Agent.orgId agent) agentId) d, Throw queueLookupError).
Proof.
  intros Hf Ha Horg.
  rewrite (@preprocess_active env agentId d agent Hf Ha). cbv zeta.
  cbn [jobs with_jobs].
  now rewrite (@no_owned_after_reset env (Agent.orgId agent) agentId (jobs d) Horg).
Qed.

(** No attempt returns a job, so neither do three. *)
Lemma preprocess_no_job env agentId d r :
  snd (preprocessActivity env agentId d) = Return r ->
  PreprocessResult.jobId r = None.
Proof.
  intros H.
  destruct (preprocess_cases env agentId d) as [E | (agent & _ & _ & _ & [E | E])];
    rewrite E in H; cbn [snd] in H; try discriminate; now injection H as <-.
Qed.

Lemma preprocessWithRetry_no_job env1 env2 env3 agentId d r :
  snd (preprocessWithRetry env1 env2 env3 agentId d) = Return r ->
  PreprocessResult.jobId r = None.
Proof.
  unfold preprocessWithRetry, tryCatch.
  pose proof (@preprocess_no_job env1 agentId d) as H1.
  destruct (preprocessActivity env1 agentId d) as [d1 [r1|e1]]; cbn [snd] in *.
  - intros E. injection E as <-. now apply H1.
  - pose proof (@preprocess_no_job env2 agentId d1) as H2.
    destruct (preprocessActivity env2 agentId d1) as [d2 [r2|e2]]; cbn [snd] in *.
    + intros E. injection E as <-. now apply H2.
    + apply preprocess_no_job.
Qed.

Lemma preprocessWithRetry_throws env1 env2 env3 agentId d agent :
  find (agentIdIs agentId) (agents d) = Some agent ->
  Agent.status agent = Active ->
  (forall r, In r (jobs d) -> Job.agentId r = Some agentId ->
             Job.orgId r = Agent.orgId agent) ->
  snd (preprocessWithRetry env1 env2 env3 agentId d) = Throw queueLookupError.
Proof.
  intros Hf Ha Horg. unfold preprocessWithRetry, tryCatch.
  assert (Hnext : forall env d0,
             find (agentIdIs agentId) (agents d0) = Some agent ->
             (forall r, In r (jobs d0) -> Job.agentId r = Some agentId ->
                        Job.orgId r = Agent.orgId agent) ->
             let d1 := with_jobs (afterReset env (Agent.orgId agent) agentId) d0 in
             find (agentIdIs agentId) (agents d1) = Some agent
             /\ (forall r, In r (jobs d1) -> Job.agentId r = Some agentId ->
                           Job.orgId r = Agent.orgId agent)).
  { intros env d0 Hf0 Horg0. cbv zeta. cbn [agents jobs with_jobs]. split; [exact Hf0|].
    intros r Hr Hag. apply Horg0; [|exact Hag].
    exact (@afterReset_agent env (Agent.orgId agent) agentId (jobs d0) r agentId Hr Hag). }
  rewrite (@preprocess_throws env1 agentId d agent Hf Ha Horg).
  destruct (Hnext env1 d Hf Horg) as [Hf1 Horg1].
  rewrite (@preprocess_throws env2 agentId _ agent Hf1 Ha Horg1).
  destruct (Hnext env2 _ Hf1 Horg1) as [Hf2 Horg2].
  rewrite (@preprocess_throws env3 agentId _ agent Hf2 Ha Horg2).
  reflexivity.
Qed.

(** X12.  [queueMonitorWorkflow] never starts the child workflow.  Its
    result and the database it leaves are those of the three attempts of
    Preprocess alone, whatever the child would do: [{processed: false}] when
    an attempt returned, and the failure of the third attempt otherwise.  For
    an active agent whose rows all lie in its organisation every attempt
    throws, so the workflow fails. *)
Theorem monitor_never_starts_a_child env1 env2 env3 executeChild agentId d :
  let pre := preprocessWithRetry env1 env2 env3 agentId d in
  let res := queueMonitorWorkflow env1 env2 env3 executeChild agentId d in
  fst res = fst pre
  /\ match snd pre with
     | Return _ => snd res = Return (MonitorResult.mk false None None)
     | Throw e => snd res = Throw e
     end
  /\ (forall agent,
        find (agentIdIs agentId) (agents d) = Some agent ->
        Agent.status agent = Active ->
        (forall r, In r (jobs d) -> Job.agentId r = Some agentId ->
                   Job.orgId r = Agent.orgId agent) ->
        snd res = Throw queueLookupError).
Proof.
  cbv zeta.
  assert (E : queueMonitorWorkflow env1 env2 env3 executeChild agentId d
              = (fst (preprocessWithRetry env1 env2 env3 agentId d),
                 match snd (preprocessWithRetry env1 env2 env3 agentId d) with
                 | Return _ => Return (MonitorResult.mk false None None)
                 | Throw e => Throw e
                 end)).
  { unfold queueMonitorWorkflow, bind.
    pose proof (@preprocessWithRetry_no_job env1 env2 env3 agentId d) as Hno.
    destruct (preprocessWithRetry env1 env2 env3 agentId d) as [d1 [r|e]];
      cbn [fst snd] in *; [|reflexivity].
    rewrite (Hno r eq_refl). reflexivity. }
  rewrite E. cbn [fst snd]. split; [reflexivity|]. split.
  - destruct (snd (preprocessWithRetry env1 env2 env3 agentId d)); reflexivity.
  - intros agent Hf Ha Horg.
    now rewrite (@preprocessWithRetry_throws env1 env2 env3 agentId d agent Hf Ha Horg).
Qed.

(** X13.  When every row that carries the agent's id belongs to the agent's
    organisation, Preprocess for an active agent never takes the heartbeat
    branch and never returns: it resets the orphans and throws at the first
    step of its queue loop.  Neither the agent row nor any stream is written;
    every orphan is back to [queued] with no agent, under its key and with the
    [queue_type] and [order_in_queue] it had; and no row is in progress on the
    agent afterwards. *)
Theorem preprocess_requeues_orphans_and_throws env agentId d agent :
  find (agentIdIs agentId) (agents d) = Some agent ->
  Agent.status agent = Active ->
  (forall r, In r (jobs d) -> Job.agentId r = Some agentId ->
             Job.orgId r = Agent.orgId agent) ->
  let org := Agent.orgId agent in
  let res := preprocessActivity env agentId d in
  snd res = Throw queueLookupError
  /\ jobs (fst res) = afterReset env org agentId (jobs d)
  /\ agents (fst res) = agents d
  /\ streamWrites (fst res) = streamWrites d
  /\ (forall r, In r (jobs d) -> isOrphan env org agentId r = true ->
        exists r', In r' (jobs (fst res))
                   /\ Job.key r' = Job.key r
                   /\ Job.status r' = Queued
                   /\ Job.agentId r' = None
                   /\ Job.queueType r' = Job.queueType r
                   /\ Job.orderInQueue r' = Job.orderInQueue r)
  /\ (forall r, In r (jobs (fst res)) -> ownedInProgress agentId r = false).
Proof.
  intros Hf Ha Horg org res. subst res.
  rewrite (@preprocess_throws env agentId d agent Hf Ha Horg). fold org.
  cbn [fst snd jobs agents streamWrites with_jobs].
  repeat (split; [reflexivity|]). split.
  - intros r Hr Hor.
    destruct (@orphan_reset_on_orphan env org agentId (jobs d) r Hr Hor)
      as (A & B & C & D & K).
    cbv zeta in A, B, C, D, K.
    exists (resetRow env (selectWhere (isOrphan env org agentId) (jobs d)) r).
    split; [|repeat split; assumption].
    unfold afterReset. apply in_map. exact Hr.
  - intros r Hr. apply not_true_is_false. intros Ho.
    pose proof (@no_owned_after_reset env org agentId (jobs d) Horg) as Hnone.
    assert (Hin : In r (selectWhere (ownedInProgress agentId)
                                    (afterReset env org agentId (jobs d))))
      by (apply filter_In; auto).
    rewrite Hnone in Hin. exact Hin.
Qed.


(** ** One job per agent *)

Lemma unique_ret A (a : A) : keysKept (ret a).
Proof. intros d H. exact H. Qed.

Lemma unique_throw A e : keysKept (@throw A e).
Proof. intros d H. exact H. Qed.

Lemma unique_bind A B (m : M A) (k : A -> M B) :
  keysKept m -> (forall a, keysKept (k a)) -> keysKept (bind m k).
Proof.
  intros Hm Hk d H. unfold bind. specialize (Hm d H).
  destruct (m d) as [d' [a|e]]; cbn [fst] in *; [now apply Hk | exact Hm].
Qed.

Lemma unique_reads A (m : M A) Q : reads m Q -> keysKept m.
Proof. intros Hm d H. destruct (Hm d) as [-> _]. exact H. Qed.

Lemma unique_updateJobs p s : keysKept (updateJobs p s).
Proof.
  intros d H. unfold updateJobs, modifyDb. cbn [fst jobs with_jobs].
  unfold updateWhere. rewrite map_keys_eq; [exact H|].
  intros x. destruct (p x); [apply set_key | reflexivity].
Qed.

Lemma key_eqb_false_notin j tbl :
  existsb (Job.key_eqb j) tbl = false -> ~ In (Job.key j) (map Job.key tbl).
Proof.
  intros E Hin. apply in_map_iff in Hin. destruct Hin as (r & Hk & Hr).
  assert (existsb (Job.key_eqb j) tbl = true); [|congruence].
  apply existsb_exists. exists r. split; [exact Hr|].
  unfold Job.key_eqb. unfold Job.key in Hk. injection Hk as -> ->.
  now rewrite String.eqb_refl, Z.eqb_refl.
Qed.

Lemma unique_insertJob j : keysKept (insertJob j).
Proof.
  intros d H. unfold insertJob. destruct (existsb _ _) eqn:E; cbn [fst]; [exact H|].
  cbn [jobs with_jobs]. rewrite map_app. cbn [map].
  apply NoDup_app; [exact H | constructor; [intros [] | constructor] |].
  intros k Hk [<-|[]]. exact (key_eqb_false_notin _ _ E Hk).
Qed.

Lemma unique_createActivity env jobId name summary userId orgId :
  keysKept (createActivity env jobId name summary userId orgId).
Proof. intros d H. now rewrite createActivity_jobs. Qed.

Lemma unique_forEach A (f : A -> M unit) l :
  (forall x, keysKept (f x)) -> keysKept (forEach f l).
Proof.
  intros H. induction l as [|x l IH]; cbn [forEach].
  - apply unique_ret.
  - apply unique_bind; [apply H | intros _; exact IH].
Qed.

Lemma unique_handler (body : M Reply) f d :
  keysKept body -> NoDup (map Job.key (jobs d)) ->
  NoDup (map Job.key (jobs (fst (handler body f d)))).
Proof.
  intros H Hd. unfold handler. specialize (H d Hd).
  destruct (body d) as [d' [r|e]]; exact H.
Qed.

Ltac unique_step :=
  first
    [ apply unique_ret
    | apply unique_throw
    | eapply unique_reads; apply reads_selectJobs
    | eapply unique_reads; apply reads_selectLatest
    | eapply unique_reads; apply reads_getNextQueuePosition
    | eapply unique_reads; apply reads_bindInt4
    | eapply unique_reads; apply reads_inPlaceUpdateData
    | apply unique_createActivity
    | apply unique_insertJob
    | apply unique_updateJobs
    | apply unique_forEach; intros ?
    | apply unique_bind; [| intros ?]
    | match goal with
      | |- keysKept (match ?x with _ => _ end) => destruct x
      | |- keysKept (if ?x then _ else _) => destruct x
      | |- keysKept (let '(_, _) := ?x in _) => destruct x
      end ].

(** No job route breaks the primary key, and neither does Preprocess. *)
Lemma step_keys o d :
  NoDup (map Job.key (jobs d)) -> NoDup (map Job.key (jobs (step o d))).
Proof.
  intros H. destruct o as [env u body | env u id body | env u id | env u id
                           | env u id pos | env a]; cbn [step].
  - unfold postJob. apply unique_handler; [|exact H]. repeat unique_step.
  - unfold putJob. apply unique_handler; [|exact H].
    unfold queueMoves, putNewVersion, putInPlace, reprioritizeQueueAfterRemoval.
    repeat unique_step.
  - unfold deleteJob. apply unique_handler; [|exact H]. repeat unique_step.
  - unfold executeJob. apply unique_handler; [|exact H].
    unfold removeJobFromQueue, reprioritizeQueueAfterRemoval. repeat unique_step.
  - unfold reprioritizeJob. apply unique_handler; [|exact H].
    unfold reorderOne. repeat unique_step.
  - destruct (preprocess_cases env a d) as [E | (agent & _ & _ & E & _)].
    + now rewrite E.
    + rewrite E. unfold afterReset. rewrite map_keys_eq; [exact H|].
      intros x. apply resetRow_key.
Qed.

(** No operation gives a row an agent: a row that carries one afterwards
    carried it before, under the same key. *)
Lemma step_agent o d r' a :
  In r' (jobs (step o d)) -> Job.agentId r' = Some a ->
  exists r, In r (jobs d) /\ Job.key r = Job.key r' /\ Job.agentId r = Some a.
Proof.
  intros Hin Ha.
  destruct (opUser o) as [user|] eqn:Hu.
  - destruct (step_frame o d Hu) as ((old & new & E & F & N) & _).
    rewrite E in Hin. apply in_app_or in Hin. destruct Hin as [Hin|Hin].
    + apply In_nth_error in Hin. destruct Hin as (i & Hi).
      destruct (Forall2_nth_error i (Forall2_flip F) Hi) as (r & Hr & S).
      cbv beta in S. destruct S as (K & _ & A & _).
      exists r. split; [exact (nth_error_In _ _ Hr)|]. split; congruence.
    + rewrite Forall_forall in N. destruct (N r' Hin) as [_ Hn]. congruence.
  - destruct o; cbn [opUser] in Hu; try discriminate. cbn [step] in Hin.
    destruct (preprocess_cases env agentId d) as [E | (agent & _ & _ & E & _)];
      rewrite E in Hin.
    + exists r'. auto.
    + exists r'. split; [|auto].
      exact (@afterReset_agent env (Agent.orgId agent) agentId (jobs d) r' a Hin Ha).
Qed.

Lemma reachable_invariant d0 d :
  NoDup (map Job.key (jobs d0)) ->
  (forall agentId, oneJobOn agentId (jobs d0)) ->
  reachable d0 d ->
  NoDup (map Job.key (jobs d)) /\ (forall agentId, oneJobOn agentId (jobs d)).
Proof.
  intros Hnd Hone Hr. induction Hr as [|d o Hr [IHn IHo]]; [auto|].
  split; [now apply step_keys|].
  intros a r r' Hin Hin' Ha Ha'.
  destruct (@step_agent o d r a Hin Ha) as (x & Hx & Kx & Ax).
  destruct (@step_agent o d r' a Hin' Ha') as (x' & Hx' & Kx' & Ax').
  pose proof (IHo a x x' Hx Hx' Ax Ax') as E.
  unfold Job.key in Kx, Kx'. injection Kx as Ix _. injection Kx' as Ix' _. congruence.
Qed.

Lemma oneJob_single tbl :
  NoDup (map Job.key tbl) -> (forall agentId, oneJobOn agentId tbl) ->
  singleDispatch tbl.
Proof.
  intros Hnd Hone a. unfold inProgressOn.
  destruct (filter (ownedInProgress a) tbl) as [|r0 l] eqn:E.
  - apply (@one_latest_per_id tbl (ownedInProgress a) EmptyString Hnd).
    intros r Hr Hp. exfalso.
    assert (Hin : In r (filter (ownedInProgress a) tbl)) by (apply filter_In; auto).
    rewrite E in Hin. exact Hin.
  - assert (H0 : In r0 (filter (ownedInProgress a) tbl)) by (rewrite E; now left).
    apply filter_In in H0. destruct H0 as [Hr0 Hp0].
    apply ownedInProgress_eq in Hp0. destruct Hp0 as [Ha0 _].
    apply (@one_latest_per_id tbl (ownedInProgress a) (Job.id r0) Hnd).
    intros r Hr Hp. apply ownedInProgress_eq in Hp. destruct Hp as [Ha _].
    exact (Hone a r r0 Hr Hr0 Ha Ha0).
Qed.

(** C4.  At every instant the public operations reach from a database in
    which the primary key holds and the rows naming an agent belong to one job
    (an empty table, or one in which no row names an agent, is such a
    database), each agent has at most one latest-version job in progress: no
    operation writes an [agent_id] other than null to a stored or a new row.
    And when Preprocess finds, after its orphan reset, an in-progress job
    carrying the agent's id, it claims nothing: it returns
    [{null, null, org_id}], leaves the jobs as the reset left them, and sets
    the agent's [last_active] to now and its [consecutive_failures] to 0.  The
    job found is one of another organisation, the reset having requeued those
    of the agent's own. *)
Theorem single_dispatch_at_every_instant :
  (forall d0 d,
      NoDup (map Job.key (jobs d0)) ->
      (forall agentId, oneJobOn agentId (jobs d0)) ->
      reachable d0 d ->
      singleDispatch (jobs d))
  /\ (forall env agentId d agent j rest,
        find (agentIdIs agentId) (agents d) = Some agent ->
        Agent.status agent = Active ->
        let tbl := afterReset env (Agent.orgId agent) agentId (jobs d) in
        selectWhere (ownedInProgress agentId) tbl = j :: rest ->
        let res := preprocessActivity env agentId d in
        snd res = Return (PreprocessResult.mk None None (Some (Agent.orgId agent)))
        /\ jobs (fst res) = tbl
        /\ agents (fst res)
           = map (fun a => if agentIdIs agentId a then touchAgent env a else a) (agents d)
        /\ (forall a, In a (agents (fst res)) -> Agent.id a = agentId ->
                      Agent.lastActive a = Some (now env)
                      /\ Agent.consecutiveFailures a = 0)
        /\ Job.orgId j <> Agent.orgId agent).
Proof.
  split.
  - intros d0 d Hnd Hone Hr.
    destruct (@reachable_invariant d0 d Hnd Hone Hr) as [Hn Ho].
    now apply oneJob_single.
  - intros env agentId d agent j rest Hf Ha tbl Hown res. subst res.
    rewrite (preprocess_active env agentId d Hf Ha). cbn [jobs with_jobs].
    fold tbl. rewrite Hown. cbn [fst snd]. split; [reflexivity|].
    split; [destruct (streamOpen env agentId); reflexivity|].
    split; [destruct (streamOpen env agentId); reflexivity|].
    split.
    + intros a Hin Hid.
      assert (Hin' : In a (map (fun a => if agentIdIs agentId a then touchAgent env a
                                         else a) (agents d)))
        by (destruct (streamOpen env agentId); exact Hin).
      apply in_map_iff in Hin'. destruct Hin' as (a0 & <- & _).
      unfold agentIdIs in *. destruct (Agent.id a0 =? agentId)%string eqn:E.
      * split; reflexivity.
      * apply String.eqb_neq in E. contradiction.
    + assert (Hj : In j (selectWhere (ownedInProgress agentId) tbl))
        by (rewrite Hown; now left).
      apply filter_In in Hj. destruct Hj as [Hj Hp].
      exact (@owned_after_reset_is_foreign env (Agent.orgId agent) agentId (jobs d) j
               Hj Hp).
Qed.


(** ** Reconnect *)

Lemma find_map_if A (p : A -> bool) (f : A -> A) l a :
  (forall x, p (f x) = p x) ->
  find p l = Some a ->
  find p (map (fun x => if p x then f x else x) l) = Some (f a).
Proof.
  intros Hp. induction l as [|x l IH]; cbn [find map]; [discriminate|].
  destruct (p x) eqn:E.
  - intros H. injection H as <-. now rewrite Hp, E.
  - rewrite E. exact IH.
Qed.

Lemma find_id_org id org l a :
  find (agentIdIs id) l = Some a -> Agent.orgId a = org ->
  find (agentIdOrgIs id org) l = Some a.
Proof.
  intros H Ho. induction l as [|x l IH]; cbn [find] in *; [discriminate|].
  unfold agentIdOrgIs at 1. unfold agentIdIs at 1 in H.
  destruct (Agent.id x =? id)%string eqn:E.
  - injection H as ->. rewrite Ho, String.eqb_refl. reflexivity.
  - cbn [andb]. apply IH, H.
Qed.

Lemma find_id_after_org_update id org (f : Agent.t -> Agent.t) l a :
  (forall x, Agent.id (f x) = Agent.id x) ->
  find (agentIdIs id) l = Some a -> Agent.orgId a = org ->
  find (agentIdIs id) (map (fun x => if agentIdOrgIs id org x then f x else x) l)
  = Some (f a).
Proof.
  intros Hid H Ho. induction l as [|x l IH]; cbn [find map] in *; [discriminate|].
  assert (Hx : agentIdIs id (if agentIdOrgIs id org x then f x else x) = agentIdIs id x).
  { destruct (agentIdOrgIs id org x); [|reflexivity]. unfold agentIdIs. now rewrite Hid. }
  rewrite Hx. destruct (agentIdIs id x) eqn:E.
  - injection H as ->. unfold agentIdOrgIs. unfold agentIdIs in E.
    now rewrite E, Ho, String.eqb_refl.
  - apply IH, H.
Qed.

Lemma ping_success_run env agentId d a :
  find (agentIdIs agentId) (agents d) = Some a ->
  healthCheck env = PingSuccess ->
  pingAgentViaStream env agentId d
  = (with_agents (map (fun x => if agentIdIs agentId x then markActive env x else x)) d,
     Return (PingResult.mk true None)).
Proof.
  intros Hf Hh. unfold pingAgentViaStream, bind at 1, findAgent. rewrite Hf.
  unfold tryCatch. rewrite Hh. reflexivity.
Qed.

Lemma ping_failure_run env agentId d a :
  find (agentIdIs agentId) (agents d) = Some a ->
  healthCheck env <> PingSuccess ->
  pingAgentViaStream env agentId d
  = (with_agents
       (map (fun x => if agentIdIs agentId x
                      then markOffline env (orZero (Agent.consecutiveFailures a) + 1) x
                      else x)) d,
     Return (PingResult.mk false (Some unableToConnect))).
Proof.
  intros Hf Hh. unfold pingAgentViaStream, bind at 1, findAgent. rewrite Hf.
  unfold tryCatch. destruct (healthCheck env); try contradiction; reflexivity.
Qed.

(** X14.  [POST /agents/:id/reconnect] for an id that no agent of the
    caller's organisation has is answered 404 and nothing is written: the agent
    is not pinged, so an agent of another organisation cannot be marked offline
    this way. *)
Theorem reconnect_needs_an_agent_of_the_caller env pingEnv resume user id d :
  (forall a, In a (agents d) -> Agent.id a = id -> Agent.orgId a <> userOrgId user) ->
  reconnectRoute env pingEnv resume user id d
  = (d, mkReconnectReply 404 (Some "Agent not found") None None None).
Proof.
  intros H. unfold reconnectRoute, bind, getDb.
  destruct (find (agentIdOrgIs id (userOrgId user)) (agents d)) as [a|] eqn:E;
    [|reflexivity].
  exfalso. apply find_some in E. destruct E as [Hin E].
  unfold agentIdOrgIs in E. apply andb_true_iff in E. destruct E as [E1 E2].
  apply String.eqb_eq in E1, E2. exact (H a Hin E1 E2).
Qed.

(** X15.  When the ping of a reconnect fails, the reply is 200 with
    [success = false] and carries the agent row read before the ping, while the
    stored row is now [offline] with its failure count raised by one; jobs are
    untouched. *)
Theorem failed_reconnect_reports_the_old_row env pingEnv resume user id d cur :
  find (agentIdIs id) (agents d) = Some cur ->
  Agent.orgId cur = userOrgId user ->
  healthCheck pingEnv <> PingSuccess ->
  let res := reconnectRoute env pingEnv resume user id d in
  let failures := orZero (Agent.consecutiveFailures cur) + 1 in
  snd res = mkReconnectReply 200 None (Some false)
              (Some ("Failed to reconnect: " ++ unableToConnect)) (Some cur)
  /\ find (agentIdIs id) (agents (fst res)) = Some (markOffline pingEnv failures cur)
  /\ Agent.status (markOffline pingEnv failures cur) = Offline
  /\ Agent.consecutiveFailures (markOffline pingEnv failures cur) = failures
  /\ jobs (fst res) = jobs d.
Proof.
  intros Hf Ho Hh res failures. subst res.
  remember (reconnectRoute env pingEnv resume user id d) as res eqn:Eres.
  unfold reconnectRoute, bind at 1, getDb in Eres.
  rewrite (@find_id_org id (userOrgId user) (agents d) cur Hf Ho) in Eres.
  unfold bind at 1 in Eres. rewrite (@ping_failure_run pingEnv id d cur Hf Hh) in Eres.
  cbn [PingResult.success PingResult.error] in Eres. unfold ret in Eres. subst res.
  cbn [fst snd agents with_agents jobs].
  split; [reflexivity|]. split; [|repeat split].
  apply (find_map_if (agentIdIs id)
           (markOffline pingEnv (orZero (Agent.consecutiveFailures cur) + 1))).
  - intros x. reflexivity.
  - exact Hf.
Qed.

(** X16.  When the ping of a reconnect succeeds, the reply is 200 with
    [success = true] and the stored agent row: [active], no failures, last
    active at the time of the call.  This holds whether resuming the schedule
    returns or throws. *)
Theorem reconnect_brings_agent_back env pingEnv resume user id d cur :
  find (agentIdIs id) (agents d) = Some cur ->
  Agent.orgId cur = userOrgId user ->
  healthCheck pingEnv = PingSuccess ->
  let res := reconnectRoute env pingEnv resume user id d in
  let d1 := with_agents
              (map (fun x => if agentIdOrgIs id (userOrgId user) x
                             then markActive env x else x))
              (fst (pingAgentViaStream pingEnv id d)) in
  exists a,
    snd res = mkReconnectReply 200 None (Some true)
                (Some "Agent reconnected successfully") (Some a)
    /\ a = markActive env (markActive pingEnv cur)
    /\ Agent.status a = Active
    /\ Agent.consecutiveFailures a = 0
    /\ Agent.lastActive a = Some (now env)
    /\ find (agentIdIs id) (agents d1) = Some a
    /\ fst res = fst (resume id d1).
Proof.
  intros Hf Ho Hh res d1. subst res d1.
  remember (reconnectRoute env pingEnv resume user id d) as res eqn:Eres.
  unfold reconnectRoute, bind at 1, getDb in Eres.
  rewrite (@find_id_org id (userOrgId user) (agents d) cur Hf Ho) in Eres.
  unfold bind at 1 in Eres.
  assert (Hping := @ping_success_run pingEnv id d cur Hf Hh).
  rewrite Hping in Eres. rewrite Hping. cbn [fst].
  cbn [PingResult.success] in Eres.
  unfold bind at 1, updateAgents, modifyDb in Eres.
  unfold bind at 1 in Eres.
  set (d1 := with_agents
               (map (fun x => if agentIdOrgIs id (userOrgId user) x
                              then markActive env x else x))
               (with_agents
                  (map (fun x => if agentIdIs id x then markActive pingEnv x else x)) d))
    in *.
  set (a := markActive env (markActive pingEnv cur)).
  assert (Hfind1 : find (agentIdIs id)
                     (map (fun x => if agentIdIs id x then markActive pingEnv x else x)
                          (agents d)) = Some (markActive pingEnv cur)).
  { apply (find_map_if (agentIdIs id) (markActive pingEnv)); [reflexivity | exact Hf]. }
  assert (Hfind2 : find (agentIdOrgIs id (userOrgId user)) (agents d1) = Some a).
  { unfold d1. cbn [agents with_agents].
    apply (find_map_if (agentIdOrgIs id (userOrgId user)) (markActive env));
      [reflexivity|].
    apply find_id_org; [exact Hfind1 | exact Ho]. }
  assert (Hfilter : exists rest,
             filter (agentIdOrgIs id (userOrgId user)) (agents d1) = a :: rest).
  { clear - Hfind2. induction (agents d1) as [|x l IH]; cbn [find filter] in *;
      [discriminate|].
    destruct (agentIdOrgIs id (userOrgId user) x).
    - injection Hfind2 as ->. eauto.
    - auto. }
  destruct Hfilter as (rest & Hfilter).
  cbn [fst snd] in Eres. unfold getDb in Eres.
  rewrite Hfilter in Eres.
  unfold bind, tryCatch, ret in Eres.
  exists a. cbn [agents with_agents] in *.
  assert (Hfa : find (agentIdIs id) (agents d1) = Some a).
  { unfold d1. cbn [agents with_agents].
    apply find_id_after_org_update; [reflexivity | exact Hfind1 | exact Ho]. }
  destruct (resume id d1) as [d2 [[]|e]] eqn:Er; subst res; cbn [fst snd];
    repeat split; auto.
Qed.


(** ** The gRPC handlers *)

(** X17.  The gRPC health check answers NOT_FOUND for an unknown agent and
    writes nothing; for a known agent it resets [consecutive_failures] to 0 and
    refreshes [last_active], and never changes [status].  So an agent that is
    not active stays so, and Preprocess still hands it no job. *)
Theorem health_check_never_changes_status env env' agentId d :
  (find (agentIdIs agentId) (agents d) = None ->
   healthCheckHandler env agentId d = (d, GrpcError NOT_FOUND "Agent not found"))
  /\ (forall a,
        find (agentIdIs agentId) (agents d) = Some a ->
        let res := healthCheckHandler env agentId d in
        snd res = GrpcOk (Build_HealthCheckResponse true (now env) "1.0.0")
        /\ find (agentIdIs agentId) (agents (fst res)) = Some (touchAgent env a)
        /\ Agent.status (touchAgent env a) = Agent.status a
        /\ Agent.consecutiveFailures (touchAgent env a) = 0
        /\ Agent.lastActive (touchAgent env a) = Some (now env)
        /\ jobs (fst res) = jobs d
        /\ (Agent.status a <> Active ->
            preprocessActivity env' agentId (fst res)
            = (fst res, Return (PreprocessResult.mk None None None)))).
Proof.
  split.
  - intros Hf. unfold healthCheckHandler, grpcHandler, bind, findAgent. now rewrite Hf.
  - intros a Hf res. subst res.
    remember (healthCheckHandler env agentId d) as res eqn:Eres.
    unfold healthCheckHandler, grpcHandler, bind, findAgent in Eres. rewrite Hf in Eres.
    unfold updateAgents, modifyDb, ret in Eres. subst res. cbn [fst snd].
    assert (Hfind : find (agentIdIs agentId)
                      (agents (with_agents
                                 (map (fun a0 => if agentIdIs agentId a0
                                                 then touchAgent env a0 else a0)) d))
                    = Some (touchAgent env a)).
    { cbn [agents with_agents].
      apply (find_map_if (agentIdIs agentId) (touchAgent env)); [reflexivity | exact Hf]. }
    split; [reflexivity|]. split; [exact Hfind|].
    repeat (split; [reflexivity|]).
    intros Hs. apply preprocess_idle. rewrite Hfind. exact Hs.
Qed.




(** ** [transformJobResponse] *)

Lemma split_nonempty c s : split c s <> [].
Proof.
  induction s as [|x s IH]; cbn [split]; [discriminate|].
  destruct (Ascii.eqb x c); [discriminate|].
  destruct (split c s); [contradiction | discriminate].
Qed.

Lemma split_no_separator c t :
  includesChar c t = false -> split c t = [t].
Proof.
  induction t as [|y t IH]; cbn [split includesChar]; [reflexivity|].
  intros H. apply orb_false_iff in H. destruct H as [H1 H2].
  now rewrite H1, (IH H2).
Qed.

Lemma split_two_pieces c pre t :
  exists p q rest, split c (pre ++ String c t) = p :: q :: rest.
Proof.
  induction pre as [|x pre IH]; cbn [append split].
  - rewrite Ascii.eqb_refl.
    destruct (split c t) as [|q rest] eqn:E; [now apply split_nonempty in E|].
    eauto.
  - destruct IH as (p & q & rest & ->). destruct (Ascii.eqb x c); eauto.
Qed.

Lemma last_split_app c pre t :
  last (split c (pre ++ String c t)) EmptyString
  = last (split c t) EmptyString.
Proof.
  induction pre as [|x pre IH]; cbn [append split].
  - rewrite Ascii.eqb_refl.
    destruct (split c t) as [|q rest] eqn:E; [now apply split_nonempty in E|].
    reflexivity.
  - destruct (split_two_pieces c pre t) as (p & q & rest & E). rewrite E in *.
    destruct (Ascii.eqb x c); exact IH.
Qed.

Lemma after_last_separator c s :
  includesChar c s = true ->
  exists pre t, s = pre ++ String c t /\ includesChar c t = false.
Proof.
  induction s as [|x s IH]; cbn [includesChar]; [discriminate|].
  intros H. destruct (includesChar c s) eqn:Es.
  - destruct (IH eq_refl) as (pre & t & -> & Ht). exists (String x pre), t. auto.
  - rewrite orb_false_r in H. apply Ascii.eqb_eq in H. subst x.
    exists EmptyString, s. auto.
Qed.

(** The last piece of a split holds no separator, and the string ends with
    it: the string is the piece, or something, the separator and the piece. *)
Lemma last_split c s :
  includesChar c (last (split c s) EmptyString) = false
  /\ (includesChar c s = true ->
      exists pre, s = pre ++ String c (last (split c s) EmptyString)).
Proof.
  destruct (includesChar c s) eqn:E.
  - destruct (after_last_separator c s E) as (pre & t & -> & Ht).
    rewrite last_split_app, (split_no_separator c t Ht). cbn [last].
    split; [exact Ht|]. intros _. exists pre. reflexivity.
  - rewrite (split_no_separator c s E). cbn [last]. split; [exact E | discriminate].
Qed.

Lemma prefix_http_append s : String.prefix "http" ("https://github.com/" ++ s) = true.
Proof. reflexivity. Qed.

(** X19.  [transformJobResponse] gives no repository fields to a job without
    [repoId].  For a [repoId] found in the repository map, the fields are those
    of its entry.  For a [repoId] missing from the map, [repo_id] is the
    [repoId]; [repo_url] is the [repoId] itself when it starts with "http" and
    "https://github.com/" followed by it otherwise, so it always starts with
    "http"; and [repo_name] is the [repoId] when that holds no "/" and
    otherwise the part after its last "/". *)
Theorem repo_fields_derive_from_repo_id toISOString job repoMap :
  let r := transformJobResponse toISOString job repoMap in
  (truthyString (Job.repoId job) = None ->
   JobResponse.repo_id r = None /\ JobResponse.repo_url r = None
   /\ JobResponse.repo_name r = None)
  /\ (forall repoId repo,
        truthyString (Job.repoId job) = Some repoId ->
        repoMapGet repoMap repoId = Some repo ->
        JobResponse.repo_id r = Some repoId
        /\ JobResponse.repo_url r = Some (Repo.url repo)
        /\ JobResponse.repo_name r = Some (Repo.name repo))
  /\ (forall repoId,
        truthyString (Job.repoId job) = Some repoId ->
        repoMapGet repoMap repoId = None ->
        JobResponse.repo_id r = Some repoId
        /\ (exists u n,
              JobResponse.repo_url r = Some u
              /\ JobResponse.repo_name r = Some n
              /\ String.prefix "http" u = true
              /\ (String.prefix "http" repoId = true -> u = repoId)
              /\ (String.prefix "http" repoId = false ->
                  u = "https://github.com/" ++ repoId)
              /\ includesChar "/" n = false
              /\ (includesChar "/" repoId = false -> n = repoId)
              /\ (includesChar "/" repoId = true ->
                  exists pre, repoId = pre ++ "/" ++ n))).
Proof.
  intros r. subst r. unfold transformJobResponse. split; [|split].
  - intros H. rewrite H. cbn. auto.
  - intros repoId repo H Hm. rewrite H, Hm.
    cbn [JobResponse.repo_id JobResponse.repo_url JobResponse.repo_name].
    split; [|split; reflexivity].
    unfold repoMapGet in Hm. destruct repoMap as [entries|]; [|discriminate].
    apply find_some in Hm. destruct Hm as [_ E]. apply String.eqb_eq in E.
    now rewrite E.
  - intros repoId H Hm. rewrite H, Hm. cbn [JobResponse.repo_id JobResponse.repo_url
                                           JobResponse.repo_name].
    split; [reflexivity|]. eexists _, _. split; [reflexivity|]. split; [reflexivity|].
    split; [|split; [|split; [|split; [|split]]]].
    + destruct (String.prefix "http" repoId) eqn:E; [exact E | apply prefix_http_append].
    + intros ->. reflexivity.
    + intros ->. reflexivity.
    + destruct (includesChar "/" repoId) eqn:E; [|exact E].
      apply (last_split "/" repoId).
    + intros ->. reflexivity.
    + intros E. rewrite E. destruct (last_split "/" repoId) as [_ Hl]. exact (Hl E).
Qed.


(** ** Sorting and the order of strings *)

Lemma ascii_compare_refl a : Ascii.compare a a = Eq.
Proof. unfold Ascii.compare. apply N.compare_refl. Qed.

Lemma string_compare_refl s : String.compare s s = Eq.
Proof. induction s as [|a s IH]; cbn; [reflexivity|]. now rewrite ascii_compare_refl. Qed.

Lemma string_ltb_irrefl s : String.ltb s s = false.
Proof. unfold String.ltb. now rewrite string_compare_refl. Qed.

Lemma string_compare_lt_trans a : forall b c,
  String.compare a b = Lt -> String.compare b c = Lt -> String.compare a c = Lt.
Proof.
  induction a as [|x a IH]; intros [|y b] [|z c]; cbn; try discriminate; auto.
  unfold Ascii.compare.
  destruct (N.compare_spec (N_of_ascii x) (N_of_ascii y)) as [E1|L1|G1];
    destruct (N.compare_spec (N_of_ascii y) (N_of_ascii z)) as [E2|L2|G2];
    try discriminate; intros H1 H2.
  - rewrite E1, E2, N.compare_refl. eapply IH; eassumption.
  - rewrite E1. apply N.compare_lt_iff in L2. now rewrite L2.
  - rewrite <- E2. apply N.compare_lt_iff in L1. now rewrite L1.
  - assert (L : (N_of_ascii x < N_of_ascii z)%N) by (eapply N.lt_trans; eassumption).
    apply N.compare_lt_iff in L. now rewrite L.
Qed.

Lemma string_ltb_trans a b c :
  String.ltb a b = true -> String.ltb b c = true -> String.ltb a c = true.
Proof.
  unfold String.ltb. intros H1 H2.
  destruct (String.compare a b) eqn:E1; try discriminate.
  destruct (String.compare b c) eqn:E2; try discriminate.
  now rewrite (string_compare_lt_trans _ _ _ E1 E2).
Qed.

Lemma string_trichotomy a b :
  String.ltb a b = true \/ a = b \/ String.ltb b a = true.
Proof.
  unfold String.ltb. rewrite (String.compare_antisym b a).
  destruct (String.compare a b) eqn:E; cbn; auto.
  right. left. now apply String.compare_eq_iff.
Qed.

Lemma insertBy_perm le x l : Permutation (insertBy le x l) (x :: l).
Proof.
  induction l as [|y l IH]; cbn [insertBy]; [reflexivity|].
  destruct (le x y); [reflexivity|].
  etransitivity; [apply perm_skip, IH | apply perm_swap].
Qed.

Lemma sortBy_perm le l : Permutation (sortBy le l) l.
Proof.
  induction l as [|x l IH]; cbn [sortBy]; [reflexivity|].
  etransitivity; [apply insertBy_perm | apply perm_skip, IH].
Qed.

Lemma insertBy_sorted (le : Job.t -> Job.t -> bool) x l :
  (forall a b, le a b = true \/ le b a = true) ->
  (forall a b c, le a b = true -> le b c = true -> le a c = true) ->
  StronglySorted (fun a b => le a b = true) l ->
  StronglySorted (fun a b => le a b = true) (insertBy le x l).
Proof.
  intros Htot Htr H. induction H as [|y l Hs IH Hy]; cbn [insertBy].
  - constructor; constructor.
  - destruct (le x y) eqn:E.
    + constructor; [constructor; assumption|].
      constructor; [exact E|]. rewrite Forall_forall in *. intros z Hz.
      eapply Htr; [exact E | apply Hy, Hz].
    + constructor; [exact IH|].
      rewrite Forall_forall in *. intros z Hz.
      apply (Permutation_in _ (insertBy_perm le x l)) in Hz. destruct Hz as [<-|Hz].
      * destruct (Htot x y) as [H1|H1]; [congruence | exact H1].
      * apply Hy, Hz.
Qed.

Lemma sortBy_sorted (le : Job.t -> Job.t -> bool) l :
  (forall a b, le a b = true \/ le b a = true) ->
  (forall a b c, le a b = true -> le b c = true -> le a c = true) ->
  StronglySorted (fun a b => le a b = true) (sortBy le l).
Proof.
  intros Htot Htr. induction l as [|x l IH]; cbn [sortBy]; [constructor|].
  apply insertBy_sorted; assumption.
Qed.

Lemma byIdThenVersionDesc_total a b :
  byIdThenVersionDesc a b = true \/ byIdThenVersionDesc b a = true.
Proof.
  unfold byIdThenVersionDesc.
  destruct (string_trichotomy (Job.id a) (Job.id b)) as [H|[H|H]].
  - left. now rewrite H.
  - rewrite H, String.eqb_refl. cbn [andb].
    destruct (Z.leb_spec (Job.version b) (Job.version a)).
    + left. apply orb_true_r.
    + right. assert (E : (Job.version a <=? Job.version b) = true) by (apply Z.leb_le; lia).
      rewrite E. apply orb_true_r.
  - right. now rewrite H.
Qed.

Lemma byIdThenVersionDesc_trans a b c :
  byIdThenVersionDesc a b = true -> byIdThenVersionDesc b c = true ->
  byIdThenVersionDesc a c = true.
Proof.
  unfold byIdThenVersionDesc. intros H1 H2.
  apply orb_true_iff in H1, H2. apply orb_true_iff.
  destruct H1 as [H1|H1], H2 as [H2|H2].
  - left. eapply string_ltb_trans; eassumption.
  - apply andb_true_iff in H2. destruct H2 as [E _]. apply String.eqb_eq in E.
    left. now rewrite <- E.
  - apply andb_true_iff in H1. destruct H1 as [E _]. apply String.eqb_eq in E.
    left. now rewrite E.
  - apply andb_true_iff in H1, H2. destruct H1 as [E1 V1], H2 as [E2 V2].
    apply String.eqb_eq in E1, E2. apply Z.leb_le in V1, V2.
    right. rewrite E1, E2, String.eqb_refl. cbn [andb]. apply Z.leb_le. lia.
Qed.

Lemma byCreatedAtDesc_total a b :
  byCreatedAtDesc a b = true \/ byCreatedAtDesc b a = true.
Proof.
  unfold byCreatedAtDesc.
  destruct (Z.leb_spec (Job.createdAt b) (Job.createdAt a)); [auto|].
  right. apply Z.leb_le. lia.
Qed.

Lemma byCreatedAtDesc_trans a b c :
  byCreatedAtDesc a b = true -> byCreatedAtDesc b c = true -> byCreatedAtDesc a c = true.
Proof. unfold byCreatedAtDesc. rewrite !Z.leb_le. lia. Qed.

(** [DISTINCT ON (id)] *)

Lemma distinctOnId_spec l : forall seen r,
  In r (distinctOnId seen l) <->
  exists l1 l2, l = (l1 ++ r :: l2)%list
                /\ (forall x, In x l1 -> Job.id x <> Job.id r)
                /\ ~ In (Job.id r) seen.
Proof.
  induction l as [|y l IH]; intros seen r; cbn [distinctOnId].
  - split; [contradiction|]. intros (l1 & l2 & E & _). destruct l1; discriminate.
  - destruct (existsb (String.eqb (Job.id y)) seen) eqn:Es.
    + apply existsb_exists in Es. destruct Es as (i & Hi & Ei).
      apply String.eqb_eq in Ei. subst i.
      rewrite IH. split.
      * intros (l1 & l2 & -> & H1 & H2). exists (y :: l1), l2. split; [reflexivity|].
        split; [|exact H2]. intros x [<-|Hx]; [|auto]. intros E. apply H2. now rewrite <- E.
      * intros (l1 & l2 & E & H1 & H2). destruct l1 as [|z l1]; cbn in E.
        -- injection E as -> _. contradiction.
        -- injection E as -> ->. exists l1, l2. split; [reflexivity|].
           split; [|exact H2]. intros x Hx. apply H1. right; exact Hx.
    + assert (Hy : ~ In (Job.id y) seen).
      { intros Hin. apply not_true_iff_false in Es. apply Es. apply existsb_exists.
        exists (Job.id y). split; [exact Hin | apply String.eqb_refl]. }
      cbn [In]. rewrite IH. split.
      * intros [<-|(l1 & l2 & -> & H1 & H2)].
        -- exists [], l. split; [reflexivity|]. split; [intros x []|exact Hy].
        -- exists (y :: l1), l2. split; [reflexivity|]. split.
           ++ intros x [<-|Hx]; [|auto]. intros E. apply H2. left. exact E.
           ++ intros Hin. apply H2. right. exact Hin.
      * intros (l1 & l2 & E & H1 & H2). destruct l1 as [|z l1]; cbn in E.
        -- injection E as -> _. left. reflexivity.
        -- injection E as -> ->. right. exists l1, l2. split; [reflexivity|].
           split; [intros x Hx; apply H1; right; exact Hx|].
           intros [E|Hin]; [|contradiction].
           apply (H1 z (or_introl eq_refl)). exact E.
Qed.

Lemma distinctOnId_NoDup l : forall seen,
  NoDup (map Job.id (distinctOnId seen l))
  /\ forall r, In r (distinctOnId seen l) -> ~ In (Job.id r) seen.
Proof.
  induction l as [|y l IH]; intros seen; cbn [distinctOnId].
  - split; [constructor | contradiction].
  - destruct (existsb (String.eqb (Job.id y)) seen) eqn:Es; [apply IH|].
    destruct (IH (Job.id y :: seen)) as [IH1 IH2]. split.
    + cbn [map]. constructor; [|exact IH1].
      intros Hin. apply in_map_iff in Hin. destruct Hin as (r & E & Hr).
      apply (IH2 r Hr). left. now symmetry.
    + intros r [<-|Hr].
      * intros Hin. apply not_true_iff_false in Es. apply Es. apply existsb_exists.
        exists (Job.id y). split; [exact Hin | apply String.eqb_refl].
      * intros Hin. apply (IH2 r Hr). right. exact Hin.
Qed.


(** ** [GET /jobs] *)

Lemma StronglySorted_app_r A (R : A -> A -> Prop) l1 l2 :
  StronglySorted R (l1 ++ l2) -> StronglySorted R l2.
Proof.
  induction l1 as [|x l1 IH]; cbn [app]; [auto|].
  intros H. inversion H; subst. auto.
Qed.

Lemma StronglySorted_weaken A (R R' : A -> A -> Prop) l :
  (forall a b, R a b -> R' a b) -> StronglySorted R l -> StronglySorted R' l.
Proof.
  intros HR H. induction H as [|x l Hs IH Hx]; constructor; [exact IH|].
  eapply Forall_impl; [|exact Hx]. intros b. apply HR.
Qed.

Lemma first_with_id i (l : list Job.t) :
  (exists r, In r l /\ Job.id r = i) ->
  exists l1 r0 l2, l = (l1 ++ r0 :: l2)%list /\ Job.id r0 = i
                   /\ forall x, In x l1 -> Job.id x <> i.
Proof.
  induction l as [|y l IH]; intros (r & Hr & Hi); [contradiction|].
  destruct (string_dec (Job.id y) i) as [E|N].
  - exists [], y, l. split; [reflexivity|]. split; [exact E|]. intros x [].
  - destruct Hr as [->|Hr]; [contradiction|].
    destruct (IH (ex_intro _ r (conj Hr Hi))) as (l1 & r0 & l2 & -> & E & H).
    exists (y :: l1), r0, l2. split; [reflexivity|]. split; [exact E|].
    intros x [<-|Hx]; auto.
Qed.

Lemma maxVersion_some l : l <> [] -> exists m, maxVersion l = Some m.
Proof.
  destruct l as [|x l]; [contradiction|]. intros _. cbn [maxVersion].
  destruct (maxVersion l) as [m|]; [|eauto].
  destruct (Job.version x <? Job.version m); eauto.
Qed.

(** The rows [DISTINCT ON (id) ... ORDER BY id, version DESC] keeps are the
    latest versions within the organisation. *)
Lemma distinct_rows_are_latest org tbl r :
  NoDup (map Job.key tbl) ->
  In r (distinctOnId [] (sortBy byIdThenVersionDesc (selectWhere (orgIs org) tbl)))
  <-> maxVersion (selectWhere (idOrgIs (Job.id r) org) tbl) = Some r.
Proof.
  intros Hnd.
  set (rows := selectWhere (orgIs org) tbl).
  set (S := sortBy byIdThenVersionDesc rows).
  assert (HS : forall x, In x S <-> In x tbl /\ Job.orgId x = org).
  { intros x. unfold S, rows, selectWhere. split.
    - intros H. apply (Permutation_in _ (sortBy_perm _ _)) in H.
      apply filter_In in H. unfold orgIs in H. rewrite String.eqb_eq in H. exact H.
    - intros [H1 H2]. apply (Permutation_in _ (Permutation_sym (sortBy_perm _ _))).
      apply filter_In. unfold orgIs. rewrite String.eqb_eq. auto. }
  assert (Hsorted : StronglySorted (fun a b => byIdThenVersionDesc a b = true) S).
  { apply sortBy_sorted;
      [apply byIdThenVersionDesc_total | apply byIdThenVersionDesc_trans]. }
  assert (Hfwd : forall r0, In r0 (distinctOnId [] S) ->
            maxVersion (selectWhere (idOrgIs (Job.id r0) org) tbl) = Some r0).
  { intros r0 Hin. apply distinctOnId_spec in Hin.
    destruct Hin as (l1 & l2 & ES & Hfirst & _).
    assert (Hr0 : In r0 S) by (rewrite ES; apply in_or_app; right; left; reflexivity).
    apply HS in Hr0. destruct Hr0 as [Hr0 Ho].
    set (F := selectWhere (idOrgIs (Job.id r0) org) tbl).
    assert (HF : In r0 F).
    { unfold F, selectWhere. apply filter_In. split; [exact Hr0|].
      unfold idOrgIs. now rewrite Ho, !String.eqb_refl. }
    destruct (@maxVersion_some F) as (m & Hm); [intros E; rewrite E in HF; exact HF|].
    rewrite Hm. f_equal.
    destruct (maxVersion_max _ Hm) as [Hmin Hmax].
    destruct (@maxVersion_found (Job.id r0) org tbl m Hm) as (Hmt & Hmi & Hmo).
    assert (HmS : In m S) by (apply HS; auto).
    rewrite ES in HmS. apply in_app_or in HmS.
    assert (Hv : Job.version r0 <= Job.version m) by (apply Hmax, HF).
    apply (key_unique tbl); auto.
    unfold Job.key. rewrite Hmi. f_equal.
    destruct HmS as [H1|[<-|H2]].
    - exfalso. exact (Hfirst m H1 Hmi).
    - reflexivity.
    - rewrite ES in Hsorted. apply StronglySorted_app_r in Hsorted.
      inversion Hsorted as [|? ? _ Hall]; subst.
      rewrite Forall_forall in Hall. specialize (Hall m H2).
      unfold byIdThenVersionDesc in Hall. rewrite Hmi in Hall.
      rewrite string_ltb_irrefl, String.eqb_refl in Hall. cbn in Hall.
      apply Z.leb_le in Hall. lia. }
  split; [apply Hfwd|].
  intros Hmax.
  destruct (@maxVersion_found (Job.id r) org tbl r Hmax) as (Hrt & _ & Hro).
  assert (HrS : In r S) by (apply HS; auto).
  destruct (@first_with_id (Job.id r) S) as (l1 & r0 & l2 & ES & Ei & Hfirst);
    [exists r; auto|].
  assert (Hin0 : In r0 (distinctOnId [] S)).
  { apply distinctOnId_spec. exists l1, l2. split; [exact ES|]. split.
    - intros x Hx. rewrite Ei. apply Hfirst, Hx.
    - intros []. }
  pose proof (Hfwd r0 Hin0) as H0. rewrite Ei in H0. rewrite Hmax in H0.
  injection H0 as <-. exact Hin0.
Qed.

Lemma withoutAgent_id r : Job.id (withoutAgent r) = Job.id r.
Proof. destruct r; reflexivity. Qed.

Lemma withoutAgent_createdAt r : Job.createdAt (withoutAgent r) = Job.createdAt r.
Proof. destruct r; reflexivity. Qed.

(** X20.  [GET /jobs] answers 200, leaves the database as it is, and lists
    exactly the jobs [GET /jobs/:id] returns for the ids of the caller's
    organisation, each without its agent: every job once, as its latest
    version, ordered by creation time, newest first. *)
Theorem job_list_shows_latest_versions user d :
  NoDup (map Job.key (jobs d)) ->
  let res := listJobs user d in
  fst res = d
  /\ list_code (snd res) = 200
  /\ (forall j, In j (list_jobs (snd res)) <->
        exists r, getJob user (Job.id r) None d = (d, sendJob 200 r)
                  /\ j = withoutAgent r)
  /\ NoDup (map Job.id (list_jobs (snd res)))
  /\ StronglySorted (fun a b => Job.createdAt b <= Job.createdAt a)
                    (list_jobs (snd res)).
Proof.
  intros Hnd res. subst res. unfold listJobs, bind, selectJobs, ret. cbn [fst snd list_code list_jobs].
  set (D := distinctOnId [] (sortBy byIdThenVersionDesc
                               (selectWhere (orgIs (userOrgId user)) (jobs d)))).
  pose proof (sortBy_perm byCreatedAtDesc (map withoutAgent D)) as Hperm.
  split; [reflexivity|]. split; [reflexivity|]. split; [|split].
  - intros j. split.
    + intros Hj. apply (Permutation_in _ Hperm) in Hj. apply in_map_iff in Hj.
      destruct Hj as (r & <- & Hr). exists r. split; [|reflexivity].
      apply (@distinct_rows_are_latest (userOrgId user) (jobs d) r Hnd) in Hr.
      rewrite getJob_latest, Hr. reflexivity.
    + intros (r & Hget & ->).
      apply (Permutation_in _ (Permutation_sym Hperm)). apply in_map.
      apply (@distinct_rows_are_latest (userOrgId user) (jobs d) r Hnd).
      rewrite getJob_latest in Hget.
      destruct (maxVersion _) as [m|]; injection Hget as E; [|discriminate].
      now inversion E.
  - apply (Permutation_NoDup (Permutation_sym (Permutation_map Job.id Hperm))).
    rewrite map_map. erewrite map_ext; [|intros a; apply withoutAgent_id].
    apply (distinctOnId_NoDup _ []).
  - eapply StronglySorted_weaken;
      [|apply sortBy_sorted; [apply byCreatedAtDesc_total | apply byCreatedAtDesc_trans]].
    intros a b H. unfold byCreatedAtDesc in H. now apply Z.leb_le.
Qed.


(** ** Who may start a job *)

Lemma statusesIn_refl d : statusesIn d d.
Proof. exists []. now rewrite app_nil_r. Qed.

Lemma statusesIn_trans d1 d2 d3 : statusesIn d1 d2 -> statusesIn d2 d3 -> statusesIn d1 d3.
Proof.
  intros (e1 & E1) (e2 & E2). exists (e1 ++ e2)%list. now rewrite E2, E1, app_assoc.
Qed.

Lemma kept_ret A (a : A) : statusesKept (ret a).
Proof. intros d. apply statusesIn_refl. Qed.

Lemma kept_throw A e : statusesKept (@throw A e).
Proof. intros d. apply statusesIn_refl. Qed.

Lemma kept_bind A B (m : M A) (k : A -> M B) :
  statusesKept m -> (forall a, statusesKept (k a)) -> statusesKept (bind m k).
Proof.
  intros Hm Hk d. unfold bind. specialize (Hm d).
  destruct (m d) as [d' [a|e]]; cbn [fst] in *.
  - eapply statusesIn_trans; [exact Hm | apply Hk].
  - exact Hm.
Qed.

Lemma kept_reads A (m : M A) Q : reads m Q -> statusesKept m.
Proof. intros H d. destruct (H d) as [-> _]. apply statusesIn_refl. Qed.

Lemma kept_bind_reads A B (m : M A) (k : A -> M B) Q :
  reads m Q -> (forall a, Q a -> statusesKept (k a)) -> statusesKept (bind m k).
Proof.
  intros Hm Hk d. unfold bind. destruct (Hm d) as [Hd Hq].
  destruct (m d) as [d' [a|e]]; cbn [fst snd] in *; subst d'.
  - apply Hk. apply Hq. reflexivity.
  - apply statusesIn_refl.
Qed.

Lemma apply1_keyStatus a r :
  writesStatus a = false -> keyStatus (Job.apply1 a r) = keyStatus r.
Proof. destruct r, a; intros H; try discriminate H; reflexivity. Qed.

Lemma set_keyStatus s : forall r,
  forallb (fun a => negb (writesStatus a)) s = true -> keyStatus (Job.set s r) = keyStatus r.
Proof.
  unfold Job.set. induction s as [|a s IH]; intros r Hs; cbn [fold_left]; [reflexivity|].
  cbn [forallb] in Hs. apply andb_true_iff in Hs. destruct Hs as [Ha Hs].
  apply negb_true_iff in Ha. rewrite (IH _ Hs). now apply apply1_keyStatus.
Qed.

Lemma kept_updateJobs p s :
  forallb (fun a => negb (writesStatus a)) s = true -> statusesKept (updateJobs p s).
Proof.
  intros Hs d. unfold updateJobs, modifyDb. cbn [fst].
  exists []. cbn [jobs with_jobs]. rewrite app_nil_r. unfold updateWhere. rewrite map_map.
  apply map_ext. intros r. destruct (p r); [now apply set_keyStatus | reflexivity].
Qed.

Lemma kept_insertJob j : statusesKept (insertJob j).
Proof.
  intros d. unfold insertJob. destruct (existsb _ _); cbn [fst].
  - apply statusesIn_refl.
  - exists [keyStatus j]. cbn [jobs with_jobs]. now rewrite map_app.
Qed.

Lemma kept_createActivity env jobId name summary userId orgId :
  statusesKept (createActivity env jobId name summary userId orgId).
Proof.
  intros d. exists []. rewrite app_nil_r. now rewrite createActivity_jobs.
Qed.

Lemma kept_forEach A (f : A -> M unit) l :
  (forall x, statusesKept (f x)) -> statusesKept (forEach f l).
Proof.
  intros H. induction l as [|x l IH]; cbn [forEach].
  - apply kept_ret.
  - apply kept_bind; [apply H | intros _; exact IH].
Qed.

Ltac kept_step :=
  first
    [ apply kept_ret
    | apply kept_throw
    | eapply kept_reads; apply reads_selectJobs
    | eapply kept_reads; apply reads_selectLatest
    | eapply kept_reads; apply reads_getNextQueuePosition
    | eapply kept_reads; apply reads_bindInt4
    | apply kept_createActivity
    | apply kept_insertJob
    | apply kept_updateJobs; reflexivity
    | apply kept_forEach; intros ?
    | apply kept_bind; [| intros ?]
    | match goal with
      | |- statusesKept (match ?x with _ => _ end) => destruct x
      | |- statusesKept (if ?x then _ else _) => destruct x
      | |- statusesKept (let '(_, _) := ?x in _) => destruct x
      end ].

Lemma kept_handler (body : M Reply) f d :
  statusesKept body -> statusesIn d (fst (handler body f d)).
Proof.
  intros H. unfold handler. specialize (H d). destruct (body d) as [d' [r|e]]; exact H.
Qed.

Lemma kept_queueMoves env user body cur : statusesKept (queueMoves env user body cur).
Proof. unfold queueMoves, reprioritizeQueueAfterRemoval. repeat kept_step. Qed.

Lemma kept_putNewVersion env user id body cur n t :
  statusesKept (putNewVersion env user id body cur n t).
Proof. unfold putNewVersion. repeat kept_step. Qed.

Lemma postJob_kept env user body d : statusesIn d (fst (postJob env user body d)).
Proof. unfold postJob. apply kept_handler. repeat kept_step. Qed.

Lemma executeJob_kept env user id d : statusesIn d (fst (executeJob env user id d)).
Proof.
  unfold executeJob. apply kept_handler.
  unfold removeJobFromQueue, reprioritizeQueueAfterRemoval. repeat kept_step.
Qed.

Lemma reprioritizeJob_kept env user id position d :
  statusesIn d (fst (reprioritizeJob env user id position d)).
Proof.
  unfold reprioritizeJob. apply kept_handler. unfold reorderOne. repeat kept_step.
Qed.

Lemma statusesIn_nth d d' i r :
  statusesIn d d' -> nth_error (jobs d) i = Some r ->
  exists r', nth_error (jobs d') i = Some r' /\ keyStatus r' = keyStatus r.
Proof.
  intros (extra & E) Hi.
  assert (H : nth_error (map keyStatus (jobs d')) i = Some (keyStatus r)).
  { rewrite E, nth_error_app1.
    - now rewrite nth_error_map, Hi.
    - rewrite length_map. apply nth_error_Some. congruence. }
  rewrite nth_error_map in H.
  destruct (nth_error (jobs d') i) as [r'|]; cbn [option_map] in H; [|discriminate].
  exists r'. split; [reflexivity | congruence].
Qed.


Lemma keyStatus_eq r' r :
  keyStatus r' = keyStatus r -> Job.key r' = Job.key r /\ Job.status r' = Job.status r.
Proof. intros E. split; [exact (f_equal fst E) | exact (f_equal snd E)]. Qed.

Lemma set_app l1 l2 r : Job.set (l1 ++ l2) r = Job.set l2 (Job.set l1 r).
Proof. unfold Job.set. apply fold_left_app. Qed.

Lemma set_status_kept s r :
  forallb (fun a => negb (writesStatus a)) s = true ->
  Job.status (Job.set s r) = Job.status r.
Proof. intros H. exact (f_equal snd (set_keyStatus s r H)). Qed.

Lemma noStatus_app l1 l2 :
  forallb (fun a => negb (writesStatus a)) (l1 ++ l2)
  = forallb (fun a => negb (writesStatus a)) l1
    && forallb (fun a => negb (writesStatus a)) l2.
Proof. apply forallb_app. Qed.

(** The [updateData] of the in-place branch leaves the status the request
    names, or the one the row has. *)
Lemma reads_inPlace_status env user body cur n t :
  reads (inPlaceUpdateData env user body cur n t)
        (fun L => forall r, Job.status (Job.set L r)
                            = orElse (uj_status body) (Job.status r)).
Proof.
  unfold inPlaceUpdateData.
  eapply reads_bind
    with (Q := fun sp => forall r, Job.status (Job.set sp r)
                                   = orElse (uj_status body) (Job.status r)).
  - destruct (uj_status body) as [st|]; [|apply reads_ret; reflexivity].
    eapply reads_bind
      with (Q := fun l => forallb (fun a => negb (writesStatus a)) l = true).
    + destruct st; try (apply reads_ret; reflexivity).
      destruct (queue_type body), t;
        try (apply reads_ret; reflexivity);
        (eapply reads_bind; [apply reads_getNextQueuePosition|]);
        intros ? _; apply reads_ret; reflexivity.
    + intros l Hl. apply reads_ret. intros r. cbn [concat orElse].
      change ([Job.SetStatus st] ++ l ++ ?x ++ [])%list
        with (Job.SetStatus st :: (l ++ x ++ []))%list.
      unfold Job.set at 1. cbn [fold_left].
      change (fold_left (fun acc a => Job.apply1 a acc) ?l0 ?x0) with (Job.set l0 x0).
      rewrite set_status_kept.
      * destruct r; reflexivity.
      * rewrite !noStatus_app, Hl.
        destruct (negb (JobStatus_beq st (Job.status cur))); reflexivity.
  - intros sp Hsp. apply reads_ret. intros r. cbn [concat].
    rewrite app_assoc. rewrite set_app. rewrite set_app.
    rewrite set_status_kept.
    + rewrite Hsp. f_equal. apply set_status_kept.
      destruct (promptChanged body cur), (generated_name body),
        (generated_description body); reflexivity.
    + destruct (uj_priority body), (order_in_queue body), (user_comments body),
        (user_acceptance_status body), t, (JobStatus_beq (Job.status cur) Queued);
        reflexivity.
Qed.

Lemma putInPlace_table env user id body cur n t d1 :
  jobs (fst (putInPlace env user id body cur n t d1)) = jobs d1
  \/ exists L,
       (forall r, Job.status (Job.set L r) = orElse (uj_status body) (Job.status r))
       /\ jobs (fst (putInPlace env user id body cur n t d1))
          = updateWhere (keyOrgIs id (Job.version cur) (userOrgId user)) L (jobs d1).
Proof.
  remember (putInPlace env user id body cur n t d1) as res eqn:Eres.
  unfold putInPlace, bind at 1 in Eres.
  destruct (reads_inPlace_status env user body cur n t d1) as [Hd HQ].
  destruct (inPlaceUpdateData env user body cur n t d1) as [d1' [L|e]];
    cbn [fst snd] in *; subst d1'.
  - unfold bind at 1 in Eres.
    pose proof (reads_bindInt4 (bodyOrderSent body L) d1) as [Hb _].
    destruct (bindInt4 (bodyOrderSent body L) d1) as [d1' [[]|e]];
      cbn [fst] in Hb; subst d1'; [|left; subst res; reflexivity].
    right. exists L. split; [apply HQ; reflexivity|].
    unfold bind at 1, updateJobs, modifyDb in Eres.
    unfold bind at 1, selectJobs in Eres. cbn [jobs with_jobs] in Eres.
    destruct (selectWhere _ _) as [|j rest].
    + unfold throw in Eres. subst res. reflexivity.
    + unfold bind at 1 in Eres.
      match type of Eres with
      | context [createActivity ?e ?a ?b ?c ?u0 ?o ?dd] =>
          pose proof (createActivity_jobs e a b c u0 o dd) as Hjobs;
          destruct (createActivity e a b c u0 o dd) as [d2 [[]|e2]]
      end; cbn [fst] in Hjobs; subst res; cbn [fst]; exact Hjobs.
  - left. subst res. reflexivity.
Qed.

Lemma deleteJob_table env user id d :
  jobs (fst (deleteJob env user id d)) = jobs d
  \/ exists ver,
       jobs (fst (deleteJob env user id d))
       = updateWhere (keyOrgIs id ver (userOrgId user))
           [Job.SetStatus Archived; Job.SetUpdatedAt (now env);
            Job.SetUpdatedBy (userId user)] (jobs d).
Proof.
  remember (deleteJob env user id d) as res eqn:Eres.
  unfold deleteJob, handler in Eres.
  unfold bind at 1, selectLatest, bind at 1, selectJobs, ret at 1 in Eres.
  destruct (maxVersion _) as [cur|]; [|left; subst res; reflexivity].
  destruct (JobStatus_beq (Job.status cur) Archived); [left; subst res; reflexivity|].
  right. exists (Job.version cur).
  unfold bind at 1, updateJobs, modifyDb in Eres.
  unfold bind at 1 in Eres. cbn [jobs with_jobs] in Eres.
  destruct (selectWhere _ _) as [|j rest].
  - unfold throw in Eres. subst res. reflexivity.
  - unfold bind at 1 in Eres.
    match type of Eres with
    | context [createActivity ?e ?a ?b ?c ?u0 ?o ?dd] =>
        pose proof (createActivity_jobs e a b c u0 o dd) as Hjobs;
        destruct (createActivity e a b c u0 o dd) as [d2 [[]|e2]]
    end; cbn [fst] in Hjobs; subst res; cbn [fst]; exact Hjobs.
Qed.

Lemma nth_error_updateWhere p s tbl i :
  nth_error (updateWhere p s tbl) i
  = option_map (fun r => if p r then Job.set s r else r) (nth_error tbl i).
Proof. unfold updateWhere. apply nth_error_map. Qed.

(** X21.  No job route puts a queued row in progress: after create, update,
    archive, execute or reprioritize, a row that was queued is still stored
    under its key with a status other than [in-progress]. *)
Theorem job_routes_never_start_a_queued_job o user d i r :
  NoDup (map Job.key (jobs d)) ->
  opUser o = Some user ->
  nth_error (jobs d) i = Some r ->
  Job.status r = Queued ->
  exists r', nth_error (jobs (step o d)) i = Some r'
             /\ Job.key r' = Job.key r
             /\ Job.status r' <> InProgress.
Proof.
  intros Hnd Hu Hi Hq.
  assert (Hkept : forall d', statusesIn d d' ->
            exists r', nth_error (jobs d') i = Some r'
                       /\ Job.key r' = Job.key r /\ Job.status r' <> InProgress).
  { intros d' H. destruct (statusesIn_nth i H Hi) as (r' & Hr' & E).
    apply keyStatus_eq in E. destruct E as [E1 E2]. exists r'.
    split; [exact Hr'|]. split; [exact E1|]. rewrite E2, Hq. discriminate. }
  destruct o as [env u body | env u id body | env u id | env u id | env u id pos | env a];
    cbn [opUser] in Hu; try discriminate; injection Hu as ->; cbn [step].
  - apply Hkept, postJob_kept.
  - (* PUT *)
    remember (putJob env user id body d) as res eqn:Eres.
    unfold putJob, handler in Eres.
    unfold bind at 1, selectLatest, bind at 1, selectJobs, ret at 1 in Eres.
    destruct (maxVersion _) as [cur|] eqn:Ecur;
      [|subst res; apply Hkept, statusesIn_refl].
    destruct (option_beq JobStatus_beq (uj_status body) (Some InProgress)
              && JobStatus_beq (Job.status cur) Queued) eqn:Echeck;
      [subst res; apply Hkept, statusesIn_refl|].
    unfold bind at 1 in Eres.
    pose proof (kept_queueMoves env user body cur d) as Hmoves.
    destruct (queueMoves env user body cur d) as [d1 [[n t]|e]]; cbn [fst] in Hmoves;
      [|subst res; apply Hkept, Hmoves].
    destruct (needsNewVersion env body cur).
    + pose proof (kept_putNewVersion env user id body cur n t d1) as Hnew.
      assert (Hd : fst res = fst (putNewVersion env user id body cur n t d1)).
      { subst res. destruct (putNewVersion env user id body cur n t d1) as [d2 [x|e]];
          reflexivity. }
      rewrite Hd. apply Hkept. eapply statusesIn_trans; eassumption.
    + assert (Hd : fst res = fst (putInPlace env user id body cur n t d1)).
      { subst res. destruct (putInPlace env user id body cur n t d1) as [d2 [x|e]];
          reflexivity. }
      rewrite Hd.
      destruct (putInPlace_table env user id body cur n t d1) as [E | (L & HL & E)].
      * destruct (statusesIn_nth i Hmoves Hi) as (r1 & Hr1 & E1).
        apply keyStatus_eq in E1. destruct E1 as [K1 S1].
        exists r1. rewrite E. split; [exact Hr1|]. split; [exact K1|].
        rewrite S1, Hq. discriminate.
      * destruct (statusesIn_nth i Hmoves Hi) as (r1 & Hr1 & E1).
        apply keyStatus_eq in E1. destruct E1 as [K1 S1].
        rewrite E, nth_error_updateWhere, Hr1. cbn [option_map].
        eexists. split; [reflexivity|].
        destruct (keyOrgIs id (Job.version cur) (userOrgId user) r1) eqn:Ep.
        -- rewrite set_key. split; [exact K1|]. rewrite HL, S1, Hq.
           destruct (uj_status body) as [st|] eqn:Est; cbn [orElse]; [|discriminate].
           intros ->.
           (* the row is the current version, which is queued *)
           destruct (@maxVersion_found id (userOrgId user) (jobs d) cur Ecur)
             as (Hin & Hid & _).
           assert (r = cur).
           { apply (key_unique (jobs d)); auto.
             - eapply nth_error_In; eassumption.
             - rewrite <- K1. apply keyOrgIs_key in Ep. destruct Ep as [Ep _].
               rewrite Ep. unfold Job.key. now rewrite Hid. }
           subst r. rewrite Hq in Echeck. discriminate.
        -- split; [exact K1|]. rewrite S1, Hq. discriminate.
  - (* DELETE *)
    destruct (deleteJob_table env user id d) as [E | (ver & E)]; rewrite E.
    + exists r. split; [exact Hi|]. split; [reflexivity|]. rewrite Hq. discriminate.
    + rewrite nth_error_updateWhere, Hi. cbn [option_map]. eexists.
      split; [reflexivity|].
      destruct (keyOrgIs id ver (userOrgId user) r).
      * rewrite set_key. split; [reflexivity|]. destruct r; cbn. discriminate.
      * split; [reflexivity|]. rewrite Hq. discriminate.
  - apply Hkept, executeJob_kept.
  - apply Hkept, reprioritizeJob_kept.
Qed.


(** ** The new-version branch of [PUT /jobs/:id] *)



(** ** Instances *)

Lemma threeQueued_keys : NoDup (map Job.key (jobs threeQueued)).
Proof. vm_compute. repeat constructor; simpl; intuition discriminate. Qed.

Lemma threeQueued_contiguous : contiguous (rowPositions "org1" Backlog (jobs threeQueued)).
Proof. vm_compute. apply Permutation_refl. Qed.



Lemma reprioritize_after_removal_closes_gap_witness :
  contiguous (0 :: rowPositions "org1" Backlog (jobs gapDb))
  /\ contiguous (rowPositions "org1" Backlog
       (jobs (fst (reprioritizeQueueAfterRemoval (plainEnv 4000 "4") "org1" Backlog 0 gapDb)))).
Proof.
  assert (H : contiguous (0 :: rowPositions "org1" Backlog (jobs gapDb)))
    by (vm_compute; apply Permutation_refl).
  split; [exact H|].
  apply (@reprioritize_after_removal_closes_gap (plainEnv 4000 "4") "org1" Backlog 0 gapDb H).
Defined.

Lemma execute_takes_job_out_of_queue_witness :
  snd (executeJob (plainEnv 4000 "4") alice "job-1" threeQueued)
  = sendMessage 202 "Job execution started" None
  /\ contiguous (rowPositions "org1" Backlog
       (jobs (fst (executeJob (plainEnv 4000 "4") alice "job-1" threeQueued))))
  /\ length (rowPositions "org1" Backlog
       (jobs (fst (executeJob (plainEnv 4000 "4") alice "job-1" threeQueued)))) = 2%nat.
Proof.
  destruct (@execute_takes_job_out_of_queue (plainEnv 4000 "4") alice "job-1" threeQueued
              (exampleCreated "1" "first" 0 1000) Backlog
              threeQueued_keys eq_refl eq_refl eq_refl eq_refl threeQueued_contiguous)
    as (H1 & H2 & H3 & _).
  split; [exact H1|]. split; [exact H2|].
  change (userOrgId alice) with "org1" in H3.
  assert (E : length (rowPositions "org1" Backlog (jobs threeQueued)) = 3%nat) by reflexivity.
  rewrite E in H3. apply eq_add_S. exact H3.
Defined.

Lemma job_routes_keep_every_version_witness :
  exists r',
    nth_error (jobs (step (OpDelete (plainEnv 4000 "4") alice "job-1") threeQueued)) 0
    = Some r'
    /\ Job.key r' = ("job-1", 1)
    /\ Job.userInput r' = Some (UserInput.mk "mobile" "first" None).
Proof.
  destruct (@job_routes_keep_every_version (OpDelete (plainEnv 4000 "4") alice "job-1")
              alice threeQueued 0%nat (exampleCreated "1" "first" 0 1000) eq_refl eq_refl)
    as ((r' & H1 & H2 & _ & _ & H5 & _) & _).
  exists r'. split; [exact H1|]. split; [exact H2 | exact H5].
Defined.

Lemma job_routes_stay_in_their_organisation_witness :
  nth_error (jobs (step (OpDelete (plainEnv 6000 "6") alice "job-9") heartbeatDb)) 0
  = Some foreignJob.
Proof.
  destruct (@job_routes_stay_in_their_organisation
              (OpDelete (plainEnv 6000 "6") alice "job-9") alice heartbeatDb eq_refl)
    as [H _].
  apply (H 0%nat foreignJob eq_refl). discriminate.
Defined.

Lemma client_errors_write_nothing_witness :
  code (snd (putJob (plainEnv 4000 "4") alice "job-1" (statusBody InProgress) threeQueued))
  = 400
  /\ fst (putJob (plainEnv 4000 "4") alice "job-1" (statusBody InProgress) threeQueued)
     = threeQueued.
Proof.
  split; [reflexivity|].
  destruct (client_errors_write_nothing (plainEnv 4000 "4") alice) as (_ & H & _).
  apply (H "job-1" (statusBody InProgress) threeQueued). clear H. cbn. lia.
Defined.



Lemma delete_archives_latest_version_once_witness :
  code (snd (deleteJob (plainEnv 4000 "4") alice "job-1" threeQueued)) = 200
  /\ code (snd (deleteJob (plainEnv 5000 "5") alice "job-1"
                  (fst (deleteJob (plainEnv 4000 "4") alice "job-1" threeQueued)))) = 400.
Proof.
  assert (Hne : Job.status (exampleCreated "1" "first" 0 1000) <> Archived) by discriminate.
  destruct (@delete_archives_latest_version_once (plainEnv 4000 "4") (plainEnv 5000 "5")
              alice "job-1" threeQueued (exampleCreated "1" "first" 0 1000)
              threeQueued_keys eq_refl Hne)
    as (H1 & _ & _ & _ & _ & _ & H7).
  split; [rewrite H1; reflexivity | rewrite H7; reflexivity].
Defined.


Lemma stored_version_stays_readable_witness :
  exists r',
    snd (getJob alice "job-1" (Some "1")
           (step (OpPut (plainEnv 4000 "4") alice "job-1" (promptBody "again" (Some Queued)))
                 threeQueued))
    = sendJob 200 r'
    /\ Job.userInput r' = Some (UserInput.mk "mobile" "first" None).
Proof.
  assert (Hv : "1" <> EmptyString) by discriminate.
  destruct (@stored_version_stays_readable
              (OpPut (plainEnv 4000 "4") alice "job-1" (promptBody "again" (Some Queued)))
              alice alice "job-1" "1" 1 threeQueued (exampleCreated "1" "first" 0 1000)
              eq_refl Hv eq_refl eq_refl)
    as (r' & H1 & _ & H3 & _).
  exists r'. split; [rewrite H1; reflexivity | exact H3].
Defined.

Lemma single_dispatch_at_every_instant_witness :
  let d := run [ OpCreate (plainEnv 1000 "1") alice (createBody "first");
                 OpPreprocess (plainEnv 5000 "5") "agent-A";
                 OpPut (plainEnv 6000 "6") bob "job-9" (statusBody Completed) ]
               heartbeatDb in
  singleDispatch (jobs d)
  /\ snd (preprocessActivity (plainEnv 5000 "5") "agent-A" heartbeatDb)
     = Return (PreprocessResult.mk None None (Some "org1"))
  /\ jobs (fst (preprocessActivity (plainEnv 5000 "5") "agent-A" heartbeatDb))
     = jobs heartbeatDb
  /\ Job.orgId foreignJob <> "org1".
Proof.
  assert (Hnd : NoDup (map Job.key (jobs heartbeatDb))).
  { simpl. repeat constructor; simpl; intuition discriminate. }
  assert (Hone : forall agentId, oneJobOn agentId (jobs heartbeatDb)).
  { intros a r r' [<-|[<-|[]]] [<-|[<-|[]]]; cbn; intros; try discriminate; reflexivity. }
  destruct single_dispatch_at_every_instant as [H1 H2].
  split; [apply (H1 heartbeatDb _ Hnd Hone), reachable_run, reach_init|].
  destruct (H2 (plainEnv 5000 "5") "agent-A" heartbeatDb agentA foreignJob []
               eq_refl eq_refl eq_refl) as (A & B & _ & _ & C).
  split; [exact A|]. split; [exact B | exact C].
Defined.

Lemma monitor_never_starts_a_child_witness :
  snd (queueMonitorWorkflow (plainEnv 4000 "4") (plainEnv 5000 "5") (plainEnv 7000 "6")
         failingChild "agent-A" (run threeJobs oneAgentDb))
  = Throw queueLookupError.
Proof.
  assert (Horg : forall r, In r (jobs (run threeJobs oneAgentDb)) ->
                           Job.agentId r = Some "agent-A" ->
                           Job.orgId r = Agent.orgId agentA).
  { vm_compute. intros r [<-|[<-|[<-|[]]]]; intros; reflexivity. }
  exact (proj2 (proj2 (monitor_never_starts_a_child
                         (plainEnv 4000 "4") (plainEnv 5000 "5") (plainEnv 7000 "6")
                         failingChild "agent-A" (run threeJobs oneAgentDb)))
               agentA eq_refl eq_refl Horg).
Defined.

Lemma preprocess_requeues_orphans_and_throws_witness :
  let res := preprocessActivity (plainEnv 400000 "6") "agent-A" staleDb in
  snd res = Throw queueLookupError
  /\ agents (fst res) = agents staleDb
  /\ exists r', In r' (jobs (fst res))
                /\ Job.key r' = ("job-1", 2)
                /\ Job.status r' = Queued
                /\ Job.queueType r' = None
                /\ Job.orderInQueue r' = -1.
Proof.
  assert (Horg : forall r, In r (jobs staleDb) -> Job.agentId r = Some "agent-A" ->
                           Job.orgId r = Agent.orgId agentA).
  { vm_compute. intros r [<-|[<-|[]]]; intros; reflexivity. }
  pose (r := nth 1 (jobs staleDb) failedJob).
  assert (Hr : In r (jobs staleDb)) by (vm_compute; right; left; reflexivity).
  destruct (@preprocess_requeues_orphans_and_throws (plainEnv 400000 "6") "agent-A"
              staleDb agentA eq_refl eq_refl Horg)
    as (H1 & _ & H3 & _ & H5 & _).
  destruct (H5 r Hr eq_refl) as (r' & A & B & C & _ & D & E).
  cbv zeta. split; [exact H1|]. split; [exact H3|].
  exists r'. split; [exact A|]. split; [rewrite B; reflexivity|].
  split; [exact C|]. split; [rewrite D; reflexivity | rewrite E; reflexivity].
Defined.

Lemma reconnect_needs_an_agent_of_the_caller_witness :
  reconnectRoute (plainEnv 4000 "4") (plainEnv 4001 "4") (fun _ => ret tt) bob "agent-A"
                 registryDb
  = (registryDb, mkReconnectReply 404 (Some "Agent not found") None None None).
Proof.
  apply reconnect_needs_an_agent_of_the_caller.
  intros a [<-|[]] _. discriminate.
Defined.

Lemma failed_reconnect_reports_the_old_row_witness :
  rc_agent (snd (reconnectRoute (plainEnv 4000 "4")
                   (withHealthCheck PingUnsuccessful (plainEnv 4001 "4"))
                   (fun _ => ret tt) alice "agent-A" registryDb))
  = Some agentA
  /\ option_map agentView
       (find (agentIdIs "agent-A")
          (agents (fst (reconnectRoute (plainEnv 4000 "4")
                          (withHealthCheck PingUnsuccessful (plainEnv 4001 "4"))
                          (fun _ => ret tt) alice "agent-A" registryDb))))
     = Some (Offline, 1).
Proof.
  assert (Hh : healthCheck (withHealthCheck PingUnsuccessful (plainEnv 4001 "4"))
               <> PingSuccess) by discriminate.
  destruct (@failed_reconnect_reports_the_old_row (plainEnv 4000 "4")
              (withHealthCheck PingUnsuccessful (plainEnv 4001 "4"))
              (fun _ => ret tt) alice "agent-A" registryDb agentA eq_refl eq_refl Hh)
    as (H1 & H2 & _).
  split; [rewrite H1; reflexivity | rewrite H2; reflexivity].
Defined.

Lemma reconnect_brings_agent_back_witness :
  exists a,
    rc_agent (snd (reconnectRoute (plainEnv 4000 "4") (plainEnv 4001 "4")
                     (fun _ => throw "no schedule") alice "agent-A" registryDb))
    = Some a
    /\ agentView a = (Active, 0).
Proof.
  destruct (@reconnect_brings_agent_back (plainEnv 4000 "4") (plainEnv 4001 "4")
              (fun _ => throw "no schedule") alice "agent-A" registryDb agentA
              eq_refl eq_refl eq_refl)
    as (a & H1 & _ & H3 & H4 & _).
  exists a. split; [rewrite H1; reflexivity|].
  unfold agentView. now rewrite H3, H4.
Defined.


Lemma health_check_never_changes_status_witness :
  let offline := fst (pingAgentViaStream
                        (withHealthCheck PingUnsuccessful (plainEnv 4000 "4"))
                        "agent-A" registryDb) in
  let res := healthCheckHandler (plainEnv 5000 "5") "agent-A" offline in
  option_map agentView (find (agentIdIs "agent-A") (agents offline)) = Some (Offline, 1)
  /\ option_map agentView (find (agentIdIs "agent-A") (agents (fst res)))
     = Some (Offline, 0)
  /\ snd (preprocessActivity (plainEnv 6000 "6") "agent-A" (fst res))
     = Return (PreprocessResult.mk None None None).
Proof.
  intros offline res.
  split; [reflexivity|].
  destruct (health_check_never_changes_status (plainEnv 5000 "5") (plainEnv 6000 "6")
              "agent-A" offline) as [_ H].
  destruct (H (markOffline (withHealthCheck PingUnsuccessful (plainEnv 4000 "4")) 1 agentA)
              eq_refl) as (_ & H2 & _ & _ & _ & _ & H7).
  fold res in H2, H7. split.
  - rewrite H2. reflexivity.
  - rewrite H7; [reflexivity | discriminate].
Defined.


Lemma repo_fields_derive_from_repo_id_witness :
  let job repoId :=
    Job.mk "job-1" 1 "org1" None None Queued Medium 0 (Some Backlog) None 0 0
           "alice" "alice" None None None (Some repoId) NotReviewed
           None None None None in
  let r := transformJobResponse showZ (job "acme/widgets") None in
  let r' := transformJobResponse showZ (job "http://git.acme.test/widgets") None in
  (JobResponse.repo_id r = Some "acme/widgets"
   /\ JobResponse.repo_url r = Some "https://github.com/acme/widgets"
   /\ JobResponse.repo_name r = Some "widgets")
  /\ JobResponse.repo_url r' = Some "http://git.acme.test/widgets"
  /\ JobResponse.repo_name r' = Some "widgets".
Proof.
  intros job r r'. split.
  - destruct (repo_fields_derive_from_repo_id showZ (job "acme/widgets") None)
      as (_ & _ & H).
    destruct (H "acme/widgets" eq_refl eq_refl)
      as (H1 & u & n & H2 & H3 & _ & _ & H5 & _ & _ & _).
    fold r in H1, H2, H3.
    split; [exact H1|]. split; [rewrite H2, (H5 eq_refl); reflexivity|].
    reflexivity.
  - destruct (repo_fields_derive_from_repo_id showZ (job "http://git.acme.test/widgets")
                                              None)
      as (_ & _ & H).
    destruct (H "http://git.acme.test/widgets" eq_refl eq_refl)
      as (_ & u & n & H2 & H3 & _ & H4 & _).
    fold r' in H2, H3.
    split; [rewrite H2, (H4 eq_refl); reflexivity | reflexivity].
Defined.

Lemma job_list_shows_latest_versions_witness :
  map jobView (list_jobs (snd (listJobs alice versionsDb)))
  = [("job-1", 2, Queued, 0, Some Backlog, None)]
  /\ NoDup (map Job.id (list_jobs (snd (listJobs alice versionsDb)))).
Proof.
  assert (Hnd : NoDup (map Job.key (jobs versionsDb))).
  { vm_compute. repeat constructor; simpl; intuition discriminate. }
  destruct (@job_list_shows_latest_versions alice versionsDb Hnd) as (_ & _ & _ & H & _).
  split; [reflexivity | exact H].
Defined.

Lemma job_routes_never_start_a_queued_job_witness :
  exists r',
    nth_error (jobs (step (OpPut (plainEnv 4000 "4") alice "job-1" (statusBody InProgress))
                          threeQueued)) 0 = Some r'
    /\ Job.status r' <> InProgress.
Proof.
  destruct (@job_routes_never_start_a_queued_job
              (OpPut (plainEnv 4000 "4") alice "job-1" (statusBody InProgress))
              alice threeQueued 0%nat (exampleCreated "1" "first" 0 1000)
              threeQueued_keys eq_refl eq_refl eq_refl)
    as (r' & H1 & _ & H3).
  exists r'. split; [exact H1 | exact H3].
Defined.

